(** * kurobbs_auto_checkin: the check-in workflow of [auto_checkin.py]

    A shallow embedding of [KurobbsClient] and [main].  The client object
    ([result], [exceptions]) and the outside world (the remote gateway, the
    sleeps, the logger, the notification channel) are threaded explicitly:
    a method is a function from a state to an outcome (a returned value or a
    raised exception) and the state it leaves behind.  State changes made
    before an exception is raised are kept, as in Python.

    Conventions of the model:
    - a string holds a text as its UTF-8 bytes, and literals are written in
      UTF-8; a character is one byte or a lead byte with its continuation
      bytes, and indexing, slicing and [len] go by characters ([char_at],
      [last_chars], [char_count]);
    - a JSON number is an integer;
    - the request headers are fixed per client and are not part of a request
      event; they are modelled apart ([init_fields], [get_headers]), with
      the digest of [generate_fixed_string] computed by [SHA256];
    - [logger.debug] lines are left out; info, warning and error lines are
      events.  A logger call with a keyword argument has its message
      formatted by the logging library first ([str.format] with them),
      which can raise; that formatting is the library's and is given to
      [main] like the remote side is given to the client;
    - [time.sleep(random.uniform(1.0, 2.0))] is the event [ESleep 1 2]: the
      drawn duration itself is not modelled. *)

From Stdlib Require Import String Ascii List Arith Bool ZArith NArith Lia DecimalString.
Import ListNotations.
Open Scope string_scope.

(** ** Data *)

(** The decoded [data] field of a reply ([Optional[Any]]), and the values
    placed in a request body.  [JNull] is Python's [None]. *)
#[local] Unset Elimination Schemes.
Inductive json : Type :=
| JNull
| JBool (b : bool)
| JInt (z : Z)
| JStr (s : string)
| JList (l : list json)
| JDict (d : list (string * json)).
#[local] Set Elimination Schemes.

(** [class Response(BaseModel)] *)
Module Response.
Record t : Type := mk {
  code : Z;
  msg : string;
  success : option bool;
  data : json
}.
End Response.

(** Truth value of [resp.success], an [Optional[bool]]. *)
Definition truthy (o : option bool) : bool :=
  match o with
  | Some true => true
  | _ => false
  end.

(** What [requests.post] followed by [Response.model_validate_json] can
    fail with: the endpoint is not reached, or the body does not validate. *)
Inductive TransportError : Type :=
| Unreachable
| BadBody.

(** The exceptions of a run.  [KurobbsClientException] is the program's own;
    all the others are caught only by [main]'s [except Exception]. *)
Inductive exn : Type :=
| KurobbsClientException (m : string)
| Transport (e : TransportError)
| TypeError
| KeyError
| IndexError
| AttributeError
| UnboundLocalError.

Inductive outcome (A : Type) : Type :=
| Ret (a : A)
| Raise (e : exn).
Arguments Ret {A} a.
Arguments Raise {A} e.

Inductive LogLevel : Type := INFO | WARNING | ERROR.

(** What a run does to the outside world, in order. *)
Inductive Event : Type :=
| ECall (url : string) (body : list (string * json))
| ESleep (low high : nat)
| ELog (level : LogLevel) (text : string)
| ENotify (text : string).

(** The remote side: the reply to a request, given everything that happened
    before it. *)
Definition Gateway : Type :=
  list Event -> string -> list (string * json) -> Response.t + TransportError.

(** The client object's mutable fields and the trace of the run. *)
Record State : Type := mkState {
  result : list (string * string);
  exceptions : list string;
  trace : list Event
}.

(** ** Python containers *)

Fixpoint lookup {V : Type} (k : string) (d : list (string * V)) : option V :=
  match d with
  | [] => None
  | (k', v) :: d' => if String.eqb k k' then Some v else lookup k d'
  end.

(** [d[k] = v] on an insertion-ordered dict: an existing key keeps its
    place, a new key goes last. *)
Fixpoint dict_set (k v : string) (d : list (string * string))
  : list (string * string) :=
  match d with
  | [] => [(k, v)]
  | (k', v') :: d' =>
      if String.eqb k k' then (k, v) :: d' else (k', v') :: dict_set k v d'
  end.

Definition dict_values (d : list (string * string)) : list string :=
  map snd d.

(** A byte that continues a character of a UTF-8 text. *)
Definition is_continuation (c : ascii) : bool :=
  let n := nat_of_ascii c in (128 <=? n)%nat && (n <? 192)%nat.

(** [len(s)]: the number of characters of a text. *)
Fixpoint char_count (s : string) : nat :=
  match s with
  | EmptyString => 0
  | String c r => (if is_continuation c then 0 else 1) + char_count r
  end.

(** [s[-k:]] for [k > 0]: the last [k] characters of a text, all of it when
    it has no more than [k]. *)
Fixpoint last_chars (k : nat) (s : string) : string :=
  match s with
  | EmptyString => EmptyString
  | String c r =>
      if negb (is_continuation c) && (char_count s <=? k)%nat
      then s
      else last_chars k r
  end.

(** The continuation bytes a text starts with. *)
Fixpoint continuation_bytes (s : string) : string :=
  match s with
  | EmptyString => EmptyString
  | String c r =>
      if is_continuation c then String c (continuation_bytes r)
      else EmptyString
  end.

(** [s[i]] for [i >= 0]: the character at an index of a text, if any. *)
Fixpoint char_at (i : nat) (s : string) : option string :=
  match s with
  | EmptyString => None
  | String c r =>
      if is_continuation c then char_at i r
      else
        match i with
        | 0 => Some (String c (continuation_bytes r))
        | S i' => char_at i' r
        end
  end.

(** [v[i]] for an integer [i >= 0]. *)
Definition getitem_int (v : json) (i : nat) : outcome json :=
  match v with
  | JList l =>
      match nth_error l i with
      | Some x => Ret x
      | None => Raise IndexError
      end
  | JStr s =>
      match char_at i s with
      | Some c => Ret (JStr c)
      | None => Raise IndexError
      end
  | JDict _ => Raise KeyError
  | _ => Raise TypeError
  end.

(** [v[k]] for a string [k]. *)
Definition getitem_key (v : json) (k : string) : outcome json :=
  match v with
  | JDict d =>
      match lookup k d with
      | Some x => Ret x
      | None => Raise KeyError
      end
  | _ => Raise TypeError
  end.

(** [v.get(k, default)] *)
Definition dict_get (v : json) (k : string) (default : json) : outcome json :=
  match v with
  | JDict d =>
      match lookup k d with
      | Some x => Ret x
      | None => Ret default
      end
  | _ => Raise AttributeError
  end.

(** [v == n] for an integer literal [n] other than 0 and 1. *)
Definition json_eq_int (v : json) (n : Z) : bool :=
  match v with
  | JInt z => Z.eqb z n
  | _ => false
  end.

(** [f"{n:02d}"] for [n >= 0]. *)
Definition digit (n : nat) : string :=
  String (ascii_of_nat (48 + n)) EmptyString.

Definition format_02d (n : nat) : string :=
  if Nat.ltb n 10 then "0" ++ digit n
  else if Nat.ltb n 100 then digit (n / 10) ++ digit (n mod 10)
  else NilEmpty.string_of_uint (Nat.to_uint n).

(** ** The monad of methods *)

Definition M (A : Type) : Type := State -> outcome A * State.

Definition ret {A : Type} (a : A) : M A := fun s => (Ret a, s).

Definition raise {A : Type} (e : exn) : M A := fun s => (Raise e, s).

Definition bind {A B : Type} (m : M A) (k : A -> M B) : M B :=
  fun s =>
    match m s with
    | (Ret a, s') => k a s'
    | (Raise e, s') => (Raise e, s')
    end.

Definition lift {A : Type} (o : outcome A) : M A := fun s => (o, s).

Declare Scope method_scope.
Delimit Scope method_scope with method.
Notation "x <- m ;; k" := (bind m (fun x => k))
  (at level 61, m at next level, right associativity) : method_scope.
Notation "m ;; k" := (bind m (fun _ => k))
  (at level 61, right associativity) : method_scope.
Open Scope method_scope.

Definition emit (e : Event) (s : State) : State :=
  mkState (result s) (exceptions s) (trace s ++ [e]).

Definition set_result (k v : string) (s : State) : State :=
  mkState (dict_set k v (result s)) (exceptions s) (trace s).

Definition append_exception (m : string) (s : State) : State :=
  mkState (result s) (exceptions s ++ [m]) (trace s).

Definition modify (f : State -> State) : M unit := fun s => (Ret tt, f s).

(** [time.sleep(random.uniform(1.0, 2.0))] *)
Definition sleep : M unit := modify (emit (ESleep 1 2)).

(** [for i in range(lo, lo + n): body], where [body] returns the loop's
    locals and whether it executed [break].  The result says whether the
    loop was left by [break], that is whether its [else] clause is skipped. *)
Fixpoint for_range {L : Type} (body : nat -> L -> M (L * bool))
  (i n : nat) (l : L) : M (L * bool) :=
  match n with
  | 0 => ret (l, false)
  | S n' =>
      r <- body i l ;;
      if snd r then ret (fst r, true) else for_range body (S i) n' (fst r)
  end.

(** ** [class KurobbsClient] *)

Module KurobbsClient.

Definition FIND_ROLE_LIST_API_URL := "https://api.kurobbs.com/user/role/findRoleList".
Definition SIGN_URL := "https://api.kurobbs.com/encourage/signIn/v2".
Definition USER_SIGN_URL := "https://api.kurobbs.com/user/signIn".
Definition FORUM_LIST_URL := "https://api.kurobbs.com/forum/list".
Definition LIKE_URL := "https://api.kurobbs.com/forum/like".
Definition GET_POST_DETAIL_URL := "https://api.kurobbs.com/forum/getPostDetail".
Definition SHARE_TASK_URL := "https://api.kurobbs.com/encourage/level/shareTask".

(** [__init__]: the two containers are created empty, then the device code
    is derived (a warning is logged for an empty or missing uid), then
    ["10.0.2.2" + uid[-2:]] is evaluated, which needs [uid] to be a string. *)
Definition __init__ (uid : option string) : M unit :=
  fun s =>
    let s0 := mkState [] [] (trace s) in
    let s1 :=
      match uid with
      | Some (String _ _) => s0
      | _ => emit (ELog WARNING "生成固定字符串输入为空, 使用默认值 1") s0
      end in
    match uid with
    | Some _ => (Ret tt, s1)
    | None => (Raise TypeError, s1)
    end.

Section Methods.

(** The remote side, and the month in Asia/Shanghai when [checkin] runs. *)
Variable gw : Gateway.
Variable month : nat.

Definition make_request (url : string) (body : list (string * json))
  : M Response.t :=
  fun s =>
    match gw (trace s) url body with
    | inl res => (Ret res, emit (ECall url body) s)
    | inr e => (Raise (Transport e), emit (ECall url body) s)
    end.

Definition get_user_game_list (game_id : Z) : M json :=
  res <- make_request FIND_ROLE_LIST_API_URL [("gameId", JInt game_id)] ;;
  ret (Response.data res).

(** [user_game_list[0].get(key, default)] *)
Definition first_get (user_game_list : json) (key : string) (default : json)
  : M json :=
  first <- lift (getitem_int user_game_list 0) ;;
  lift (dict_get first key default).

Definition get_forum_list : M Response.t :=
  user_game_list <- get_user_game_list 3 ;;
  gameId <- first_get user_game_list "gameId" (JInt 2) ;;
  let forumId := if json_eq_int gameId 2 then 2%Z else 9%Z in
  make_request FORUM_LIST_URL
    [("forumId", JInt forumId); ("gameId", gameId); ("pageIndex", JInt 1);
     ("pageSize", JInt 20); ("searchType", JInt 2); ("timeType", JInt 0);
     ("topicId", JInt 0)].

Definition get_post_detail (rsp_forumList : Response.t) (post_index : nat)
  : M Response.t :=
  postList <- lift (getitem_key (Response.data rsp_forumList) "postList") ;;
  post <- lift (getitem_int postList post_index) ;;
  postId <- lift (getitem_key post "postId") ;;
  make_request GET_POST_DETAIL_URL
    [("isOnlyPublisher", JInt 0); ("postId", postId); ("showOrderType", JInt 2)].

(** [rsp.data["postDetail"][key]] *)
Definition post_detail_field (rsp_PostDetail : Response.t) (key : string)
  : M json :=
  postDetail <- lift (getitem_key (Response.data rsp_PostDetail) "postDetail") ;;
  lift (getitem_key postDetail key).

Definition like_post (rsp_PostDetail : Response.t) (operateType : Z)
  : M Response.t :=
  forumId <- post_detail_field rsp_PostDetail "gameForumId" ;;
  gameId <- lift (getitem_key (Response.data rsp_PostDetail) "gameId") ;;
  postId <- post_detail_field rsp_PostDetail "id" ;;
  postType <- post_detail_field rsp_PostDetail "postType" ;;
  toUserId <- post_detail_field rsp_PostDetail "postUserId" ;;
  make_request LIKE_URL
    [("forumId", forumId); ("gameId", gameId); ("likeType", JInt 1);
     ("operateType", JInt operateType); ("postCommentId", JInt 0);
     ("postCommentReplyId", JInt 0); ("postId", postId);
     ("postType", postType); ("toUserId", toUserId)].

Definition share_post (rsp_PostDetail : Response.t) : M Response.t :=
  gameId <- lift (getitem_key (Response.data rsp_PostDetail) "gameId") ;;
  make_request SHARE_TASK_URL [("gameId", gameId)].

(** [self.exceptions.append(KurobbsClientException(f'{failure_message}, {rsp.msg}'))] *)
Definition record_failure (failure_message : string) (rsp : Response.t)
  : M unit :=
  modify (append_exception (failure_message ++ ", " ++ Response.msg rsp)).

(** The locals of the two counting loops of [forum_task] (lines 148-159 and
    161-172): [success], the reply of the latest attempt, and the number of
    attempts made (kept for the statements; the source does not store it). *)
Record RetryLocals : Type := mkRetry {
  successes : nat;
  last_result : option Response.t;
  attempts_used : nat
}.

(** One iteration: call, count a success, sleep, then test the threshold. *)
Definition retry_body (K : nat) (action : nat -> M Response.t)
  (i : nat) (l : RetryLocals) : M (RetryLocals * bool) :=
  rsp <- action i ;;
  let success :=
    if truthy (Response.success rsp) then S (successes l) else successes l in
  sleep ;;
  ret (mkRetry success (Some rsp) (S (attempts_used l)), Nat.leb K success).

(** [success = 0; for i in range(0, N): ... else: record the failure].
    The two loops differ only in [N], [K], the action and the text. *)
Definition retry_loop (N K : nat) (action : nat -> M Response.t)
  (failure_message : string) : M (RetryLocals * bool) :=
  r <- for_range (retry_body K action) 0 N (mkRetry 0 None 0) ;;
  if snd r then ret r
  else
    match last_result (fst r) with
    | Some rsp => record_failure failure_message rsp ;; ret r
    | None => raise UnboundLocalError
    end.

(** The locals of the like loop (lines 174-192); [like_flag] is the local
    variable [like_post]. *)
Record LikeLocals : Type := mkLike {
  like_flag : bool;
  like_successes : nat;
  rsp_like_post : option Response.t;
  like_attempts : nat
}.

Definition like_body (rsp_getPostDetail : Response.t)
  (i : nat) (l : LikeLocals) : M (LikeLocals * bool) :=
  l1 <- (if like_flag l
         then rsp <- like_post rsp_getPostDetail 1 ;;
              ret (mkLike (like_flag l) (like_successes l) (Some rsp)
                     (like_attempts l))
         else ret l) ;;
  match rsp_like_post l1 with
  | None => raise UnboundLocalError
  | Some rsp =>
      l2 <- (if truthy (Response.success rsp)
             then sleep ;;
                  rsp_dislike_post <- like_post rsp_getPostDetail 2 ;;
                  if truthy (Response.success rsp_dislike_post)
                  then ret (mkLike true (S (like_successes l1))
                              (rsp_like_post l1) (like_attempts l1))
                  else ret (mkLike false (like_successes l1)
                              (rsp_like_post l1) (like_attempts l1))
             else ret l1) ;;
      sleep ;;
      ret (mkLike (like_flag l2) (like_successes l2) (rsp_like_post l2)
             (S (like_attempts l2)),
           Nat.leb 5 (like_successes l2))
  end.

Definition like_loop (rsp_getPostDetail : Response.t)
  : M (LikeLocals * bool) :=
  r <- for_range (like_body rsp_getPostDetail) 0 9 (mkLike true 0 None 0) ;;
  if snd r then ret r
  else
    match rsp_like_post (fst r) with
    | Some rsp => record_failure "点赞帖子失败" rsp ;; ret r
    | None => raise UnboundLocalError
    end.

Definition forum_task : M unit :=
  rsp_forumList <- get_forum_list ;;
  if negb (truthy (Response.success rsp_forumList))
  then record_failure "获取帖子列表失败" rsp_forumList
  else
    modify (set_result "get_forum_list" "获取帖子列表成功") ;;
    r1 <- retry_loop 5 3 (get_post_detail rsp_forumList) "获取帖子详情失败" ;;
    if negb (snd r1) then ret tt
    else
      match last_result (fst r1) with
      | None => raise UnboundLocalError
      | Some rsp_getPostDetail =>
          modify (set_result "get_post_detail" "获取帖子详情成功") ;;
          r2 <- retry_loop 1 1 (fun _ => share_post rsp_getPostDetail)
                  "分享帖子失败" ;;
          if negb (snd r2) then ret tt
          else
            modify (set_result "share_post" "分享帖子成功") ;;
            r3 <- like_loop rsp_getPostDetail ;;
            if negb (snd r3) then ret tt
            else modify (set_result "rsp_like_post" "点赞帖子成功")
      end.

Definition checkin : M Response.t :=
  user_game_list <- get_user_game_list 3 ;;
  gameId <- first_get user_game_list "gameId" (JInt 2) ;;
  serverId <- first_get user_game_list "serverId" JNull ;;
  roleId <- first_get user_game_list "roleId" (JInt 0) ;;
  userId <- first_get user_game_list "userId" (JInt 0) ;;
  make_request SIGN_URL
    [("gameId", gameId); ("serverId", serverId); ("roleId", roleId);
     ("userId", userId); ("reqMonth", JStr (format_02d month))].

Definition sign_in : M Response.t :=
  make_request USER_SIGN_URL [("gameId", JInt 2)].

Definition _process_sign_action (action_name : string)
  (action_method : M Response.t) (success_message failure_message : string)
  : M unit :=
  resp <- action_method ;;
  if truthy (Response.success resp)
  then modify (set_result action_name success_message)
  else record_failure failure_message resp.

(** The [msg] property. *)
Definition msg (s : State) : string :=
  String.concat ", " (dict_values (result s)) ++ "!".

(** Truth value of a [str]. *)
Definition str_truthy (x : string) : bool :=
  match x with
  | EmptyString => false
  | String _ _ => true
  end.

Definition _log : M unit :=
  fun s =>
    let s1 := if str_truthy (msg s) then emit (ELog INFO (msg s)) s else s in
    match exceptions s1 with
    | [] => (Ret tt, s1)
    | _ :: _ =>
        (Raise (KurobbsClientException (String.concat "; " (exceptions s1))), s1)
    end.

Definition checkin_stage : M unit :=
  _process_sign_action "checkin" checkin "签到奖励签到成功" "签到奖励签到失败".

Definition sign_in_stage : M unit :=
  _process_sign_action "sign_in" sign_in "社区签到成功" "社区签到失败".

Definition start : M unit :=
  checkin_stage ;;
  sign_in_stage ;;
  forum_task ;;
  _log.

End Methods.

End KurobbsClient.

(** ** [main] *)

(** Modelled from the spec: [send_notification] of the module
    [ext_notification], which is not among the sources.  It is the outbound
    notification delivery: one call delivers one notification carrying the
    given text, and returns. *)
Definition send_notification (text : string) : State -> State :=
  emit (ENotify text).

(** What the logging library makes of the message of
    [logger.error(str(e), exc_info=False)]: as a keyword argument is given,
    the message is formatted, [str(e).format(exc_info=False)], before the
    line is emitted.  The result is the text of the line, or the exception
    the formatting raises (for a text with the replacement field [{}],
    [IndexError]: there is no positional argument). *)
Definition Formatter : Type := string -> outcome string.

(** The process exit status and the state at exit.  [uid] is the value of
    the environment variable [UID], absent when it is not set.  An
    exception raised inside the handler of [KurobbsClientException] is not
    caught by the [except Exception] next to it: it leaves [main], and the
    process ends with status 1 before [send_notification] is reached. *)
Definition main (gw : Gateway) (format_message : Formatter) (month : nat)
  (uid : option string) (s : State) : nat * State :=
  match (KurobbsClient.__init__ uid ;; KurobbsClient.start gw month) s with
  | (Ret _, s') =>
      if KurobbsClient.str_truthy (KurobbsClient.msg s')
      then (0, send_notification (KurobbsClient.msg s') s')
      else (0, s')
  | (Raise (KurobbsClientException e), s') =>
      match format_message e with
      | Ret text => (1, send_notification e (emit (ELog ERROR text) s'))
      | Raise _ => (1, s')
      end
  | (Raise _, s') =>
      (1, emit (ELog ERROR "An unexpected error occurred:") s')
  end.

(** ** Scripted gateways, for running the program on concrete replies *)

Module Sim.

Import KurobbsClient.

Definition reply (ok : bool) (text : string) (d : json) : Response.t :=
  Response.mk (if ok then 200%Z else 500%Z) text (Some ok) d.

Definition role_list : json :=
  JList [JDict [("gameId", JInt 3); ("serverId", JStr "76402e5b");
                ("roleId", JInt 1001); ("userId", JInt 2002)]].

Definition post (id : Z) : json := JDict [("postId", JInt id)].

Definition post_detail : json :=
  JDict [("gameId", JInt 3);
         ("postDetail",
           JDict [("gameForumId", JInt 9); ("id", JInt 101);
                  ("postType", JInt 1); ("postUserId", JInt 77)])].

Definition is_call (url : string) (e : Event) : bool :=
  match e with
  | ECall u _ => String.eqb u url
  | _ => false
  end.

Definition is_unlike (e : Event) : bool :=
  match e with
  | ECall u body =>
      String.eqb u LIKE_URL &&
      match lookup "operateType" body with
      | Some (JInt 2) => true
      | _ => false
      end
  | _ => false
  end.

Definition count (p : Event -> bool) (t : list Event) : nat :=
  length (filter p t).

(** Which calls report success.  [detail_ok] and [unlike_ok] are asked
    with the number of earlier calls of the same kind. *)
Record Script : Type := mkScript {
  checkin_ok : bool;
  sign_in_ok : bool;
  list_ok : bool;
  posts : list json;
  detail_ok : nat -> bool;
  share_ok : bool;
  like_ok : bool;
  unlike_ok : nat -> bool
}.

Definition gateway (sc : Script) : Gateway :=
  fun t url body =>
    if String.eqb url FIND_ROLE_LIST_API_URL then
      inl (reply true "roles" role_list)
    else if String.eqb url SIGN_URL then
      inl (reply (checkin_ok sc) "checkin reply" JNull)
    else if String.eqb url USER_SIGN_URL then
      inl (reply (sign_in_ok sc) "sign_in reply" JNull)
    else if String.eqb url FORUM_LIST_URL then
      inl (reply (list_ok sc) "list reply" (JDict [("postList", JList (posts sc))]))
    else if String.eqb url GET_POST_DETAIL_URL then
      inl (reply (detail_ok sc (count (is_call GET_POST_DETAIL_URL) t))
             "detail reply" post_detail)
    else if String.eqb url SHARE_TASK_URL then
      inl (reply (share_ok sc) "share reply" JNull)
    else if is_unlike (ECall url body) then
      inl (reply (unlike_ok sc (count is_unlike t)) "unlike reply" JNull)
    else
      inl (reply (like_ok sc) "like reply" JNull).

Definition five_posts : list json := map post [11; 12; 13; 14; 15]%Z.

Definition all_ok : Script :=
  mkScript true true true five_posts (fun _ => true) true true (fun _ => true).

Definition checkin_fails : Script :=
  mkScript false true true five_posts (fun _ => true) true true (fun _ => true).

Definition no_posts : Script :=
  mkScript true true true [] (fun _ => true) true true (fun _ => true).


(** The unlike call succeeds on its 1st, 3rd, 5th, ... invocation. *)
Definition unlike_odd : Script :=
  mkScript true true true five_posts (fun _ => true) true true Nat.even.

(** The unlike call succeeds on its 2nd, 4th, 6th, ... invocation. *)
Definition unlike_even : Script :=
  mkScript true true true five_posts (fun _ => true) true true Nat.odd.

Definition unlike_never : Script :=
  mkScript true true true five_posts (fun _ => true) true true (fun _ => false).

(** No call gets through. *)
Definition unreachable : Gateway := fun _ _ _ => inr Unreachable.

(** The check-in reply reports failure and the sign-in call does not get
    through. *)
Definition checkin_fails_then_down : Gateway :=
  fun t url body =>
    if String.eqb url USER_SIGN_URL then inr Unreachable
    else gateway checkin_fails t url body.

Definition fresh : State := mkState [] [] [].


(** The like endpoint cannot be reached. *)
Definition likes_unreachable : Gateway :=
  fun t url body =>
    if String.eqb url LIKE_URL then inr Unreachable
    else gateway all_ok t url body.

Fixpoint has_brace (t : string) : bool :=
  match t with
  | EmptyString => false
  | String c r =>
      Ascii.eqb c "{"%char || Ascii.eqb c "}"%char || has_brace r
  end.

(** The formatting of the scripted runs.  A text without braces is left as
    it is, as [str.format] leaves it.  A text with a brace is answered with
    [IndexError], which is what [str.format] raises for the replacement
    field [{}], the only use of braces in these runs. *)
Definition format_message : Formatter :=
  fun t => if has_brace t then Raise IndexError else Ret t.

End Sim.

(** ** The identity headers *)

(** [hashlib.sha256(data).hexdigest()] (FIPS 180-4), on 32-bit words held in
    [N].  The input is the list of the bytes hashed. *)
Module SHA256.

Definition mask : N := 4294967295.

Definition add32 (a b : N) : N := N.land (a + b) mask.

Definition rotr (n : N) (x : N) : N :=
  N.lor (N.shiftr x n) (N.land (N.shiftl x (32 - n)) mask).

Definition shr (n : N) (x : N) : N := N.shiftr x n.

Definition not32 (x : N) : N := N.lxor x mask.

Definition Ch (x y z : N) : N := N.lxor (N.land x y) (N.land (not32 x) z).

Definition Maj (x y z : N) : N :=
  N.lxor (N.lxor (N.land x y) (N.land x z)) (N.land y z).

Definition Sigma0 (x : N) : N := N.lxor (N.lxor (rotr 2 x) (rotr 13 x)) (rotr 22 x).

Definition Sigma1 (x : N) : N := N.lxor (N.lxor (rotr 6 x) (rotr 11 x)) (rotr 25 x).

Definition sigma0 (x : N) : N := N.lxor (N.lxor (rotr 7 x) (rotr 18 x)) (shr 3 x).

Definition sigma1 (x : N) : N := N.lxor (N.lxor (rotr 17 x) (rotr 19 x)) (shr 10 x).

Definition K : list N :=
  [1116352408; 1899447441; 3049323471; 3921009573; 961987163; 1508970993;
   2453635748; 2870763221; 3624381080; 310598401; 607225278; 1426881987;
   1925078388; 2162078206; 2614888103; 3248222580; 3835390401; 4022224774;
   264347078; 604807628; 770255983; 1249150122; 1555081692; 1996064986;
   2554220882; 2821834349; 2952996808; 3210313671; 3336571891; 3584528711;
   113926993; 338241895; 666307205; 773529912; 1294757372; 1396182291;
   1695183700; 1986661051; 2177026350; 2456956037; 2730485921; 2820302411;
   3259730800; 3345764771; 3516065817; 3600352804; 4094571909; 275423344;
   430227734; 506948616; 659060556; 883997877; 958139571; 1322822218;
   1537002063; 1747873779; 1955562222; 2024104815; 2227730452; 2361852424;
   2428436474; 2756734187; 3204031479; 3329325298]%N.

(** The eight working words. *)
Record Words : Type := mkWords {
  wa : N; wb : N; wc : N; wd : N; we : N; wf : N; wg : N; wh : N
}.

Definition H0 : Words :=
  mkWords 1779033703 3144134277 1013904242 2773480762
          1359893119 2600822924 528734635 1541459225.

(** The message: the bytes, the byte 0x80, zero bytes up to 56 modulo 64,
    and the length in bits on 8 bytes, big-endian. *)
Definition be_bytes (n : nat) (x : N) : list N :=
  map (fun i => N.land (N.shiftr x (8 * N.of_nat i)) 255) (rev (seq 0 n)).

Definition pad (bytes : list N) : list N :=
  let l := length bytes in
  bytes ++ [128%N] ++ repeat 0%N ((119 - l mod 64) mod 64) ++
  be_bytes 8 (8 * N.of_nat l).

Fixpoint be_words (fuel : nat) (bytes : list N) : list N :=
  match fuel, bytes with
  | S fuel', b0 :: b1 :: b2 :: b3 :: rest =>
      (N.shiftl b0 24 + N.shiftl b1 16 + N.shiftl b2 8 + b3)%N
      :: be_words fuel' rest
  | _, _ => []
  end.

(** The 64 words of the schedule, from the 16 words of a block. *)
Fixpoint schedule (n : nat) (w : list N) : list N :=
  match n with
  | 0 => w
  | S n' =>
      let t := length w in
      let x := add32 (add32 (sigma1 (nth (t - 2) w 0%N)) (nth (t - 7) w 0%N))
                 (add32 (sigma0 (nth (t - 15) w 0%N)) (nth (t - 16) w 0%N)) in
      schedule n' (w ++ [x])
  end.

Definition round (v : Words) (kw : N * N) : Words :=
  let t1 := add32 (add32 (add32 (wh v) (Sigma1 (we v)))
                     (add32 (Ch (we v) (wf v) (wg v)) (fst kw))) (snd kw) in
  let t2 := add32 (Sigma0 (wa v)) (Maj (wa v) (wb v) (wc v)) in
  mkWords (add32 t1 t2) (wa v) (wb v) (wc v) (add32 (wd v) t1) (we v) (wf v) (wg v).

Definition compress (h : Words) (block : list N) : Words :=
  let v := fold_left round (combine K (schedule 48 block)) h in
  mkWords (add32 (wa h) (wa v)) (add32 (wb h) (wb v)) (add32 (wc h) (wc v))
          (add32 (wd h) (wd v)) (add32 (we h) (we v)) (add32 (wf h) (wf v))
          (add32 (wg h) (wg v)) (add32 (wh h) (wh v)).

Fixpoint blocks (fuel : nat) (h : Words) (words : list N) : Words :=
  match fuel, words with
  | S fuel', _ :: _ => blocks fuel' (compress h (firstn 16 words)) (skipn 16 words)
  | _, _ => h
  end.

Definition digest (bytes : list N) : Words :=
  let p := pad bytes in
  blocks (length p) H0 (be_words (length p) p).

Definition hex_digit (x : N) : ascii :=
  ascii_of_N (if (x <? 10)%N then 48 + x else 87 + x).

(** The eight hexadecimal digits of a word, lower case. *)
Definition hex8 (x : N) : string :=
  string_of_list_ascii
    (map (fun i => hex_digit (N.land (N.shiftr x (4 * N.of_nat i)) 15))
       (rev (seq 0 8))).

Definition hexdigest (bytes : list N) : string :=
  let v := digest bytes in
  (hex8 (wa v) ++ hex8 (wb v) ++ hex8 (wc v) ++ hex8 (wd v) ++
   hex8 (we v) ++ hex8 (wf v) ++ hex8 (wg v) ++ hex8 (wh v))%string.

End SHA256.

(** [s.encode('utf-8')]: the characters of a string are its UTF-8 bytes. *)
Definition encode_utf8 (s : string) : list N :=
  map N_of_ascii (list_ascii_of_string s).

(** [s.upper()] on a string of ASCII characters. *)
Definition upper_char (c : ascii) : ascii :=
  let n := nat_of_ascii c in
  if (97 <=? n)%nat && (n <=? 122)%nat then ascii_of_nat (n - 32) else c.

Fixpoint str_upper (s : string) : string :=
  match s with
  | EmptyString => EmptyString
  | String c s' => String (upper_char c) (str_upper s')
  end.

(** [s[:n]] for an integer [n]; a negative [n] counts from the end. *)
Definition slice_to (n : Z) (s : string) : string :=
  if (n <? 0)%Z
  then substring 0 (String.length s - Z.to_nat (- n)) s
  else substring 0 (Z.to_nat n) s.

(** [generate_fixed_string(input_string, length)]; the method is only
    called with the default [length=40].  An absent [input_string] is
    Python's [None]. *)
Definition generate_fixed_string (input_string : option string) (length : Z)
  : M string :=
  fun s =>
    let s1 :=
      match input_string with
      | Some (String _ _) => s
      | _ => emit (ELog WARNING "生成固定字符串输入为空, 使用默认值 1") s
      end in
    let input_string :=
      match input_string with
      | Some (String c r) => String c r
      | _ => "1"
      end in
    let s2 :=
      if (64 <? length)%Z
      then emit (ELog WARNING
                   ("使用 " ++ input_string ++ " 生成长度 " ++
                    NilEmpty.string_of_int (Z.to_int length) ++
                    " 超过最大值, 已自动调整为64")) s1
      else s1 in
    let length := if (64 <? length)%Z then 64%Z else length in
    let sha256_hash := str_upper (SHA256.hexdigest (encode_utf8 input_string)) in
    (Ret (slice_to length sha256_hash), s2).

(** [uid[-2:]] *)
Definition last_two (uid : string) : string := last_chars 2 uid.

(** The fields [__init__] sets beside the two containers. *)
Record Identity : Type := mkIdentity {
  uid : string;
  token : option string;
  devcode : string;
  ip : string
}.

(** [__init__(token, uid)] with the fields it sets;
    [KurobbsClient.__init__] above is its effect on the state. *)
Definition init_fields (token uid : option string) : M Identity :=
  devcode <- (fun s => generate_fixed_string uid 40 (mkState [] [] (trace s))) ;;
  match uid with
  | Some u => ret (mkIdentity u token devcode ("10.0.2.2" ++ last_two u))
  | None => raise TypeError
  end.

(** [get_headers]; a token that is not set is [None]. *)
Definition get_headers (c : Identity) : list (string * json) :=
  [("osversion", JStr "Android");
   ("devcode", JStr (devcode c));
   ("countrycode", JStr "CN");
   ("ip", JStr (ip c));
   ("model", JStr "2211133C");
   ("source", JStr "android");
   ("lang", JStr "zh-Hans");
   ("version", JStr "1.0.9");
   ("versioncode", JStr "1090");
   ("token", match token c with Some t => JStr t | None => JNull end);
   ("content-type", JStr "application/x-www-form-urlencoded; charset=utf-8");
   ("accept-encoding", JStr "gzip");
   ("user-agent", JStr "okhttp/3.10.0")].

(** More scripted gateways. *)

(** The role reply reports failure and carries no data, as for a token that
    is no longer valid. *)
Definition gateway_without_roles : Gateway :=
  fun t url body =>
    if String.eqb url KurobbsClient.FIND_ROLE_LIST_API_URL
    then inl (Sim.reply false "登录已过期" JNull)
    else Sim.gateway Sim.all_ok t url body.

(** The listing holds [n] posts (at most five); the replies to the detail
    calls are scripted as before. *)
Definition gateway_with_posts (n : nat) (detail_ok : nat -> bool) : Gateway :=
  Sim.gateway
    (Sim.mkScript true true true (firstn n Sim.five_posts) detail_ok true true
       (fun _ => true)).

(** The remote side that keeps a run busiest: the second and third detail
    replies report failure, every like reply reports success, and the unlike
    replies report success four times and failure from then on. *)
Definition busiest : Gateway :=
  Sim.gateway
    (Sim.mkScript true true true Sim.five_posts
       (fun k => negb (Nat.eqb k 1 || Nat.eqb k 2)) true true
       (fun k => Nat.ltb k 4)).

(** * Vocabulary of the statements *)

Import KurobbsClient.
Open Scope list_scope.

(** The exceptions raised by evaluating an expression, as opposed to the
    gateway's and the program's own. *)
Definition internal (e : exn) : Prop :=
  match e with
  | KurobbsClientException _ | Transport _ => False
  | _ => True
  end.

Definition raised {A : Type} (o : outcome A) : option exn :=
  match o with
  | Ret _ => None
  | Raise e => Some e
  end.

(** A method keeps the relation [R] between the state it starts in, the
    exception it raises (if any) and the state it leaves. *)
Definition respects (R : State -> option exn -> State -> Prop)
  {A : Type} (m : M A) : Prop :=
  forall s o s', m s = (o, s') -> R s (raised o) s'.

(** [segment gw t ext x]: after the trace [t], the events [ext] are calls and
    sleeps, every call but possibly the last was answered with a reply, and
    [x] is the transport failure of the last call: once a call fails nothing
    follows. *)
Inductive segment (gw : Gateway)
  : list Event -> list Event -> option TransportError -> Prop :=
| segment_nil t : segment gw t [] None
| segment_fail t u b e :
    gw t u b = inr e -> segment gw t [ECall u b] (Some e)
| segment_call t u b r ext x :
    gw t u b = inl r ->
    segment gw (t ++ [ECall u b]) ext x ->
    segment gw t (ECall u b :: ext) x
| segment_sleep t lo hi ext x :
    segment gw (t ++ [ESleep lo hi]) ext x ->
    segment gw t (ESleep lo hi :: ext) x.

Definition transport_of (x : option exn) : option TransportError :=
  match x with
  | Some (Transport e) => Some e
  | _ => None
  end.

(** What the stages of [start] do to a state: the failure list grows at its
    end, the program's own exception is not raised, and the new events form
    a segment that ends in a failed call exactly when a transport failure is
    raised. *)
Definition stage_run (gw : Gateway) (s : State) (x : option exn) (s' : State)
  : Prop :=
  (exists l, exceptions s' = (exceptions s ++ l)) /\
  (forall m, x <> Some (KurobbsClientException m)) /\
  exists ext, trace s' = trace s ++ ext /\
    segment gw (trace s) ext (transport_of x).

(** Calls to the listed URLs, and sleeps. *)
Definition calls_only (urls : list string) (e : Event) : Prop :=
  match e with
  | ECall u _ => In u urls
  | ESleep _ _ => True
  | _ => False
  end.

(** What a method that only talks to the gateway does to a state. *)
Definition io_only (urls : list string) (s : State) (x : option exn)
  (s' : State) : Prop :=
  result s' = result s /\
  exceptions s' = exceptions s /\
  exists ext, trace s' = trace s ++ ext /\ Forall (calls_only urls) ext.

(** The texts delivered by [send_notification], in order. *)
Definition notifications (t : list Event) : list string :=
  flat_map (fun e => match e with ENotify x => [x] | _ => [] end) t.

Definition is_sleep (e : Event) : bool :=
  match e with
  | ESleep _ _ => true
  | _ => false
  end.

Definition count_sleeps (t : list Event) : nat := length (filter is_sleep t).

Definition is_call_event (e : Event) : Prop :=
  match e with
  | ECall _ _ => True
  | _ => False
  end.


(** The success messages of the forum task, as they accumulate. *)
Definition listed (r : list (string * string)) : list (string * string) :=
  dict_set "get_forum_list" "获取帖子列表成功" r.

Definition detailed (r : list (string * string)) : list (string * string) :=
  dict_set "get_post_detail" "获取帖子详情成功" (listed r).

Definition shared (r : list (string * string)) : list (string * string) :=
  dict_set "share_post" "分享帖子成功" (detailed r).

Definition liked (r : list (string * string)) : list (string * string) :=
  dict_set "rsp_like_post" "点赞帖子成功" (shared r).

(** The URLs a run of the forum task has called when it stops in or after
    the listing, the post details, the share. *)
Definition listing_urls : list string :=
  [FIND_ROLE_LIST_API_URL; FORUM_LIST_URL].

Definition detail_urls : list string :=
  [FIND_ROLE_LIST_API_URL; FORUM_LIST_URL; GET_POST_DETAIL_URL].

Definition share_urls : list string :=
  [FIND_ROLE_LIST_API_URL; FORUM_LIST_URL; GET_POST_DETAIL_URL; SHARE_TASK_URL].

Definition forum_urls : list string :=
  [FIND_ROLE_LIST_API_URL; FORUM_LIST_URL; GET_POST_DETAIL_URL; SHARE_TASK_URL;
   LIKE_URL].

(** The states in which the sub-steps of [forum_task] start: after a
    listing reply that reports success, after a detail loop left by
    [break] (with its last reply), after a share loop left by [break]. *)
Definition after_listing (gw : Gateway) (s : State) (rsp_forumList : Response.t)
  (s1 : State) : Prop :=
  exists s0,
    get_forum_list gw s = (Ret rsp_forumList, s0) /\
    truthy (Response.success rsp_forumList) = true /\
    s1 = set_result "get_forum_list" "获取帖子列表成功" s0.

Definition after_details (gw : Gateway) (s : State)
  (rsp_getPostDetail : Response.t) (s2 : State) : Prop :=
  exists rsp_forumList s1 l s1',
    after_listing gw s rsp_forumList s1 /\
    for_range (retry_body 3 (get_post_detail gw rsp_forumList)) 0 5
      (mkRetry 0 None 0) s1 = (Ret (l, true), s1') /\
    last_result l = Some rsp_getPostDetail /\
    s2 = set_result "get_post_detail" "获取帖子详情成功" s1'.

Definition after_share (gw : Gateway) (s : State)
  (rsp_getPostDetail : Response.t) (s3 : State) : Prop :=
  exists s2 l s2',
    after_details gw s rsp_getPostDetail s2 /\
    for_range (retry_body 1 (fun _ => share_post gw rsp_getPostDetail)) 0 1
      (mkRetry 0 None 0) s2 = (Ret (l, true), s2') /\
    s3 = set_result "share_post" "分享帖子成功" s2'.

(** How a run of [forum_task] that returns can end: on a listing reply
    that reports failure; on a detail loop, a share loop or a like loop that
    ran out of attempts (left without [break]); or with every sub-step done.
    [ext] holds the events of the run. *)
Inductive forum_end (gw : Gateway) (s s' : State) (ext : list Event) : Prop :=
| listing_failed rsp s1 :
    get_forum_list gw s = (Ret rsp, s1) ->
    truthy (Response.success rsp) = false ->
    exceptions s' =
      exceptions s ++ [("获取帖子列表失败" ++ ", " ++ Response.msg rsp)%string] ->
    result s' = result s ->
    Forall (calls_only listing_urls) ext ->
    forum_end gw s s' ext
| detail_failed rsp_forumList s1 l s2 rsp :
    after_listing gw s rsp_forumList s1 ->
    for_range (retry_body 3 (get_post_detail gw rsp_forumList)) 0 5
      (mkRetry 0 None 0) s1 = (Ret (l, false), s2) ->
    last_result l = Some rsp ->
    exceptions s' =
      exceptions s ++ [("获取帖子详情失败" ++ ", " ++ Response.msg rsp)%string] ->
    result s' = listed (result s) ->
    Forall (calls_only detail_urls) ext ->
    forum_end gw s s' ext
| share_failed rsp_getPostDetail s1 l s2 rsp :
    after_details gw s rsp_getPostDetail s1 ->
    for_range (retry_body 1 (fun _ => share_post gw rsp_getPostDetail)) 0 1
      (mkRetry 0 None 0) s1 = (Ret (l, false), s2) ->
    last_result l = Some rsp ->
    exceptions s' =
      exceptions s ++ [("分享帖子失败" ++ ", " ++ Response.msg rsp)%string] ->
    result s' = detailed (result s) ->
    Forall (calls_only share_urls) ext ->
    forum_end gw s s' ext
| like_failed rsp_getPostDetail s1 l s2 rsp :
    after_share gw s rsp_getPostDetail s1 ->
    for_range (like_body gw rsp_getPostDetail) 0 9 (mkLike true 0 None 0) s1
      = (Ret (l, false), s2) ->
    rsp_like_post l = Some rsp ->
    exceptions s' =
      exceptions s ++ [("点赞帖子失败" ++ ", " ++ Response.msg rsp)%string] ->
    result s' = shared (result s) ->
    Forall (calls_only forum_urls) ext ->
    forum_end gw s s' ext
| forum_done rsp_getPostDetail s1 l s2 :
    after_share gw s rsp_getPostDetail s1 ->
    for_range (like_body gw rsp_getPostDetail) 0 9 (mkLike true 0 None 0) s1
      = (Ret (l, true), s2) ->
    exceptions s' = exceptions s ->
    result s' = liked (result s) ->
    Forall (calls_only forum_urls) ext ->
    forum_end gw s s' ext.

(** The three stages of [start], before [_log]. *)
Definition stages (gw : Gateway) (month : nat) : M unit :=
  checkin_stage gw month ;; sign_in_stage gw ;; forum_task gw.

(** What [_process_sign_action] records for a reply. *)
Definition record_stage (action_name success_message failure_message : string)
  (resp : Response.t) (s : State) : State :=
  if truthy (Response.success resp)
  then set_result action_name success_message s
  else append_exception (failure_message ++ ", " ++ Response.msg resp) s.

(** The outcome of [_log] on a state. *)
Definition aggregate (s : State) : outcome unit :=
  match exceptions s with
  | [] => Ret tt
  | _ :: _ => Raise (KurobbsClientException (String.concat "; " (exceptions s)))
  end.

(** A whole run of the client, as [main] starts it. *)
Definition client_run (gw : Gateway) (month : nat) (uid : option string)
  : M unit :=
  __init__ uid ;; start gw month.


(** The number of attempts, among the first [n], whose reply reports
    success, when the reply of attempt [i] is [outs i]. *)
Fixpoint count_ok (outs : nat -> Response.t) (n : nat) : nat :=
  match n with
  | 0 => 0
  | S n' => count_ok outs n' + (if truthy (Response.success (outs n')) then 1 else 0)
  end.

(** An action whose reply at attempt [i < N] is [outs i], whatever the
    state, and which neither sleeps nor touches the client's fields. *)
Definition scripted (N : nat) (action : nat -> M Response.t)
  (outs : nat -> Response.t) : Prop :=
  forall i s, i < N ->
    exists s', action i s = (Ret (outs i), s') /\
      result s' = result s /\ exceptions s' = exceptions s /\
      exists ext, trace s' = trace s ++ ext /\ count_sleeps ext = 0.


(** Every reply a method returns reports success. *)
Definition replies_ok (m : M Response.t) : Prop :=
  forall s r s', m s = (Ret r, s') -> truthy (Response.success r) = true.

(** The result mapping of a run in which every stage succeeded. *)
Definition all_six : list (string * string) :=
  [("checkin", "签到奖励签到成功"); ("sign_in", "社区签到成功");
   ("get_forum_list", "获取帖子列表成功"); ("get_post_detail", "获取帖子详情成功");
   ("share_post", "分享帖子成功"); ("rsp_like_post", "点赞帖子成功")]%string.


(** A character of an upper-case hexadecimal number. *)
Definition is_upper_hex (c : ascii) : bool :=
  let n := nat_of_ascii c in
  ((48 <=? n)%nat && (n <=? 57)%nat) || ((65 <=? n)%nat && (n <=? 70)%nat).

Fixpoint str_forall (p : ascii -> bool) (s : string) : bool :=
  match s with
  | EmptyString => true
  | String c s' => p c && str_forall p s'
  end.

(** The string [generate_fixed_string] returns, and the warnings it logs. *)
Definition fixed_string (input_string : option string) (length : nat) : string :=
  match fst (generate_fixed_string input_string (Z.of_nat length)
               (mkState [] [] [])) with
  | Ret d => d
  | Raise _ => ""%string
  end.

Definition fixed_string_warnings (input_string : option string) (length : nat)
  : list Event :=
  trace (snd (generate_fixed_string input_string (Z.of_nat length)
                (mkState [] [] []))).


(** [d.get(key, default)] on the fields of a JSON object. *)
Definition field_or (d : list (string * json)) (key : string) (default : json)
  : json :=
  match lookup key d with
  | Some x => x
  | None => default
  end.

(** The number a string of decimal digits writes, when it is one. *)
Fixpoint decimal_value (acc : nat) (s : string) : option nat :=
  match s with
  | EmptyString => Some acc
  | String c s' =>
      let n := nat_of_ascii c in
      if (48 <=? n)%nat && (n <=? 57)%nat
      then decimal_value (10 * acc + (n - 48)) s'
      else None
  end.


(** [user_game_list[0].get(key, default)] as a value. *)
Definition first_role_field (user_game_list : json) (key : string)
  (default : json) : outcome json :=
  match getitem_int user_game_list 0 with
  | Ret first => dict_get first key default
  | Raise e => Raise e
  end.

(** The requests among a list of events. *)
Definition is_request (e : Event) : bool :=
  match e with
  | ECall _ _ => true
  | _ => false
  end.

Definition count_requests (t : list Event) : nat := length (filter is_request t).

(** A method that, however it ends, adds at most [r] requests and [z]
    sleeps to the trace. *)
Definition spends {A : Type} (r z : nat) (m : M A) : Prop :=
  forall s o s', m s = (o, s') ->
    exists ext,
      trace s' = trace s ++ ext /\
      count_requests ext <= r /\ count_sleeps ext <= z.

(** What the like loop has already used up of its allowance: the counted
    successes, and one more while [like_post] is false. *)
Definition like_debt (l : LikeLocals) : nat :=
  like_successes l + (if like_flag l then 0 else 1).

(** Every request in the list is directly followed by a sleep. *)
Fixpoint paced (t : list Event) : bool :=
  match t with
  | [] => true
  | ECall _ _ :: rest =>
      match rest with
      | ESleep _ _ :: _ => paced rest
      | _ => false
      end
  | _ :: rest => paced rest
  end.

(** A method that, when it returns, has added a paced list of events. *)
Definition paced_run {A : Type} (m : M A) : Prop :=
  forall s a s', m s = (Ret a, s') ->
    exists ext, trace s' = trace s ++ ext /\ paced ext = true.

(** A like request: a call of the like endpoint with operateType 1. *)
Definition is_like_request (e : Event) : bool :=
  match e with
  | ECall u body =>
      String.eqb u LIKE_URL &&
      match lookup "operateType" body with
      | Some (JInt 1) => true
      | _ => false
      end
  | _ => false
  end.

(** Among the events [ext] that follow the trace [t0], the requests that
    satisfy [p] and that the remote side answered with a reply reporting
    success. *)
Fixpoint count_succeeding (gw : Gateway) (p : Event -> bool)
  (t0 ext : list Event) : nat :=
  match ext with
  | [] => 0
  | e :: rest =>
      match e with
      | ECall u body =>
          match gw t0 u body with
          | inl r =>
              if p e && truthy (Response.success r) then 1 else 0
          | inr _ => 0
          end
      | _ => 0
      end + count_succeeding gw p (t0 ++ [e]) rest
  end.

(** [r] is the reply the remote side gave to the latest like request among
    the events [ext] that follow the trace [t0]. *)
Definition latest_like_reply (gw : Gateway) (t0 ext : list Event)
  (r : Response.t) : Prop :=
  exists pre body post,
    ext = pre ++ ECall LIKE_URL body :: post /\
    lookup "operateType" body = Some (JInt 1) /\
    gw (t0 ++ pre) LIKE_URL body = inl r /\
    existsb is_like_request post = false.

(** What the like loop keeps true of [rsp_like_post], [ext] being the
    events since the loop was entered at the trace [t0]: once set, it is
    the reply to the latest like request, and while [like_post] is false
    that reply is one that reported success. *)
Definition like_reply_kept (gw : Gateway) (t0 ext : list Event)
  (l : LikeLocals) : Prop :=
  match rsp_like_post l with
  | None => like_flag l = true
  | Some r =>
      (like_flag l = false -> truthy (Response.success r) = true) /\
      latest_like_reply gw t0 ext r
  end.

(** The request [get_post_detail] sends for a post id. *)
Definition detail_request (postId : json) : Event :=
  ECall GET_POST_DETAIL_URL
    [("isOnlyPublisher"%string, JInt 0); ("postId"%string, postId);
     ("showOrderType"%string, JInt 2)].

(** The id of the post at an index of the listing. *)
Definition listed_post_id (posts : list json) (i : nat) : option json :=
  match nth_error posts i with
  | Some (JDict post) => lookup "postId" post
  | _ => None
  end.

(** * Properties *)

(** ** The monad *)

Lemma bind_ret_inv {A B : Type} (m : M A) (k : A -> M B) s o s' :
  bind m k s = (o, s') ->
  (exists a s1, m s = (Ret a, s1) /\ k a s1 = (o, s')) \/
  (exists e, m s = (Raise e, s') /\ o = Raise e).
Proof.
  unfold bind. destruct (m s) as [[a | e] s1] eqn:E; intros H.
  - left. exists a, s1. split; [reflexivity | exact H].
  - right. exists e. inversion H; subst. split; reflexivity.
Qed.

Lemma getitem_int_internal v i e : getitem_int v i = Raise e -> internal e.
Proof.
  destruct v; simpl; try (intros H; inversion H; exact I).
  - destruct (char_at i s); intros H; inversion H; exact I.
  - destruct (nth_error l i); intros H; inversion H; exact I.
Qed.

Lemma getitem_key_internal v k e : getitem_key v k = Raise e -> internal e.
Proof.
  destruct v; simpl; try (intros H; inversion H; exact I).
  destruct (lookup k d); intros H; inversion H; exact I.
Qed.

Lemma dict_get_internal v k d e : dict_get v k d = Raise e -> internal e.
Proof.
  destruct v; simpl; try (intros H; inversion H; exact I).
  destruct (lookup k d0); intros H; inversion H.
Qed.

(** ** A relation kept by every method

    [R s x s'] relates the state before a method to the state after it,
    [x] being the exception it raised, if any.  The lemmas of this section
    walk through the methods once; a lemma asks only for the closure
    properties its method needs. *)
Create HintDb respects.

Section Respects.

Variable gw : Gateway.
Variable month : nat.
Variable R : State -> option exn -> State -> Prop.
Variable allowed : string -> Prop.

Hypothesis R_refl : forall s, R s None s.
Hypothesis R_trans :
  forall s s1 s2 x, R s None s1 -> R s1 x s2 -> R s x s2.
Hypothesis R_internal : forall s e, internal e -> R s (Some e) s.
Hypothesis R_call_ok :
  forall s u b r, allowed u -> gw (trace s) u b = inl r ->
    R s None (emit (ECall u b) s).
Hypothesis R_call_fail :
  forall s u b e, allowed u -> gw (trace s) u b = inr e ->
    R s (Some (Transport e)) (emit (ECall u b) s).
Hypothesis R_sleep : forall s, R s None (emit (ESleep 1 2) s).
Hypothesis R_set_result : forall s k v, R s None (set_result k v s).
Hypothesis R_append : forall s m, R s None (append_exception m s).

Lemma respects_ret {A : Type} (a : A) : respects R (ret a).
Proof. intros s o s' H. inversion H; subst. apply R_refl. Qed.

Lemma respects_raise {A : Type} (e : exn) :
  internal e -> respects R (@raise A e).
Proof. intros He s o s' H. inversion H; subst. apply R_internal, He. Qed.

Lemma respects_bind {A B : Type} (m : M A) (k : A -> M B) :
  respects R m -> (forall a, respects R (k a)) -> respects R (bind m k).
Proof.
  intros Hm Hk s o s' H.
  destruct (bind_ret_inv _ _ _ _ _ H) as [(a & s1 & E1 & E2) | (e & E1 & ->)].
  - apply R_trans with s1.
    + exact (Hm _ _ _ E1).
    + exact (Hk _ _ _ _ E2).
  - exact (Hm _ _ _ E1).
Qed.

Lemma respects_getitem_int v i : respects R (lift (getitem_int v i)).
Proof.
  intros s o s' H. inversion H; subst.
  destruct (getitem_int v i) eqn:E; simpl.
  - apply R_refl.
  - apply R_internal. eapply getitem_int_internal, E.
Qed.

Lemma respects_getitem_key v k : respects R (lift (getitem_key v k)).
Proof.
  intros s o s' H. inversion H; subst.
  destruct (getitem_key v k) eqn:E; simpl.
  - apply R_refl.
  - apply R_internal. eapply getitem_key_internal, E.
Qed.

Lemma respects_dict_get v k d : respects R (lift (dict_get v k d)).
Proof.
  intros s o s' H. inversion H; subst.
  destruct (dict_get v k d) eqn:E; simpl.
  - apply R_refl.
  - apply R_internal. eapply dict_get_internal, E.
Qed.

Lemma respects_sleep : respects R sleep.
Proof. intros s o s' H. inversion H; subst. apply R_sleep. Qed.

Lemma respects_set_result k v : respects R (modify (set_result k v)).
Proof. intros s o s' H. inversion H; subst. apply R_set_result. Qed.

Lemma respects_record_failure f rsp : respects R (record_failure f rsp).
Proof. intros s o s' H. inversion H; subst. apply R_append. Qed.

Lemma respects_if {A : Type} (c : bool) (m1 m2 : M A) :
  respects R m1 -> respects R m2 -> respects R (if c then m1 else m2).
Proof. destruct c; auto. Qed.

Lemma respects_for_range {L : Type} (body : nat -> L -> M (L * bool)) :
  (forall i l, respects R (body i l)) ->
  forall n i l, respects R (for_range body i n l).
Proof.
  intros Hb. induction n as [| n IH]; intros i l; simpl.
  - apply respects_ret.
  - apply respects_bind; [apply Hb |].
    intros r. apply respects_if; [apply respects_ret | apply IH].
Qed.

Lemma respects_make_request u b : allowed u -> respects R (make_request gw u b).
Proof.
  intros Hu s o s' H. unfold make_request in H.
  destruct (gw (trace s) u b) eqn:E; inversion H; subst; simpl.
  - eapply R_call_ok; eauto.
  - eapply R_call_fail; eauto.
Qed.

Hint Resolve respects_ret respects_getitem_int respects_getitem_key
  respects_dict_get respects_sleep respects_set_result
  respects_record_failure respects_make_request : respects.

Ltac walk :=
  repeat first
    [ apply respects_bind; [| intro]
    | apply respects_if
    | apply respects_raise; exact I
    | solve [auto with respects] ].

Lemma respects_get_user_game_list g :
  allowed FIND_ROLE_LIST_API_URL -> respects R (get_user_game_list gw g).
Proof. intros. unfold get_user_game_list. walk. Qed.

Lemma respects_first_get v k d : respects R (first_get v k d).
Proof. unfold first_get. walk. Qed.

Lemma respects_get_forum_list :
  allowed FIND_ROLE_LIST_API_URL -> allowed FORUM_LIST_URL ->
  respects R (get_forum_list gw).
Proof.
  intros. unfold get_forum_list.
  apply respects_bind; [apply respects_get_user_game_list; assumption |].
  intro. apply respects_bind; [apply respects_first_get |]. intro. walk.
Qed.

Lemma respects_get_post_detail rsp i :
  allowed GET_POST_DETAIL_URL -> respects R (get_post_detail gw rsp i).
Proof. intros. unfold get_post_detail. walk. Qed.

Lemma respects_post_detail_field rsp k : respects R (post_detail_field rsp k).
Proof. unfold post_detail_field. walk. Qed.

Lemma respects_like_post rsp op :
  allowed LIKE_URL -> respects R (like_post gw rsp op).
Proof.
  intros. unfold like_post.
  repeat (apply respects_bind;
          [first [apply respects_post_detail_field | walk] | intro]).
  walk.
Qed.

Lemma respects_share_post rsp :
  allowed SHARE_TASK_URL -> respects R (share_post gw rsp).
Proof. intros. unfold share_post. walk. Qed.

Lemma respects_checkin :
  allowed FIND_ROLE_LIST_API_URL -> allowed SIGN_URL ->
  respects R (checkin gw month).
Proof.
  intros. unfold checkin.
  apply respects_bind; [apply respects_get_user_game_list; assumption |].
  intro.
  repeat (apply respects_bind; [apply respects_first_get | intro]).
  walk.
Qed.

Lemma respects_sign_in : allowed USER_SIGN_URL -> respects R (sign_in gw).
Proof. intros. unfold sign_in. walk. Qed.

Lemma respects_retry_body K action i l :
  (forall j, respects R (action j)) -> respects R (retry_body K action i l).
Proof. intros Ha. unfold retry_body. apply respects_bind; [apply Ha |]. intro. walk. Qed.

Lemma respects_retry_loop N K action f :
  (forall j, respects R (action j)) -> respects R (retry_loop N K action f).
Proof.
  intros Ha. unfold retry_loop.
  apply respects_bind.
  - apply respects_for_range. intros. apply respects_retry_body, Ha.
  - intros r. apply respects_if; [walk |]. destruct (last_result (fst r)); walk.
Qed.

Lemma respects_like_body rsp i l :
  allowed LIKE_URL -> respects R (like_body gw rsp i l).
Proof.
  intros Hu. unfold like_body.
  apply respects_bind.
  - apply respects_if; [| walk].
    apply respects_bind; [apply respects_like_post, Hu | intro; walk].
  - intros l1. destruct (rsp_like_post l1); [| walk].
    apply respects_bind; [| intro; walk].
    apply respects_if; [| walk].
    apply respects_bind; [walk | intro].
    apply respects_bind; [apply respects_like_post, Hu | intro; walk].
Qed.

Lemma respects_like_loop rsp :
  allowed LIKE_URL -> respects R (like_loop gw rsp).
Proof.
  intros Hu. unfold like_loop.
  apply respects_bind.
  - apply respects_for_range. intros. apply respects_like_body, Hu.
  - intros r. apply respects_if; [walk |]. destruct (rsp_like_post (fst r)); walk.
Qed.

Hypothesis allowed_all : forall u, allowed u.

Lemma respects_forum_task : respects R (forum_task gw).
Proof.
  unfold forum_task.
  apply respects_bind; [apply respects_get_forum_list; apply allowed_all |].
  intros rsp. apply respects_if; [walk |].
  apply respects_bind; [walk | intro].
  apply respects_bind.
  { apply respects_retry_loop. intro. apply respects_get_post_detail, allowed_all. }
  intros r1. apply respects_if; [walk |].
  destruct (last_result (fst r1)) as [detail |]; [| walk].
  apply respects_bind; [walk | intro].
  apply respects_bind.
  { apply respects_retry_loop. intro. apply respects_share_post, allowed_all. }
  intros r2. apply respects_if; [walk |].
  apply respects_bind; [walk | intro].
  apply respects_bind; [apply respects_like_loop, allowed_all |].
  intros r3. apply respects_if; walk.
Qed.

Lemma respects_process_sign_action name action ok_text fail_text :
  respects R action ->
  respects R (_process_sign_action name action ok_text fail_text).
Proof.
  intros Ha. unfold _process_sign_action.
  apply respects_bind; [exact Ha | intro; walk].
Qed.

Lemma respects_checkin_stage : respects R (checkin_stage gw month).
Proof.
  apply respects_process_sign_action, respects_checkin; apply allowed_all.
Qed.

Lemma respects_sign_in_stage : respects R (sign_in_stage gw).
Proof.
  apply respects_process_sign_action, respects_sign_in; apply allowed_all.
Qed.

(** The three stages of [start], before [_log]. *)
Lemma respects_stages :
  respects R (checkin_stage gw month ;; sign_in_stage gw ;; forum_task gw).
Proof.
  apply respects_bind; [apply respects_checkin_stage | intro].
  apply respects_bind; [apply respects_sign_in_stage | intro].
  apply respects_forum_task.
Qed.

End Respects.

(** ** Stages talk to the gateway and nothing else *)

Lemma io_only_refl urls s x : io_only urls s x s.
Proof.
  repeat split. exists []. rewrite app_nil_r. split; [reflexivity | constructor].
Qed.

Lemma io_only_trans urls s s1 s2 x :
  io_only urls s None s1 -> io_only urls s1 x s2 -> io_only urls s x s2.
Proof.
  intros (Hr1 & He1 & ext1 & Ht1 & Hf1) (Hr2 & He2 & ext2 & Ht2 & Hf2).
  repeat split; try congruence.
  exists (ext1 ++ ext2)%list. split.
  - rewrite Ht2, Ht1, app_assoc. reflexivity.
  - apply Forall_app. split; assumption.
Qed.

Lemma io_only_event urls s x e :
  calls_only urls e -> io_only urls s x (emit e s).
Proof.
  intros He. repeat split. exists [e]. split; [reflexivity |].
  constructor; [exact He | constructor].
Qed.

Ltac io_side :=
  intros;
  first
    [ apply io_only_refl
    | eapply io_only_trans; eassumption
    | apply io_only_event; simpl; tauto
    | simpl; tauto ].

Lemma get_forum_list_io gw :
  respects (io_only [FIND_ROLE_LIST_API_URL; FORUM_LIST_URL]) (get_forum_list gw).
Proof.
  apply respects_get_forum_list
    with (allowed := fun u => In u [FIND_ROLE_LIST_API_URL; FORUM_LIST_URL]);
    io_side.
Qed.

Lemma checkin_io gw month :
  respects (io_only [FIND_ROLE_LIST_API_URL; SIGN_URL]) (checkin gw month).
Proof.
  apply respects_checkin
    with (allowed := fun u => In u [FIND_ROLE_LIST_API_URL; SIGN_URL]);
    io_side.
Qed.

Lemma sign_in_io gw : respects (io_only [USER_SIGN_URL]) (sign_in gw).
Proof.
  apply respects_sign_in with (allowed := fun u => In u [USER_SIGN_URL]);
    io_side.
Qed.

Lemma detail_loop_io gw K rsp i n l :
  respects (io_only [GET_POST_DETAIL_URL])
    (for_range (retry_body K (get_post_detail gw rsp)) i n l).
Proof.
  apply respects_for_range; [io_side | io_side |].
  intros. apply respects_retry_body; [io_side | io_side | io_side |].
  intros. apply respects_get_post_detail
    with (allowed := fun u => In u [GET_POST_DETAIL_URL]);
    io_side.
Qed.

Lemma share_loop_io gw K rsp i n l :
  respects (io_only [SHARE_TASK_URL])
    (for_range (retry_body K (fun _ => share_post gw rsp)) i n l).
Proof.
  apply respects_for_range; [io_side | io_side |].
  intros. apply respects_retry_body; [io_side | io_side | io_side |].
  intros. apply respects_share_post
    with (allowed := fun u => In u [SHARE_TASK_URL]);
    io_side.
Qed.

Lemma like_range_io gw rsp i n l :
  respects (io_only [LIKE_URL]) (for_range (like_body gw rsp) i n l).
Proof.
  apply respects_for_range; [io_side | io_side |].
  intros. apply respects_like_body with (allowed := fun u => In u [LIKE_URL]);
    io_side.
Qed.

(** ** The forum task, case by case *)

Lemma modify_inv f s a s' : modify f s = (Ret a, s') -> s' = f s.
Proof. unfold modify. intros H. inversion H. reflexivity. Qed.

Lemma record_failure_inv f rsp s a s' :
  record_failure f rsp s = (Ret a, s') ->
  s' = append_exception (f ++ ", " ++ Response.msg rsp) s.
Proof. unfold record_failure. apply modify_inv. Qed.

Lemma ret_inv {A : Type} (a b : A) s s' : ret a s = (Ret b, s') -> a = b /\ s' = s.
Proof. unfold ret. intros H. inversion H. split; reflexivity. Qed.

Ltac bind_step H a s E :=
  apply bind_ret_inv in H as [(a & s & E & H) | (?e & _ & ?He)];
  [| discriminate].

Lemma retry_loop_ret N K action f s l b s' :
  retry_loop N K action f s = (Ret (l, b), s') ->
  exists s1,
    for_range (retry_body K action) 0 N (mkRetry 0 None 0) s = (Ret (l, b), s1) /\
    ((b = true /\ s' = s1) \/
     (b = false /\ exists rsp, last_result l = Some rsp /\
        s' = append_exception (f ++ ", " ++ Response.msg rsp) s1)).
Proof.
  unfold retry_loop. intros H.
  bind_step H r s1 E. destruct r as [l1 b1]. simpl in H.
  destruct b1.
  - apply ret_inv in H as [H1 ->]. inversion H1; subst.
    exists s1. split; [exact E | left; split; reflexivity].
  - destruct (last_result l1) as [rsp |] eqn:El; [| discriminate].
    bind_step H u s2 E2. apply record_failure_inv in E2.
    apply ret_inv in H as [H1 ->]. inversion H1; subst.
    exists s1. split; [exact E | right; split; [reflexivity |]].
    exists rsp. split; [exact El | reflexivity].
Qed.

Lemma like_loop_ret gw detail s l b s' :
  like_loop gw detail s = (Ret (l, b), s') ->
  exists s1,
    for_range (like_body gw detail) 0 9 (mkLike true 0 None 0) s = (Ret (l, b), s1) /\
    ((b = true /\ s' = s1) \/
     (b = false /\ exists rsp, rsp_like_post l = Some rsp /\
        s' = append_exception ("点赞帖子失败" ++ ", " ++ Response.msg rsp) s1)).
Proof.
  unfold like_loop. intros H.
  bind_step H r s1 E. destruct r as [l1 b1]. simpl in H.
  destruct b1.
  - apply ret_inv in H as [H1 ->]. inversion H1; subst.
    exists s1. split; [exact E | left; split; reflexivity].
  - destruct (rsp_like_post l1) as [rsp |] eqn:El; [| discriminate].
    bind_step H u s2 E2. apply record_failure_inv in E2.
    apply ret_inv in H as [H1 ->]. inversion H1; subst.
    exists s1. split; [exact E | right; split; [reflexivity |]].
    exists rsp. split; [exact El | reflexivity].
Qed.

Lemma Forall_calls_only_incl urls urls' ext :
  incl urls urls' -> Forall (calls_only urls) ext -> Forall (calls_only urls') ext.
Proof.
  intros Hi. apply Forall_impl.
  intros [u b | lo hi | lv t | t]; simpl; auto.
Qed.

Ltac incl_urls :=
  let u := fresh "u" in
  intros u; unfold listing_urls, detail_urls, share_urls, forum_urls;
  simpl; tauto.

Lemma forum_task_cases gw s s' :
  forum_task gw s = (Ret tt, s') ->
  exists ext, trace s' = trace s ++ ext /\ forum_end gw s s' ext.
Proof.
  unfold forum_task. intros H.
  bind_step H rsp s1 E1.
  destruct (get_forum_list_io gw _ _ _ E1) as (Hr1 & He1 & ext1 & Ht1 & Hf1).
  destruct (truthy (Response.success rsp)) eqn:Tr; simpl in H.
  2: { apply record_failure_inv in H. subst s'. simpl.
       exists ext1. split; [exact Ht1 |].
       eapply listing_failed; [exact E1 | exact Tr | simpl .. | exact Hf1];
         congruence. }
  bind_step H u1 s2 E2. apply modify_inv in E2. subst s2.
  assert (Hal : after_listing gw s rsp
                  (set_result "get_forum_list" "获取帖子列表成功" s1)).
  { exists s1. repeat split; assumption. }
  bind_step H r1 s3 E3. destruct r1 as [l1 b1].
  apply retry_loop_ret in E3 as (s3' & E3 & Hb1).
  destruct (detail_loop_io gw _ _ _ _ _ _ _ _ E3) as (Hr3 & He3 & ext3 & Ht3 & Hf3).
  simpl in Hr3, He3, Ht3.
  assert (Hf13 : Forall (calls_only detail_urls) (ext1 ++ ext3)).
  { apply Forall_app. split; eapply Forall_calls_only_incl; eauto; incl_urls. }
  assert (Ht13 : trace s3' = (trace s ++ ext1 ++ ext3)%list).
  { rewrite Ht3, Ht1, app_assoc. reflexivity. }
  simpl in H.
  destruct Hb1 as [[-> ->] | (-> & rsp1 & El1 & ->)]; simpl in H.
  2: { apply ret_inv in H as [_ ->]. simpl.
       exists (ext1 ++ ext3)%list. split; [exact Ht13 |].
       eapply detail_failed; [exact Hal | exact E3 | exact El1 | simpl .. | exact Hf13];
         [rewrite He3, He1; reflexivity | rewrite Hr3, Hr1; reflexivity]. }
  destruct (last_result l1) as [detail |] eqn:El1; [| discriminate].
  bind_step H u2 s4 E4. apply modify_inv in E4. subst s4.
  assert (Had : after_details gw s detail
                  (set_result "get_post_detail" "获取帖子详情成功" s3')).
  { exists rsp, (set_result "get_forum_list" "获取帖子列表成功" s1), l1, s3'.
    repeat split; assumption. }
  bind_step H r2 s5 E5. destruct r2 as [l2 b2].
  apply retry_loop_ret in E5 as (s5' & E5 & Hb2).
  destruct (share_loop_io gw _ _ _ _ _ _ _ _ E5) as (Hr5 & He5 & ext5 & Ht5 & Hf5).
  simpl in Hr5, He5, Ht5.
  assert (Hf15 : Forall (calls_only share_urls) ((ext1 ++ ext3) ++ ext5)).
  { apply Forall_app. split; eapply Forall_calls_only_incl; eauto; incl_urls. }
  assert (Ht15 : trace s5' = (trace s ++ (ext1 ++ ext3) ++ ext5)%list).
  { rewrite Ht5, Ht13, !app_assoc. reflexivity. }
  simpl in H.
  destruct Hb2 as [[-> ->] | (-> & rsp2 & El2 & ->)]; simpl in H.
  2: { apply ret_inv in H as [_ ->]. simpl.
       exists ((ext1 ++ ext3) ++ ext5)%list. split; [exact Ht15 |].
       eapply share_failed; [exact Had | exact E5 | exact El2 | simpl .. | exact Hf15];
         [rewrite He5, He3, He1; reflexivity
         | rewrite Hr5, Hr3, Hr1; reflexivity]. }
  bind_step H u3 s6 E6. apply modify_inv in E6. subst s6.
  assert (Has : after_share gw s detail
                  (set_result "share_post" "分享帖子成功" s5')).
  { exists (set_result "get_post_detail" "获取帖子详情成功" s3'), l2, s5'.
    repeat split; assumption. }
  bind_step H r3 s7 E7. destruct r3 as [l3 b3].
  apply like_loop_ret in E7 as (s7' & E7 & Hb3).
  destruct (like_range_io gw _ _ _ _ _ _ _ E7) as (Hr7 & He7 & ext7 & Ht7 & Hf7).
  simpl in Hr7, He7, Ht7.
  assert (Hf17 : Forall (calls_only forum_urls) (((ext1 ++ ext3) ++ ext5) ++ ext7)).
  { apply Forall_app. split; eapply Forall_calls_only_incl; eauto; incl_urls. }
  assert (Ht17 : trace s7' = (trace s ++ ((ext1 ++ ext3) ++ ext5) ++ ext7)%list).
  { rewrite Ht7, Ht15, !app_assoc. reflexivity. }
  simpl in H.
  exists (((ext1 ++ ext3) ++ ext5) ++ ext7)%list.
  destruct Hb3 as [[-> ->] | (-> & rsp3 & El3 & ->)]; simpl in H.
  - apply modify_inv in H. subst s'. simpl. split; [exact Ht17 |].
    eapply forum_done; [exact Has | exact E7 | simpl ..];
      [rewrite He7, He5, He3, He1; reflexivity
      | unfold liked, shared, detailed, listed; rewrite Hr7, Hr5, Hr3, Hr1; reflexivity
      | exact Hf17].
  - apply ret_inv in H as [_ ->]. simpl. split; [exact Ht17 |].
    eapply like_failed; [exact Has | exact E7 | exact El3 | simpl .. | exact Hf17];
      [rewrite He7, He5, He3, He1; reflexivity
      | unfold shared, detailed, listed; rewrite Hr7, Hr5, Hr3, Hr1; reflexivity].
Qed.

(** Either the task recorded all its messages and no failure, or it recorded
    exactly one failure entry. *)
Lemma forum_end_entries gw s s' ext :
  forum_end gw s s' ext ->
  (exceptions s' = exceptions s /\ result s' = liked (result s) /\
   Forall (calls_only forum_urls) ext) \/
  (exists m, exceptions s' = exceptions s ++ [m]).
Proof.
  intros [rsp s1 _ _ He _ _ | rsp0 s1 l s2 rsp _ _ _ He _ _
         | d s1 l s2 rsp _ _ _ He _ _ | d s1 l s2 rsp _ _ _ He _ _
         | d s1 l s2 _ _ He Hr Hf];
    try (right; eexists; exact He).
  left. repeat split; assumption.
Qed.

(** ** Segments of a trace *)

Lemma segment_app gw t ext1 ext2 x :
  segment gw t ext1 None ->
  segment gw (t ++ ext1) ext2 x ->
  segment gw t (ext1 ++ ext2) x.
Proof.
  intros H1. remember None as y eqn:Ey. revert ext2 x.
  induction H1 as [t | t u b e Hg | t u b r ext y Hg H1 IH | t lo hi ext y H1 IH];
    intros ext2 x H2.
  - rewrite app_nil_r in H2. exact H2.
  - discriminate.
  - simpl. eapply segment_call; [exact Hg |].
    apply IH; [exact Ey |]. rewrite <- app_assoc. exact H2.
  - simpl. apply segment_sleep.
    apply IH; [exact Ey |]. rewrite <- app_assoc. exact H2.
Qed.

Lemma segment_quiet gw t ext x : segment gw t ext x -> notifications ext = [].
Proof. induction 1; simpl; auto. Qed.

(** When a call of a segment got a transport failure, it is the segment's
    last event, and the failure is the one the segment ends with. *)
Lemma segment_failed_call gw t ext x :
  segment gw t ext x ->
  forall tail pre u b post e,
    (ext ++ tail = pre ++ ECall u b :: post)%list ->
    Forall (fun ev => ~ is_call_event ev) tail ->
    gw (t ++ pre) u b = inr e ->
    x = Some e /\ ext = (pre ++ [ECall u b])%list /\ post = tail.
Proof.
  induction 1 as [t | t u0 b0 e0 Hg | t u0 b0 r ext y Hg H1 IH | t lo hi ext y H1 IH];
    intros tail pre u b post e Heq Htail Hfail.
  - simpl in Heq. exfalso.
    rewrite Heq in Htail. apply Forall_app in Htail as [_ Htail].
    inversion Htail as [| ? ? Hc _]. apply Hc. exact I.
  - destruct pre as [| ev pre]; simpl in Heq.
    + inversion Heq; subst. rewrite app_nil_r in Hfail.
      rewrite Hg in Hfail. inversion Hfail; subst. repeat split.
    + inversion Heq; subst. exfalso.
      apply Forall_app in Htail as [_ Htail].
      inversion Htail as [| ? ? Hc _]. apply Hc. exact I.
  - destruct pre as [| ev pre]; simpl in Heq.
    + inversion Heq; subst. rewrite app_nil_r in Hfail. congruence.
    + inversion Heq; subst.
      destruct (IH tail pre u b post e) as (Hx & Hext & Hpost); auto.
      { rewrite <- app_assoc. exact Hfail. }
      subst. repeat split.
  - destruct pre as [| ev pre]; simpl in Heq.
    + inversion Heq.
    + inversion Heq; subst.
      destruct (IH tail pre u b post e) as (Hx & Hext & Hpost); auto.
      { rewrite <- app_assoc. exact Hfail. }
      subst. repeat split.
Qed.

(** ** What the stages do to a state *)

Lemma stage_run_refl gw s : stage_run gw s None s.
Proof.
  split; [exists []; rewrite app_nil_r; reflexivity |].
  split; [discriminate |].
  exists []. rewrite app_nil_r. split; [reflexivity | constructor].
Qed.

Lemma stage_run_trans gw s s1 s2 x :
  stage_run gw s None s1 -> stage_run gw s1 x s2 -> stage_run gw s x s2.
Proof.
  intros ((l1 & He1) & _ & ext1 & Ht1 & Hs1) ((l2 & He2) & Hk & ext2 & Ht2 & Hs2).
  split; [exists (l1 ++ l2)%list; rewrite He2, He1, app_assoc; reflexivity |].
  split; [exact Hk |].
  exists (ext1 ++ ext2)%list. split.
  - rewrite Ht2, Ht1, app_assoc. reflexivity.
  - apply segment_app; [exact Hs1 |]. rewrite <- Ht1. exact Hs2.
Qed.

Lemma stage_run_internal gw s e : internal e -> stage_run gw s (Some e) s.
Proof.
  intros He.
  split; [exists []; rewrite app_nil_r; reflexivity |].
  split; [intros m Hm; inversion Hm; subst; exact He |].
  exists []. rewrite app_nil_r. split; [reflexivity |].
  destruct e; simpl in *; try contradiction; constructor.
Qed.

Lemma stage_run_call_ok gw s u b r :
  gw (trace s) u b = inl r -> stage_run gw s None (emit (ECall u b) s).
Proof.
  intros Hg.
  split; [exists []; simpl; rewrite app_nil_r; reflexivity |].
  split; [discriminate |].
  exists [ECall u b]. split; [reflexivity |].
  eapply segment_call; [exact Hg | constructor].
Qed.

Lemma stage_run_call_fail gw s u b e :
  gw (trace s) u b = inr e ->
  stage_run gw s (Some (Transport e)) (emit (ECall u b) s).
Proof.
  intros Hg.
  split; [exists []; simpl; rewrite app_nil_r; reflexivity |].
  split; [discriminate |].
  exists [ECall u b]. split; [reflexivity |].
  apply segment_fail. exact Hg.
Qed.

Lemma stage_run_sleep gw s : stage_run gw s None (emit (ESleep 1 2) s).
Proof.
  split; [exists []; simpl; rewrite app_nil_r; reflexivity |].
  split; [discriminate |].
  exists [ESleep 1 2]. split; [reflexivity |].
  apply segment_sleep. constructor.
Qed.

Lemma stage_run_set_result gw s k v : stage_run gw s None (set_result k v s).
Proof.
  split; [exists []; simpl; rewrite app_nil_r; reflexivity |].
  split; [discriminate |].
  exists []. simpl. rewrite app_nil_r. split; [reflexivity | constructor].
Qed.

Lemma stage_run_append gw s m : stage_run gw s None (append_exception m s).
Proof.
  split; [exists [m]; reflexivity |].
  split; [discriminate |].
  exists []. simpl. rewrite app_nil_r. split; [reflexivity | constructor].
Qed.

(** The three stages of [start], run one after the other. *)
Lemma stages_run gw month :
  respects (stage_run gw)
    (checkin_stage gw month ;; sign_in_stage gw ;; forum_task gw).
Proof.
  apply respects_stages with (allowed := fun _ => True).
  - apply stage_run_refl.
  - apply stage_run_trans.
  - apply stage_run_internal.
  - intros. eapply stage_run_call_ok; eassumption.
  - intros. apply stage_run_call_fail; assumption.
  - apply stage_run_sleep.
  - apply stage_run_set_result.
  - apply stage_run_append.
  - intros; exact I.
Qed.

(** ** [_log] and [start] *)

Lemma msg_truthy s : str_truthy (msg s) = true.
Proof.
  unfold msg. destruct (String.concat ", " (dict_values (result s))); reflexivity.
Qed.

Lemma _log_spec s : _log s = (aggregate s, emit (ELog INFO (msg s)) s).
Proof.
  unfold _log, aggregate. rewrite msg_truthy. simpl.
  destruct (exceptions s); reflexivity.
Qed.

Lemma start_stages gw month s :
  start gw month s = (stages gw month ;; _log) s.
Proof.
  unfold start, stages, bind.
  destruct (checkin_stage gw month s) as [[u1 | e1] s1]; [| reflexivity].
  destruct (sign_in_stage gw s1) as [[u2 | e2] s2]; [| reflexivity].
  destruct (forum_task gw s2) as [[u3 | e3] s3]; reflexivity.
Qed.

(** The two ways a run of [start] ends: a stage raised, and that exception
    leaves [start]; or the stages returned, and [_log] decides. *)
Lemma start_cases gw month s :
  match stages gw month s with
  | (Raise e, s1) =>
      start gw month s = (Raise e, s1) /\ stage_run gw s (Some e) s1
  | (Ret _, s1) =>
      start gw month s = (aggregate s1, emit (ELog INFO (msg s1)) s1) /\
      stage_run gw s None s1
  end.
Proof.
  pose proof (stages_run gw month s) as H. fold (stages gw month) in H.
  rewrite start_stages. unfold bind.
  destruct (stages gw month s) as [[u | e] s1] eqn:E.
  - split; [apply _log_spec | exact (H _ _ eq_refl)].
  - split; [reflexivity | exact (H _ _ eq_refl)].
Qed.

Lemma notifications_app t1 t2 :
  notifications (t1 ++ t2) = notifications t1 ++ notifications t2.
Proof. unfold notifications. apply flat_map_app. Qed.

Lemma aggregate_cases s :
  (exceptions s = [] /\ aggregate s = Ret tt) \/
  (exceptions s <> [] /\
   aggregate s = Raise (KurobbsClientException (String.concat "; " (exceptions s)))).
Proof.
  unfold aggregate. destruct (exceptions s).
  - left. split; reflexivity.
  - right. split; [discriminate | reflexivity].
Qed.

(** ** The summary and the notification *)

Lemma str_app_assoc (a b c : string) :
  ((a ++ b) ++ c)%string = (a ++ (b ++ c))%string.
Proof. induction a as [| x a IH]; simpl; [reflexivity | rewrite IH; reflexivity]. Qed.

Lemma dict_set_new k v d :
  lookup k d = None -> dict_set k v d = d ++ [(k, v)].
Proof.
  induction d as [| [k' v'] d IH]; simpl; intros H; [reflexivity |].
  destruct (String.eqb k k'); [discriminate |]. rewrite (IH H). reflexivity.
Qed.

Lemma concat_snoc sep (l : list string) x :
  l <> [] ->
  String.concat sep (l ++ [x]) = (String.concat sep l ++ sep ++ x)%string.
Proof.
  induction l as [| a l IH]; intros H; [contradiction |].
  destruct l as [| b l]; [reflexivity |].
  change (String.concat sep ((a :: b :: l) ++ [x]))
    with (a ++ sep ++ String.concat sep ((b :: l) ++ [x]))%string.
  rewrite IH by discriminate.
  change (String.concat sep (a :: b :: l))
    with (a ++ sep ++ String.concat sep (b :: l))%string.
  rewrite !str_app_assoc. reflexivity.
Qed.

(** C10. For every state of the result mapping, the empty one included, the
    [msg] property is the recorded success messages, in the order of the
    mapping, joined by [", "] with ["!"] appended: ["!"] alone for the empty
    mapping, the one message and ["!"] for a single entry, and the first
    message, [", "] and the text of the remaining entries otherwise; a
    message recorded under a new key goes last.  It is therefore never
    empty; so the guard [if kurobbs.msg] of [main] holds in every run, and
    whenever the client's run returns without raising, [main] sends the
    summary as its notification, its last event, and exits with status
    0. *)
Theorem msg_never_empty gw format_message month uid :
  (forall s,
     str_truthy (msg s) = true /\
     msg s <> ""%string /\
     msg s = (String.concat ", " (map snd (result s)) ++ "!")%string) /\
  (forall e t, msg (mkState [] e t) = "!"%string) /\
  (forall k v e t, msg (mkState [(k, v)] e t) = (v ++ "!")%string) /\
  (forall k v p r e t,
     msg (mkState ((k, v) :: p :: r) e t) =
       (v ++ ", " ++ msg (mkState (p :: r) e t))%string) /\
  (forall s k v,
     lookup k (result s) = None ->
     msg (set_result k v s) =
       match result s with
       | [] => (v ++ "!")%string
       | _ :: _ =>
           (String.concat ", " (map snd (result s)) ++ ", " ++ v ++ "!")%string
       end) /\
  msg (mkState [("sign_in", "社区签到成功"); ("get_forum_list", "获取帖子列表成功")]
         [] []) = "社区签到成功, 获取帖子列表成功!"%string /\
  msg (mkState all_six [] []) =
    "签到奖励签到成功, 社区签到成功, 获取帖子列表成功, 获取帖子详情成功, 分享帖子成功, 点赞帖子成功!"%string /\
  (forall s u s',
     client_run gw month uid s = (Ret u, s') ->
     main gw format_message month uid s = (0, send_notification (msg s') s') /\
     trace (snd (main gw format_message month uid s)) =
       trace s' ++ [ENotify (msg s')]).
Proof.
  split; [| split; [| split; [| split; [| split; [| split; [| split]]]]]].
  - intros s. split; [apply msg_truthy |]. split; [| reflexivity].
    intros H. pose proof (msg_truthy s) as Ht. rewrite H in Ht. discriminate.
  - reflexivity.
  - reflexivity.
  - intros k v [k' v'] r e t. unfold msg. cbn [result dict_values map snd].
    change (String.concat ", " (v :: v' :: map snd r))
      with (v ++ ", " ++ String.concat ", " (v' :: map snd r))%string.
    rewrite !str_app_assoc. reflexivity.
  - intros s k v H. unfold msg, set_result, dict_values. cbn [result].
    rewrite (dict_set_new _ _ _ H), map_app. cbn [map snd].
    destruct (result s) as [| p r] eqn:E; [reflexivity |].
    rewrite concat_snoc by discriminate.
    rewrite !str_app_assoc. reflexivity.
  - reflexivity.
  - reflexivity.
  - intros s u s' H. unfold main. fold (client_run gw month uid).
    rewrite H, msg_truthy. split; reflexivity.
Qed.

(** C3, as the code has it.  [_log] is the only place that raises the
    aggregate failure, it is the last step of [start], and it raises exactly
    when the failure list is not empty, with the recorded messages joined by
    ["; "] in order.  The failure list only grows at its end.  In a run whose
    stages all return, [start] therefore raises the aggregate if and only if
    the list is not empty; when a stage raises an unexpected error, that
    error leaves [start] instead and [_log] is not reached. *)
Theorem aggregate_failure_at_end gw month s :
  (forall s0,
     _log s0 = (aggregate s0, emit (ELog INFO (msg s0)) s0) /\
     ((exists m, aggregate s0 = Raise (KurobbsClientException m)) <->
      exceptions s0 <> [])) /\
  (exists l, exceptions (snd (start gw month s)) = exceptions s ++ l) /\
  match stages gw month s with
  | (Ret _, s1) =>
      exceptions (snd (start gw month s)) = exceptions s1 /\
      ((exceptions s1 = [] /\ fst (start gw month s) = Ret tt) \/
       (exceptions s1 <> [] /\
        fst (start gw month s) =
          Raise (KurobbsClientException (String.concat "; " (exceptions s1)))))
  | (Raise e, s1) =>
      start gw month s = (Raise e, s1) /\
      forall m, e <> KurobbsClientException m
  end.
Proof.
  split; [| split].
  - intros s0. split; [apply _log_spec |].
    destruct (aggregate_cases s0) as [[He Ha] | [He Ha]]; rewrite Ha; split.
    + intros [m Hm]. discriminate.
    + intros Hn. contradiction.
    + intros _. exact He.
    + intros _. eexists. reflexivity.
  - pose proof (start_cases gw month s) as H.
    destruct (stages gw month s) as [[u | e] s1];
      destruct H as [-> ((l & Hl) & _)]; exists l; exact Hl.
  - pose proof (start_cases gw month s) as H.
    destruct (stages gw month s) as [[u | e] s1]; destruct H as [-> Hr].
    + split; [reflexivity |]. simpl. apply aggregate_cases.
    + split; [reflexivity |].
      destruct Hr as (_ & Hk & _). intros m Hm. apply (Hk m). congruence.
Qed.

(** C3 as stated fails: the check-in reply reports failure (so the failure
    list is not empty) and the sign-in call then gets no answer; [start]
    raises the transport failure, not the aggregate. *)
Lemma aggregate_not_raised_after_crash :
  exceptions (snd (start Sim.checkin_fails_then_down 7 Sim.fresh)) =
    ["签到奖励签到失败, checkin reply"%string] /\
  fst (start Sim.checkin_fails_then_down 7 Sim.fresh) =
    Raise (Transport Unreachable).
Proof. split; vm_compute; reflexivity. Qed.

(** ** One notification, or none *)

Lemma init_cases uid s :
  exists pre,
    notifications pre = [] /\
    match uid with
    | Some _ => __init__ uid s = (Ret tt, mkState [] [] (trace s ++ pre))
    | None => __init__ uid s = (Raise TypeError, mkState [] [] (trace s ++ pre))
    end.
Proof.
  destruct uid as [[| c u] |].
  - exists [ELog WARNING "生成固定字符串输入为空, 使用默认值 1"]. split; reflexivity.
  - exists []. split; [reflexivity |]. unfold __init__. rewrite app_nil_r. reflexivity.
  - exists [ELog WARNING "生成固定字符串输入为空, 使用默认值 1"]. split; reflexivity.
Qed.

Lemma stage_run_quiet gw s x s' :
  stage_run gw s x s' ->
  exists ext, trace s' = trace s ++ ext /\ notifications ext = [].
Proof.
  intros (_ & _ & ext & Ht & Hs). exists ext. split; [exact Ht |].
  eapply segment_quiet, Hs.
Qed.




(** ** A forum task that raises has recorded no failure *)

Lemma retry_loop_raise urls N K action f s e s' :
  respects (io_only urls) (for_range (retry_body K action) 0 N (mkRetry 0 None 0)) ->
  retry_loop N K action f s = (Raise e, s') ->
  exceptions s' = exceptions s.
Proof.
  intros Hio H. unfold retry_loop in H.
  apply bind_ret_inv in H as [(r & s1 & E & H) | (e0 & E & _)].
  - destruct (Hio _ _ _ E) as (_ & He & _).
    destruct (snd r); [discriminate |].
    destruct (last_result (fst r)).
    + apply bind_ret_inv in H as [(u & s2 & E2 & H) | (e1 & E2 & _)];
        discriminate.
    + inversion H; subst. exact He.
  - destruct (Hio _ _ _ E) as (_ & He & _). exact He.
Qed.

Lemma like_loop_raise gw detail s e s' :
  like_loop gw detail s = (Raise e, s') -> exceptions s' = exceptions s.
Proof.
  intros H. unfold like_loop in H.
  apply bind_ret_inv in H as [(r & s1 & E & H) | (e0 & E & _)].
  - destruct (like_range_io gw _ _ _ _ _ _ _ E) as (_ & He & _).
    destruct (snd r); [discriminate |].
    destruct (rsp_like_post (fst r)).
    + apply bind_ret_inv in H as [(u & s2 & E2 & H) | (e1 & E2 & _)];
        discriminate.
    + inversion H; subst. exact He.
  - destruct (like_range_io gw _ _ _ _ _ _ _ E) as (_ & He & _). exact He.
Qed.

Lemma forum_task_raise gw s e s' :
  forum_task gw s = (Raise e, s') -> exceptions s' = exceptions s.
Proof.
  unfold forum_task. intros H.
  apply bind_ret_inv in H as [(rsp & s1 & E1 & H) | (e0 & E1 & _)].
  2: { destruct (get_forum_list_io gw _ _ _ E1) as (_ & He & _). exact He. }
  destruct (get_forum_list_io gw _ _ _ E1) as (_ & He1 & _).
  destruct (truthy (Response.success rsp)); simpl in H; [| discriminate].
  apply bind_ret_inv in H as [(u1 & s2 & E2 & H) | (e0 & E2 & _)];
    [| discriminate].
  apply modify_inv in E2. subst s2.
  apply bind_ret_inv in H as [(r1 & s3 & E3 & H) | (e0 & E3 & _)].
  2: { apply retry_loop_raise with (urls := [GET_POST_DETAIL_URL]) in E3;
         [simpl in E3; congruence | apply detail_loop_io]. }
  destruct r1 as [l1 b1]. apply retry_loop_ret in E3 as (s3' & E3 & Hb1).
  destruct (detail_loop_io gw _ _ _ _ _ _ _ _ E3) as (_ & He3 & _).
  simpl in He3, H.
  destruct Hb1 as [[-> ->] | (-> & _)]; simpl in H; [| discriminate].
  destruct (last_result l1) as [detail |].
  2: { inversion H; subst. congruence. }
  apply bind_ret_inv in H as [(u2 & s4 & E4 & H) | (e0 & E4 & _)];
    [| discriminate].
  apply modify_inv in E4. subst s4.
  apply bind_ret_inv in H as [(r2 & s5 & E5 & H) | (e0 & E5 & _)].
  2: { apply retry_loop_raise with (urls := [SHARE_TASK_URL]) in E5;
         [simpl in E5; congruence | apply share_loop_io]. }
  destruct r2 as [l2 b2]. apply retry_loop_ret in E5 as (s5' & E5 & Hb2).
  destruct (share_loop_io gw _ _ _ _ _ _ _ _ E5) as (_ & He5 & _).
  simpl in He5, H.
  destruct Hb2 as [[-> ->] | (-> & _)]; simpl in H; [| discriminate].
  apply bind_ret_inv in H as [(u3 & s6 & E6 & H) | (e0 & E6 & _)];
    [| discriminate].
  apply modify_inv in E6. subst s6.
  apply bind_ret_inv in H as [(r3 & s7 & E7 & H) | (e0 & E7 & _)].
  2: { apply like_loop_raise in E7. simpl in E7. congruence. }
  destruct (snd r3); discriminate.
Qed.

Lemma process_sign_action_raise_inv urls name (action : M Response.t)
  ok_text fail_text s e s' :
  respects (io_only urls) action ->
  _process_sign_action name action ok_text fail_text s = (Raise e, s') ->
  exceptions s' = exceptions s.
Proof.
  intros Hio H. unfold _process_sign_action in H.
  apply bind_ret_inv in H as [(r & s1 & E & H) | (e0 & E & _)].
  - destruct (truthy (Response.success r)); discriminate.
  - destruct (Hio _ _ _ E) as (_ & He & _). exact He.
Qed.

(** ** Transport failures *)

Lemma make_request_fail gw s u b e :
  gw (trace s) u b = inr e ->
  make_request gw u b s = (Raise (Transport e), emit (ECall u b) s).
Proof. intros H. unfold make_request. rewrite H. reflexivity. Qed.

Lemma process_sign_action_raise name (action : M Response.t) ok_text fail_text s e s1 :
  action s = (Raise e, s1) ->
  _process_sign_action name action ok_text fail_text s = (Raise e, s1).
Proof. intros H. unfold _process_sign_action, bind. rewrite H. reflexivity. Qed.

(** C4, as the code has it.  A transport failure is not swallowed: the
    gateway call raises it; a stage whose call raised lets the exception
    through and has recorded no failure entry for it; and in a run of
    [start] a call that got a transport failure is the last event of the
    run: no retry, no sleep and no later stage follows, [_log] is not
    reached, and [start] raises that very failure.  So the failure does
    leave its stage, and is not turned into a failure entry. *)
Theorem transport_failure_propagates gw month :
  (forall s u b e,
     gw (trace s) u b = inr e ->
     make_request gw u b s = (Raise (Transport e), emit (ECall u b) s)) /\
  (forall name (action : M Response.t) ok_text fail_text s e s1,
     action s = (Raise (Transport e), s1) ->
     _process_sign_action name action ok_text fail_text s =
       (Raise (Transport e), s1)) /\
  (forall s e s',
     checkin_stage gw month s = (Raise (Transport e), s') \/
     sign_in_stage gw s = (Raise (Transport e), s') \/
     forum_task gw s = (Raise (Transport e), s') ->
     exceptions s' = exceptions s) /\
  (forall s pre u b post e,
     trace (snd (start gw month s)) = trace s ++ pre ++ ECall u b :: post ->
     gw (trace s ++ pre) u b = inr e ->
     fst (start gw month s) = Raise (Transport e) /\ post = []).
Proof.
  split; [| split; [| split]].
  - intros. apply make_request_fail. assumption.
  - intros. apply process_sign_action_raise. assumption.
  - intros s e s' [H | [H | H]].
    + eapply process_sign_action_raise_inv; [apply checkin_io | exact H].
    + eapply process_sign_action_raise_inv; [apply sign_in_io | exact H].
    + eapply forum_task_raise. exact H.
  - intros s pre u b post e Ht Hg.
    pose proof (start_cases gw month s) as H.
    destruct (stages gw month s) as [[v | x] s1]; destruct H as [Hs Hr];
      rewrite Hs in *; simpl in Ht |- *;
      destruct Hr as (_ & Hk & ext & Ht1 & Hseg).
    + exfalso. rewrite Ht1, <- app_assoc in Ht. apply app_inv_head in Ht.
      destruct (segment_failed_call _ _ _ _ Hseg _ _ _ _ _ e Ht) as (Hx & _);
        [repeat constructor; simpl; tauto | exact Hg | discriminate].
    + rewrite Ht1 in Ht. apply app_inv_head in Ht.
      rewrite <- (app_nil_r ext) in Ht.
      destruct (segment_failed_call _ _ _ _ Hseg _ _ _ _ _ e Ht) as (Hx & _ & Hp);
        [constructor | exact Hg |].
      split; [| exact Hp].
      destruct x as [m | e' | | | | |]; simpl in Hx; try discriminate.
      congruence.
Qed.

(** C4 as stated fails: with the gateway out of reach, the check-in stage
    does not absorb the failure: it raises it, and records no failure
    entry. *)
Lemma checkin_stage_raises_transport_failure :
  fst (checkin_stage Sim.unreachable 7 Sim.fresh) = Raise (Transport Unreachable) /\
  exceptions (snd (checkin_stage Sim.unreachable 7 Sim.fresh)) = [] /\
  fst (start Sim.unreachable 7 Sim.fresh) = Raise (Transport Unreachable).
Proof. repeat split; vm_compute; reflexivity. Qed.

(** ** The forum task's sub-steps depend on one another *)

Lemma one_more_is_not_same {A : Type} (l : list A) (x : A) : l ++ [x] <> l.
Proof.
  intros H. apply (f_equal (@length A)) in H.
  rewrite length_app in H. simpl in H. lia.
Qed.




(** ** The three stages are independent *)

Lemma make_request_ret gw u b s r s' :
  make_request gw u b s = (Ret r, s') ->
  gw (trace s) u b = inl r /\ s' = emit (ECall u b) s.
Proof.
  unfold make_request. destruct (gw (trace s) u b); intros H; inversion H.
  split; reflexivity.
Qed.

Lemma lift_ret {A : Type} (o : outcome A) s a s' :
  lift o s = (Ret a, s') -> o = Ret a /\ s' = s.
Proof. unfold lift. intros H. inversion H. split; reflexivity. Qed.

Lemma first_get_ret v k d s x s' : first_get v k d s = (Ret x, s') -> s' = s.
Proof.
  unfold first_get. intros H.
  bind_step H f s1 E. apply lift_ret in E as [_ ->].
  apply lift_ret in H as [_ ->]. reflexivity.
Qed.

Lemma get_user_game_list_ret gw g s v s' :
  get_user_game_list gw g s = (Ret v, s') ->
  s' = emit (ECall FIND_ROLE_LIST_API_URL [("gameId"%string, JInt g)]) s.
Proof.
  unfold get_user_game_list. intros H.
  bind_step H r s1 E. apply make_request_ret in E as [_ ->].
  apply ret_inv in H as [_ ->]. reflexivity.
Qed.

Lemma checkin_ret gw month s r s' :
  checkin gw month s = (Ret r, s') ->
  exists b,
    s' = emit (ECall SIGN_URL b)
           (emit (ECall FIND_ROLE_LIST_API_URL [("gameId"%string, JInt 3)]) s).
Proof.
  unfold checkin. intros H.
  bind_step H v s1 E. apply get_user_game_list_ret in E. subst s1.
  bind_step H x1 s1 E. apply first_get_ret in E. subst s1.
  bind_step H x2 s1 E. apply first_get_ret in E. subst s1.
  bind_step H x3 s1 E. apply first_get_ret in E. subst s1.
  bind_step H x4 s1 E. apply first_get_ret in E. subst s1.
  apply make_request_ret in H as [_ ->]. eexists. reflexivity.
Qed.

Lemma sign_in_ret gw s r s' :
  sign_in gw s = (Ret r, s') ->
  s' = emit (ECall USER_SIGN_URL [("gameId"%string, JInt 2)]) s.
Proof. unfold sign_in. intros H. apply make_request_ret in H as [_ ->]. reflexivity. Qed.

Lemma process_sign_action_ret name (action : M Response.t) ok_text fail_text s r s1 :
  action s = (Ret r, s1) ->
  _process_sign_action name action ok_text fail_text s =
    (Ret tt, record_stage name ok_text fail_text r s1).
Proof.
  intros H. unfold _process_sign_action, bind, record_stage. rewrite H.
  destruct (truthy (Response.success r)); reflexivity.
Qed.

Lemma record_stage_trace name ok_text fail_text r s :
  trace (record_stage name ok_text fail_text r s) = trace s.
Proof. unfold record_stage. destruct (truthy (Response.success r)); reflexivity. Qed.

(** C1, as the code has it.  When the check-in and the sign-in return,
    whatever their replies report, [start] issues the check-in requests,
    then the sign-in request, then runs the
    forum task and [_log] on the state in which both replies were recorded:
    a reply that reports failure only adds a failure entry.  In particular,
    on a fresh client, when the check-in reply reports failure, the sign-in
    reply reports success and the forum task returns without a failure of
    its own, the summary holds the sign-in message and the four forum
    messages, every forum event comes after the three stage requests, and
    [start] raises the aggregate failure whose text is the check-in failure
    alone. *)
Theorem stages_independent gw month s r1 s1 r2 s2 :
  checkin gw month s = (Ret r1, s1) ->
  sign_in gw (record_stage "checkin" "签到奖励签到成功" "签到奖励签到失败" r1 s1)
    = (Ret r2, s2) ->
  (exists b,
     trace (record_stage "sign_in" "社区签到成功" "社区签到失败" r2 s2) =
       trace s ++
       [ECall FIND_ROLE_LIST_API_URL [("gameId"%string, JInt 3)];
        ECall SIGN_URL b;
        ECall USER_SIGN_URL [("gameId"%string, JInt 2)]]) /\
  start gw month s =
    (forum_task gw ;; _log)
      (record_stage "sign_in" "社区签到成功" "社区签到失败" r2 s2) /\
  (truthy (Response.success r1) = false ->
   truthy (Response.success r2) = true ->
   result s = [] -> exceptions s = [] ->
   forall s3,
     forum_task gw (record_stage "sign_in" "社区签到成功" "社区签到失败" r2 s2)
       = (Ret tt, s3) ->
     exceptions s3 =
       exceptions (record_stage "sign_in" "社区签到成功" "社区签到失败" r2 s2) ->
     msg s3 =
       "社区签到成功, 获取帖子列表成功, 获取帖子详情成功, 分享帖子成功, 点赞帖子成功!"%string /\
     (exists b ext,
        trace s3 =
          trace s ++
          [ECall FIND_ROLE_LIST_API_URL [("gameId"%string, JInt 3)];
           ECall SIGN_URL b;
           ECall USER_SIGN_URL [("gameId"%string, JInt 2)]] ++ ext /\
        Forall (calls_only forum_urls) ext) /\
     start gw month s =
       (Raise (KurobbsClientException
                 ("签到奖励签到失败" ++ ", " ++ Response.msg r1)),
        emit (ELog INFO (msg s3)) s3)).
Proof.
  intros H1 H2.
  assert (Hstart : start gw month s =
    (forum_task gw ;; _log)
      (record_stage "sign_in" "社区签到成功" "社区签到失败" r2 s2)).
  { unfold start, checkin_stage, sign_in_stage. unfold bind at 1.
    rewrite (process_sign_action_ret _ _ _ _ _ _ _ H1). unfold bind at 1.
    rewrite (process_sign_action_ret _ _ _ _ _ _ _ H2). reflexivity. }
  assert (Htrace : exists b,
     trace (record_stage "sign_in" "社区签到成功" "社区签到失败" r2 s2) =
       trace s ++
       [ECall FIND_ROLE_LIST_API_URL [("gameId"%string, JInt 3)];
        ECall SIGN_URL b;
        ECall USER_SIGN_URL [("gameId"%string, JInt 2)]]).
  { destruct (checkin_ret _ _ _ _ _ H1) as (b & ->).
    apply sign_in_ret in H2. subst s2. exists b.
    rewrite record_stage_trace. simpl. rewrite record_stage_trace. simpl.
    rewrite <- !app_assoc. reflexivity. }
  split; [exact Htrace |]. split; [exact Hstart |].
  intros F1 T2 Hres Hexc s3 H3 Hsame.
  pose proof (checkin_io gw month _ _ _ H1) as (Hr1 & He1 & _).
  pose proof (sign_in_io gw _ _ _ H2) as (Hr2 & He2 & _).
  unfold record_stage in *. rewrite F1 in *. rewrite T2 in *.
  simpl in Hr2, He2, Hsame, H3, Htrace.
  rewrite Hr1, Hres in Hr2. rewrite He1, Hexc in He2. simpl in He2.
  destruct (forum_task_cases _ _ _ H3) as (ext & Ht & Hend). simpl in Ht.
  assert (Hdone : result s3 = liked [("sign_in", "社区签到成功")%string] /\
                  Forall (calls_only forum_urls) ext).
  { destruct (forum_end_entries _ _ _ _ Hend) as [(He & Hr & Hf) | (m & He)].
    - simpl in Hr. rewrite Hr2 in Hr. split; [exact Hr | exact Hf].
    - exfalso. rewrite He in Hsame. simpl in Hsame.
      exact (one_more_is_not_same _ _ Hsame). }
  destruct Hdone as [Hr3 Hf3].
  assert (Hmsg : msg s3 =
    "社区签到成功, 获取帖子列表成功, 获取帖子详情成功, 分享帖子成功, 点赞帖子成功!"%string).
  { unfold msg. rewrite Hr3. reflexivity. }
  split; [exact Hmsg |]. split.
  - destruct Htrace as (b & Hb). exists b, ext. split; [| exact Hf3].
    rewrite Ht, Hb, <- app_assoc. reflexivity.
  - rewrite Hstart. unfold bind. rewrite H3, _log_spec. f_equal.
    unfold aggregate. rewrite Hsame. simpl. rewrite He2. reflexivity.
Qed.

(** The check-in reply reports failure, every other reply reports success:
    the run raises the check-in failure alone and the summary holds the
    five other messages. *)
Lemma stages_independent_witness :
  msg (snd (stages (Sim.gateway Sim.checkin_fails) 7 Sim.fresh)) =
    "社区签到成功, 获取帖子列表成功, 获取帖子详情成功, 分享帖子成功, 点赞帖子成功!"%string /\
  fst (start (Sim.gateway Sim.checkin_fails) 7 Sim.fresh) =
    Raise (KurobbsClientException "签到奖励签到失败, checkin reply").
Proof.
  pose (gw := Sim.gateway Sim.checkin_fails).
  pose (r1 := Sim.reply false "checkin reply" JNull).
  pose (s1 := snd (checkin gw 7 Sim.fresh)).
  pose (r2 := Sim.reply true "sign_in reply" JNull).
  pose (s2 := snd (sign_in gw
     (record_stage "checkin" "签到奖励签到成功" "签到奖励签到失败" r1 s1))).
  pose (s3 := snd (forum_task gw
     (record_stage "sign_in" "社区签到成功" "社区签到失败" r2 s2))).
  assert (H1 : checkin gw 7 Sim.fresh = (Ret r1, s1)) by (vm_compute; reflexivity).
  assert (H2 : sign_in gw
     (record_stage "checkin" "签到奖励签到成功" "签到奖励签到失败" r1 s1)
     = (Ret r2, s2)) by (vm_compute; reflexivity).
  destruct (stages_independent gw 7 Sim.fresh r1 s1 r2 s2 H1 H2) as (_ & _ & H).
  destruct (H eq_refl eq_refl eq_refl eq_refl s3) as (Hm & _ & Hs).
  - vm_compute. reflexivity.
  - vm_compute. reflexivity.
  - split.
    + rewrite <- Hm. vm_compute. reflexivity.
    + fold gw. rewrite Hs. reflexivity.
Defined.

(** C1 as stated fails.  The role reply carries no data: the check-in
    raises [TypeError] after its first request and [start] ends there; the
    sign-in and the forum task are not executed, one request was made and
    nothing was recorded.  Likewise when the gateway cannot be reached: the
    check-in's first call raises and no later stage runs. *)
Lemma start_stops_when_checkin_raises :
  fst (start gateway_without_roles 7 Sim.fresh) = Raise TypeError /\
  trace (snd (start gateway_without_roles 7 Sim.fresh)) =
    [ECall FIND_ROLE_LIST_API_URL [("gameId"%string, JInt 3)]] /\
  Sim.count (Sim.is_call USER_SIGN_URL)
    (trace (snd (start gateway_without_roles 7 Sim.fresh))) = 0 /\
  Sim.count (Sim.is_call FORUM_LIST_URL)
    (trace (snd (start gateway_without_roles 7 Sim.fresh))) = 0 /\
  result (snd (start gateway_without_roles 7 Sim.fresh)) = [] /\
  exceptions (snd (start gateway_without_roles 7 Sim.fresh)) = [] /\
  fst (start Sim.unreachable 7 Sim.fresh) = Raise (Transport Unreachable) /\
  trace (snd (start Sim.unreachable 7 Sim.fresh)) =
    [ECall FIND_ROLE_LIST_API_URL [("gameId"%string, JInt 3)]].
Proof. repeat split; vm_compute; reflexivity. Qed.

(** ** The counting loops *)

Lemma count_sleeps_app t1 t2 :
  count_sleeps (t1 ++ t2) = count_sleeps t1 + count_sleeps t2.
Proof. unfold count_sleeps. rewrite filter_app, length_app. reflexivity. Qed.

Section RetryLoop.

Variables (N K : nat) (action : nat -> M Response.t) (outs : nat -> Response.t).
Hypothesis K_pos : 1 <= K.
Hypothesis Hact : scripted N action outs.

Lemma retry_range n : forall i l s,
  i + n = N ->
  attempts_used l = i ->
  successes l = count_ok outs i ->
  (forall j, j <= i -> count_ok outs j < K) ->
  (0 < i -> last_result l = Some (outs (i - 1))) ->
  (0 < i -> exists t, trace s = t ++ [ESleep 1 2]) ->
  exists l' b s',
    for_range (retry_body K action) i n l s = (Ret (l', b), s') /\
    result s' = result s /\ exceptions s' = exceptions s /\
    count_sleeps (trace s') = count_sleeps (trace s) + (attempts_used l' - i) /\
    i <= attempts_used l' <= i + n /\
    successes l' = count_ok outs (attempts_used l') /\
    (0 < attempts_used l' -> last_result l' = Some (outs (attempts_used l' - 1))) /\
    (0 < attempts_used l' -> exists t, trace s' = t ++ [ESleep 1 2]) /\
    (forall j, j < attempts_used l' -> count_ok outs j < K) /\
    (b = true -> successes l' = K) /\
    (b = false -> attempts_used l' = i + n /\ successes l' < K).
Proof.
  induction n as [| n IH]; intros i l s Hn Ha Hs Hlt Hlast Hzz.
  - exists l, false, s. simpl. unfold ret. rewrite Ha.
    repeat split; try lia; auto.
    + intros j Hj. apply Hlt. lia.
    + rewrite Hs. apply Hlt. lia.
  - destruct (Hact i s) as (s1 & E1 & Hr1 & He1 & ext & Ht1 & Hq1); [lia |].
    simpl. unfold bind at 1. unfold retry_body at 1. unfold bind at 1.
    rewrite E1. unfold sleep, modify, bind, ret. simpl.
    set (c := if truthy (Response.success (outs i))
              then S (successes l) else successes l).
    assert (Hc : c = count_ok outs (S i)).
    { unfold c. simpl. rewrite Hs.
      destruct (truthy (Response.success (outs i))); lia. }
    pose proof (Hlt i (le_n i)) as Hi.
    assert (Hstep : c <= S (count_ok outs i)).
    { rewrite Hc. simpl. destruct (truthy (Response.success (outs i))); lia. }
    clearbody c.
    assert (Hsl1 : count_sleeps (trace (emit (ESleep 1 2) s1)) =
                   S (count_sleeps (trace s))).
    { cbn [trace emit]. rewrite Ht1, !count_sleeps_app, Hq1.
      change (count_sleeps [ESleep 1 2]) with 1. lia. }
    destruct (Nat.leb K c) eqn:Ek.
    + apply Nat.leb_le in Ek.
      exists (mkRetry c (Some (outs i)) (S (attempts_used l))), true,
        (emit (ESleep 1 2) s1).
      split; [reflexivity |].
      cbn [attempts_used successes last_result]. rewrite Ha.
      split; [exact Hr1 |]. split; [exact He1 |].
      split; [rewrite Hsl1; lia |].
      split; [lia |]. split; [exact Hc |].
      split; [intros _; replace (S i - 1) with i by lia; reflexivity |].
      split; [intros _; eexists; reflexivity |].
      split; [intros j Hj; apply Hlt; lia |].
      split; [intros _; lia | discriminate].
    + apply Nat.leb_gt in Ek.
      destruct (IH (S i) (mkRetry c (Some (outs i)) (S (attempts_used l)))
                  (emit (ESleep 1 2) s1))
        as (l' & b & s' & E & Hr & He & Hsl & Hrange & Hsucc & Hl & Hz & Hall & Hb1 & Hb0).
      * lia.
      * cbn [attempts_used]. rewrite Ha. reflexivity.
      * exact Hc.
      * intros j Hj. destruct (Nat.eq_dec j (S i)) as [-> | Hne].
        -- rewrite <- Hc. exact Ek.
        -- apply Hlt. lia.
      * intros _. cbn [last_result]. replace (S i - 1) with i by lia. reflexivity.
      * intros _. eexists. reflexivity.
      * exists l', b, s'. split; [exact E |].
        split; [rewrite Hr; exact Hr1 |]. split; [rewrite He; exact He1 |].
        split; [rewrite Hsl, Hsl1; lia |].
        split; [lia |]. split; [exact Hsucc |]. split; [exact Hl |].
        split; [exact Hz |]. split; [exact Hall |]. split; [exact Hb1 |].
        intros Hb. destruct (Hb0 Hb). split; lia.
Qed.

End RetryLoop.

Lemma count_ok_pos outs n : 0 < count_ok outs n -> 0 < n.
Proof. destruct n; simpl; lia. Qed.

(** C6, as the code has it.  A counting loop with [N >= 1] allowed attempts
    and [K >= 1] required successes, run on an action whose reply at attempt
    [i] is [outs i], makes between 1 and [N] attempts, counts exactly the
    attempts whose reply reports success, and stops at the first attempt at
    which the count reaches [K].  It sleeps after every attempt, the one
    that reaches the threshold included: the sleep comes before the test.
    When the [N] attempts are used up with fewer than [K] successes, it
    records one failure entry made of the failure text and the message of
    the last reply. *)
Theorem retry_loop_policy N K action outs failure_message s :
  1 <= K -> 1 <= N -> scripted N action outs ->
  exists l b s',
    retry_loop N K action failure_message s = (Ret (l, b), s') /\
    1 <= attempts_used l <= N /\
    successes l = count_ok outs (attempts_used l) /\
    (forall j, j < attempts_used l -> count_ok outs j < K) /\
    last_result l = Some (outs (attempts_used l - 1)) /\
    count_sleeps (trace s') = count_sleeps (trace s) + attempts_used l /\
    (exists t, trace s' = t ++ [ESleep 1 2]) /\
    result s' = result s /\
    (b = true -> successes l = K /\ exceptions s' = exceptions s) /\
    (b = false ->
       attempts_used l = N /\ successes l < K /\
       exceptions s' =
         exceptions s ++
         [(failure_message ++ ", " ++ Response.msg (outs (N - 1)))%string]).
Proof.
  intros HK HN Hact.
  destruct (retry_range N K action outs HK Hact N 0 (mkRetry 0 None 0) s)
    as (l & b & s1 & E & Hr & He & Hsl & Hrange & Hsucc & Hl & Hz & Hall & Hb1 & Hb0);
    try reflexivity; try (intros; lia).
  { intros j Hj. replace j with 0 by lia. simpl. lia. }
  assert (Hpos : 1 <= attempts_used l).
  { destruct b.
    - specialize (Hb1 eq_refl). apply (count_ok_pos outs). lia.
    - destruct (Hb0 eq_refl). lia. }
  specialize (Hl Hpos). specialize (Hz Hpos).
  unfold retry_loop, bind. rewrite E. cbn [fst snd].
  destruct b.
  - exists l, true, s1. split; [reflexivity |].
    repeat split; try lia; auto; try discriminate.
  - destruct (Hb0 eq_refl) as [Hn Hlt]. rewrite Hl.
    exists l, false, (append_exception
      (failure_message ++ ", " ++ Response.msg (outs (attempts_used l - 1))) s1).
    split; [reflexivity |]. cbn [trace result exceptions append_exception].
    repeat split; try lia; auto; try discriminate.
    rewrite He, Hn. reflexivity.
Qed.

(** The reply lists five posts and every detail call reports success: the
    detail loop of [forum_task] stops at its third attempt. *)
Lemma retry_loop_policy_witness :
  exists l b s',
    retry_loop 5 3
      (get_post_detail (Sim.gateway Sim.all_ok)
         (Sim.reply true "list reply" (JDict [("postList"%string, JList Sim.five_posts)])))
      "获取帖子详情失败" Sim.fresh = (Ret (l, b), s') /\
    1 <= attempts_used l <= 5 /\
    successes l =
      count_ok (fun _ => Sim.reply true "detail reply" Sim.post_detail)
        (attempts_used l) /\
    (forall j, j < attempts_used l ->
       count_ok (fun _ => Sim.reply true "detail reply" Sim.post_detail) j < 3) /\
    last_result l = Some (Sim.reply true "detail reply" Sim.post_detail) /\
    count_sleeps (trace s') = count_sleeps (trace Sim.fresh) + attempts_used l /\
    (exists t, trace s' = t ++ [ESleep 1 2]) /\
    result s' = result Sim.fresh /\
    (b = true -> successes l = 3 /\ exceptions s' = exceptions Sim.fresh) /\
    (b = false ->
       attempts_used l = 5 /\ successes l < 3 /\
       exceptions s' =
         exceptions Sim.fresh ++
         [("获取帖子详情失败" ++ ", " ++
           Response.msg (Sim.reply true "detail reply" Sim.post_detail))%string]).
Proof.
  apply (retry_loop_policy 5 3 _
           (fun _ => Sim.reply true "detail reply" Sim.post_detail)).
  - lia.
  - lia.
  - intros i s Hi.
    do 5 (destruct i as [| i];
          [eexists; split; [reflexivity |];
           split; [reflexivity |]; split; [reflexivity |];
           eexists; split; reflexivity |]).
    lia.
Defined.

(** C6 as stated fails: the share loop reaches its threshold on its first
    attempt, and still sleeps after it. *)
Lemma share_loop_sleeps_after_threshold :
  fst (retry_loop 1 1
         (fun _ => share_post (Sim.gateway Sim.all_ok)
                     (Sim.reply true "detail reply" Sim.post_detail))
         "分享帖子失败" Sim.fresh) =
    Ret (mkRetry 1 (Some (Sim.reply true "share reply" JNull)) 1, true) /\
  trace (snd (retry_loop 1 1
         (fun _ => share_post (Sim.gateway Sim.all_ok)
                     (Sim.reply true "detail reply" Sim.post_detail))
         "分享帖子失败" Sim.fresh)) =
    [ECall SHARE_TASK_URL [("gameId"%string, JInt 3)]; ESleep 1 2].
Proof. split; vm_compute; reflexivity. Qed.

(** ** The like loop *)

Lemma like_body_ret gw detail i l s l' b s' :
  like_body gw detail i l s = (Ret (l', b), s') ->
  like_attempts l' = S (like_attempts l) /\
  (like_successes l' = like_successes l \/
   like_successes l' = S (like_successes l)) /\
  b = Nat.leb 5 (like_successes l').
Proof.
  unfold like_body. intros H.
  bind_step H l1 s1 E1.
  assert (H1 : like_successes l1 = like_successes l /\
               like_attempts l1 = like_attempts l).
  { destruct (like_flag l).
    - bind_step E1 rsp s0 E0. apply ret_inv in E1 as [<- _]. split; reflexivity.
    - apply ret_inv in E1 as [<- _]. split; reflexivity. }
  destruct H1 as [Hs1 Ha1].
  destruct (rsp_like_post l1) as [rsp |]; [| discriminate].
  bind_step H l2 s2 E2.
  assert (H2 : (like_successes l2 = like_successes l1 \/
                like_successes l2 = S (like_successes l1)) /\
               like_attempts l2 = like_attempts l1).
  { destruct (truthy (Response.success rsp)).
    - bind_step E2 u s3 E3. bind_step E2 rsp2 s4 E4.
      destruct (truthy (Response.success rsp2));
        apply ret_inv in E2 as [<- _]; simpl; split; auto.
    - apply ret_inv in E2 as [<- _]. split; auto. }
  destruct H2 as [Hs2 Ha2].
  bind_step H u s3 E3.
  apply ret_inv in H as [H _]. inversion H; subst. simpl.
  rewrite Ha2, Ha1, <- Hs1. repeat split; auto.
Qed.

Lemma like_range gw detail n : forall i l s l' b s',
  for_range (like_body gw detail) i n l s = (Ret (l', b), s') ->
  like_successes l < 5 ->
  like_attempts l <= like_attempts l' <= like_attempts l + n /\
  like_successes l' <= like_successes l + (like_attempts l' - like_attempts l) /\
  (b = true -> like_successes l' = 5) /\
  (b = false -> like_attempts l' = like_attempts l + n /\ like_successes l' < 5).
Proof.
  induction n as [| n IH]; intros i l s l' b s' H Hlt.
  - simpl in H. apply ret_inv in H as [H _]. inversion H; subst.
    repeat split; try lia; try discriminate.
  - simpl in H. bind_step H r s1 E. destruct r as [l1 b1].
    apply like_body_ret in E as (Ha & Hs & Hb). simpl in H.
    destruct b1.
    + apply ret_inv in H as [H _]. inversion H; subst.
      symmetry in Hb. apply Nat.leb_le in Hb.
      repeat split; try lia; try discriminate.
    + symmetry in Hb. apply Nat.leb_gt in Hb.
      destruct (IH _ _ _ _ _ _ H Hb) as (H1 & H2 & H3 & H4).
      split; [lia |]. split; [lia |]. split; [exact H3 |].
      intros Hf. destruct (H4 Hf). split; lia.
Qed.

(** C7, as the code has it.  A like loop that returns has either left by
    [break] with exactly 5 successes after at most 9 iterations and no
    failure entry, or run its 9 iterations with fewer than 5 successes and
    recorded one failure entry for the like sub-step.  With a like call that
    always succeeds: when the unlike call succeeds on its 1st, 3rd, 5th, ...
    invocation the loop reaches 5 successes with 5 like requests and 5
    unlike requests that succeed, ten in all (and 4 unlike requests that
    fail), at its 9th iteration; when it succeeds on its 2nd, 4th, ...
    invocation the loop is exhausted at 9 iterations with 4 successes; when
    it never succeeds the loop is exhausted at 9 iterations with 0
    successes. *)
Theorem like_loop_exit gw detail s l b s' :
  like_loop gw detail s = (Ret (l, b), s') ->
  ((b = true /\ like_successes l = 5 /\ 5 <= like_attempts l <= 9 /\
    exceptions s' = exceptions s) \/
   (b = false /\ like_attempts l = 9 /\ like_successes l < 5 /\
    exists rsp, rsp_like_post l = Some rsp /\
      exceptions s' =
        exceptions s ++ [("点赞帖子失败" ++ ", " ++ Response.msg rsp)%string])) /\
  (fst (like_loop (Sim.gateway Sim.unlike_odd)
          (Sim.reply true "detail reply" Sim.post_detail) Sim.fresh) =
     Ret (mkLike true 5 (Some (Sim.reply true "like reply" JNull)) 9, true) /\
   exceptions (snd (like_loop (Sim.gateway Sim.unlike_odd)
          (Sim.reply true "detail reply" Sim.post_detail) Sim.fresh)) = [] /\
   Sim.count is_like_request
     (trace (snd (like_loop (Sim.gateway Sim.unlike_odd)
        (Sim.reply true "detail reply" Sim.post_detail) Sim.fresh))) = 5 /\
   count_succeeding (Sim.gateway Sim.unlike_odd) Sim.is_unlike []
     (trace (snd (like_loop (Sim.gateway Sim.unlike_odd)
        (Sim.reply true "detail reply" Sim.post_detail) Sim.fresh))) = 5 /\
   Sim.count Sim.is_unlike
     (trace (snd (like_loop (Sim.gateway Sim.unlike_odd)
        (Sim.reply true "detail reply" Sim.post_detail) Sim.fresh))) = 9 /\
   Sim.count (Sim.is_call LIKE_URL)
     (trace (snd (like_loop (Sim.gateway Sim.unlike_odd)
        (Sim.reply true "detail reply" Sim.post_detail) Sim.fresh))) = 14) /\
  (fst (like_loop (Sim.gateway Sim.unlike_even)
          (Sim.reply true "detail reply" Sim.post_detail) Sim.fresh) =
     Ret (mkLike false 4 (Some (Sim.reply true "like reply" JNull)) 9, false) /\
   exceptions (snd (like_loop (Sim.gateway Sim.unlike_even)
          (Sim.reply true "detail reply" Sim.post_detail) Sim.fresh)) =
     ["点赞帖子失败, like reply"%string]) /\
  (fst (like_loop (Sim.gateway Sim.unlike_never)
          (Sim.reply true "detail reply" Sim.post_detail) Sim.fresh) =
     Ret (mkLike false 0 (Some (Sim.reply true "like reply" JNull)) 9, false) /\
   exceptions (snd (like_loop (Sim.gateway Sim.unlike_never)
          (Sim.reply true "detail reply" Sim.post_detail) Sim.fresh)) =
     ["点赞帖子失败, like reply"%string]).
Proof.
  intros H. split.
  - apply like_loop_ret in H as (s1 & E & Hb).
    destruct (like_range_io gw _ _ _ _ _ _ _ E) as (_ & He & _). simpl in He.
    destruct (like_range _ _ _ _ _ _ _ _ _ E) as (H1 & H2 & H3 & H4);
      [simpl; lia |]. simpl in H1, H2.
    destruct Hb as [[-> ->] | (-> & rsp & El & ->)].
    + left. specialize (H3 eq_refl). repeat split; try lia. exact He.
    + right. destruct (H4 eq_refl) as [Ha Hs]. simpl in Ha.
      repeat split; try lia. exists rsp. split; [exact El |].
      simpl. rewrite He. reflexivity.
  - repeat split; vm_compute; reflexivity.
Qed.

(** The unlike call never succeeds: nine iterations, no success, one
    failure entry. *)
Lemma like_loop_exit_witness :
  exists l b s',
    like_loop (Sim.gateway Sim.unlike_never)
      (Sim.reply true "detail reply" Sim.post_detail) Sim.fresh
      = (Ret (l, b), s') /\
    ((b = true /\ like_successes l = 5 /\ 5 <= like_attempts l <= 9 /\
      exceptions s' = exceptions Sim.fresh) \/
     (b = false /\ like_attempts l = 9 /\ like_successes l < 5 /\
      exists rsp, rsp_like_post l = Some rsp /\
        exceptions s' =
          exceptions Sim.fresh ++
          [("点赞帖子失败" ++ ", " ++ Response.msg rsp)%string])).
Proof.
  exists (mkLike false 0 (Some (Sim.reply true "like reply" JNull)) 9), false,
    (snd (like_loop (Sim.gateway Sim.unlike_never)
            (Sim.reply true "detail reply" Sim.post_detail) Sim.fresh)).
  assert (H : like_loop (Sim.gateway Sim.unlike_never)
      (Sim.reply true "detail reply" Sim.post_detail) Sim.fresh
      = (Ret (mkLike false 0 (Some (Sim.reply true "like reply" JNull)) 9, false),
         snd (like_loop (Sim.gateway Sim.unlike_never)
            (Sim.reply true "detail reply" Sim.post_detail) Sim.fresh)))
    by (vm_compute; reflexivity).
  split; [exact H |].
  exact (proj1 (like_loop_exit _ _ _ _ _ _ H)).
Defined.

(** C7 as stated fails.  The like endpoint cannot be reached: the first
    like call raises and the loop is left at once, with no success, before
    any iteration is complete (no sleep was reached), and without a failure
    entry; [forum_task] raises that failure, having recorded the three
    earlier success messages only. *)
Lemma like_loop_left_by_failed_call :
  fst (like_loop Sim.likes_unreachable
         (Sim.reply true "detail reply" Sim.post_detail) Sim.fresh) =
    Raise (Transport Unreachable) /\
  Sim.count (Sim.is_call LIKE_URL)
    (trace (snd (like_loop Sim.likes_unreachable
       (Sim.reply true "detail reply" Sim.post_detail) Sim.fresh))) = 1 /\
  count_sleeps
    (trace (snd (like_loop Sim.likes_unreachable
       (Sim.reply true "detail reply" Sim.post_detail) Sim.fresh))) = 0 /\
  exceptions
    (snd (like_loop Sim.likes_unreachable
       (Sim.reply true "detail reply" Sim.post_detail) Sim.fresh)) = [] /\
  fst (forum_task Sim.likes_unreachable Sim.fresh) =
    Raise (Transport Unreachable) /\
  exceptions (snd (forum_task Sim.likes_unreachable Sim.fresh)) = [] /\
  result (snd (forum_task Sim.likes_unreachable Sim.fresh)) =
    [("get_forum_list", "获取帖子列表成功");
     ("get_post_detail", "获取帖子详情成功");
     ("share_post", "分享帖子成功")]%string.
Proof. repeat split; vm_compute; reflexivity. Qed.

(** ** Runs in which every reply reports success *)

Lemma replies_ok_bind {A : Type} (m : M A) (k : A -> M Response.t) :
  (forall a, replies_ok (k a)) -> replies_ok (bind m k).
Proof.
  intros Hk s r s' H. bind_step H a s1 E. exact (Hk _ _ _ _ H).
Qed.

Section AllOk.

Variable gw : Gateway.
Variable month : nat.
Hypothesis Hok :
  forall t u b r, gw t u b = inl r -> truthy (Response.success r) = true.

Lemma make_request_replies_ok u b : replies_ok (make_request gw u b).
Proof.
  intros s r s' H. apply make_request_ret in H as [H _]. exact (Hok _ _ _ _ H).
Qed.

Ltac ends_with_request :=
  repeat (apply replies_ok_bind; intro); apply make_request_replies_ok.

Lemma get_forum_list_replies_ok : replies_ok (get_forum_list gw).
Proof. unfold get_forum_list. ends_with_request. Qed.

Lemma get_post_detail_replies_ok rsp i : replies_ok (get_post_detail gw rsp i).
Proof. unfold get_post_detail. ends_with_request. Qed.

Lemma like_post_replies_ok rsp op : replies_ok (like_post gw rsp op).
Proof. unfold like_post. ends_with_request. Qed.

Lemma share_post_replies_ok rsp : replies_ok (share_post gw rsp).
Proof. unfold share_post. ends_with_request. Qed.

Lemma checkin_replies_ok : replies_ok (checkin gw month).
Proof. unfold checkin. ends_with_request. Qed.

Lemma sign_in_replies_ok : replies_ok (sign_in gw).
Proof. unfold sign_in. apply make_request_replies_ok. Qed.

Lemma retry_range_all_ok K action n :
  (forall i, replies_ok (action i)) ->
  forall i l s l' b s',
    for_range (retry_body K action) i n l s = (Ret (l', b), s') ->
    successes l < K -> K <= successes l + n -> b = true.
Proof.
  intros Ha. induction n as [| n IH]; intros i l s l' b s' H Hlt Hle.
  - lia.
  - simpl in H. bind_step H r s1 E.
    unfold retry_body in E. bind_step E rsp s0 E0.
    rewrite (Ha _ _ _ _ E0) in E.
    bind_step E u s2 E2. apply ret_inv in E as [<- _]. simpl in H.
    destruct (Nat.leb K (S (successes l))) eqn:Ek.
    + apply ret_inv in H as [H _]. inversion H. reflexivity.
    + apply Nat.leb_gt in Ek.
      apply (IH _ _ _ _ _ _ H); simpl; lia.
Qed.

Lemma like_range_all_ok detail n :
  forall i l s l' b s',
    for_range (like_body gw detail) i n l s = (Ret (l', b), s') ->
    like_flag l = true -> like_successes l < 5 -> 5 <= like_successes l + n ->
    b = true.
Proof.
  induction n as [| n IH]; intros i l s l' b s' H Hf Hlt Hle.
  - lia.
  - simpl in H. bind_step H r s1 E.
    unfold like_body in E. rewrite Hf in E.
    bind_step E l1 s2 E1. bind_step E1 rsp s3 E3.
    apply ret_inv in E1 as [<- _]. cbn [rsp_like_post] in E.
    rewrite (like_post_replies_ok _ _ _ _ _ E3) in E.
    bind_step E l2 s4 E4. bind_step E4 u s5 E5. bind_step E4 rsp2 s6 E6.
    rewrite (like_post_replies_ok _ _ _ _ _ E6) in E4.
    apply ret_inv in E4 as [<- _].
    bind_step E u2 s7 E7. apply ret_inv in E as [<- _].
    cbn [fst snd like_successes like_flag rsp_like_post like_attempts] in H.
    destruct (Nat.leb 5 (S (like_successes l))) eqn:Ek.
    + apply ret_inv in H as [H _]. inversion H. reflexivity.
    + apply Nat.leb_gt in Ek.
      apply (IH _ _ _ _ _ _ H); simpl; lia.
Qed.

Lemma forum_task_all_ok s s' :
  forum_task gw s = (Ret tt, s') ->
  exceptions s' = exceptions s /\ result s' = liked (result s).
Proof.
  intros H. destruct (forum_task_cases _ _ _ H) as (ext & _ & Hend).
  destruct Hend as [rsp s1 E T _ _ _ | rsp0 s1 l s2 rsp _ E _ _ _ _
         | d s1 l s2 rsp _ E _ _ _ _ | d s1 l s2 rsp _ E _ _ _ _
         | d s1 l s2 _ _ He Hr _].
  - rewrite (get_forum_list_replies_ok _ _ _ E) in T. discriminate.
  - assert (Hb : false = true); [| discriminate].
    eapply retry_range_all_ok; [| exact E | simpl; lia | simpl; lia].
    intro. apply get_post_detail_replies_ok.
  - assert (Hb : false = true); [| discriminate].
    eapply retry_range_all_ok; [| exact E | simpl; lia | simpl; lia].
    intro. apply share_post_replies_ok.
  - assert (Hb : false = true); [| discriminate].
    eapply like_range_all_ok; [exact E | reflexivity | simpl; lia | simpl; lia].
  - split; assumption.
Qed.

Lemma stage_all_ok name (action : M Response.t) ok_text fail_text s s' :
  replies_ok action ->
  _process_sign_action name action ok_text fail_text s = (Ret tt, s') ->
  exists s1 r, action s = (Ret r, s1) /\ s' = set_result name ok_text s1.
Proof.
  intros Ha H. unfold _process_sign_action in H.
  bind_step H r s1 E. rewrite (Ha _ _ _ E) in H.
  apply modify_inv in H. exists s1, r. split; [exact E | exact H].
Qed.

End AllOk.

Lemma stages_all_ok gw month s u s1 :
  (forall t u b r, gw t u b = inl r -> truthy (Response.success r) = true) ->
  stages gw month s = (Ret u, s1) ->
  exceptions s1 = exceptions s /\
  result s1 =
    liked (dict_set "sign_in" "社区签到成功"
             (dict_set "checkin" "签到奖励签到成功" (result s))).
Proof.
  intros Hok H. unfold stages, checkin_stage, sign_in_stage in H.
  bind_step H u1 s2 E1. destruct u1.
  apply (stage_all_ok _ _ _ _ _ _ (checkin_replies_ok gw month Hok)) in E1
    as (s2' & r1 & E1 & ->).
  destruct (checkin_io gw month _ _ _ E1) as (Hr1 & He1 & _).
  bind_step H u2 s3 E2. destruct u2.
  apply (stage_all_ok _ _ _ _ _ _ (sign_in_replies_ok gw Hok)) in E2
    as (s3' & r2 & E2 & ->).
  destruct (sign_in_io gw _ _ _ E2) as (Hr2 & He2 & _).
  destruct u. apply (forum_task_all_ok gw Hok) in H as [He3 Hr3].
  simpl in *. split.
  - rewrite He3, He2, He1. reflexivity.
  - rewrite Hr3, Hr2, Hr1. reflexivity.
Qed.

(** C8, as the code has it.  In a run of [start] in which every reply
    reports success and no unexpected error is raised, started on a fresh
    client or on a client that already holds the six messages of an earlier
    such run, [start] returns, no failure is recorded, and the summary is
    the recorded success messages joined by [", "] in the order they were
    recorded, followed by ["!"]: six entries, for the check-in, the
    sign-in, the listing, the post details, the share and the like. *)
Theorem all_success_summary gw month s o s' :
  (forall t u b r, gw t u b = inl r -> truthy (Response.success r) = true) ->
  result s = [] \/ result s = all_six ->
  exceptions s = [] ->
  start gw month s = (o, s') ->
  (forall e, o = Raise e -> exists m, e = KurobbsClientException m) ->
  o = Ret tt /\
  exceptions s' = [] /\
  result s' = all_six /\
  msg s' = (String.concat ", " (dict_values (result s')) ++ "!")%string /\
  msg s' =
    "签到奖励签到成功, 社区签到成功, 获取帖子列表成功, 获取帖子详情成功, 分享帖子成功, 点赞帖子成功!"%string /\
  length (dict_values (result s')) = 6.
Proof.
  intros Hok Hres Hexc Hstart Hno.
  pose proof (start_cases gw month s) as H.
  destruct (stages gw month s) as [[u | e] s1] eqn:E; destruct H as [Hs Hr].
  - destruct (stages_all_ok _ _ _ _ _ Hok E) as [He1 Hr1].
    rewrite Hexc in He1.
    assert (Hsix : result s1 = all_six).
    { rewrite Hr1. destruct Hres as [-> | ->]; reflexivity. }
    rewrite Hs in Hstart. inversion Hstart; subst o s'. clear Hstart.
    unfold aggregate. rewrite He1. cbn [result exceptions emit].
    split; [reflexivity |]. split; [exact He1 |]. split; [exact Hsix |].
    split; [reflexivity |]. unfold msg. cbn [result emit]. rewrite Hsix.
    split; reflexivity.
  - exfalso. rewrite Hs in Hstart. inversion Hstart; subst o s'.
    destruct (Hno e eq_refl) as [m ->].
    destruct Hr as (_ & Hk & _). exact (Hk m eq_refl).
Qed.

Lemma sim_all_ok_replies t u b r :
  Sim.gateway Sim.all_ok t u b = inl r -> truthy (Response.success r) = true.
Proof.
  unfold Sim.gateway. intros H.
  repeat match type of H with
         | context [if ?c then _ else _] => destruct c
         end;
    inversion H; reflexivity.
Qed.

(** Every reply reports success: the first run returns with the six
    messages, and so does a second run on the same client. *)
Lemma all_success_summary_witness :
  msg (snd (start (Sim.gateway Sim.all_ok) 7 Sim.fresh)) =
    "签到奖励签到成功, 社区签到成功, 获取帖子列表成功, 获取帖子详情成功, 分享帖子成功, 点赞帖子成功!"%string /\
  msg (snd (start (Sim.gateway Sim.all_ok) 7
              (snd (start (Sim.gateway Sim.all_ok) 7 Sim.fresh)))) =
    "签到奖励签到成功, 社区签到成功, 获取帖子列表成功, 获取帖子详情成功, 分享帖子成功, 点赞帖子成功!"%string.
Proof.
  pose (s1 := snd (start (Sim.gateway Sim.all_ok) 7 Sim.fresh)).
  pose (s2 := snd (start (Sim.gateway Sim.all_ok) 7 s1)).
  split.
  - refine (proj1 (proj2 (proj2 (proj2 (proj2
      (all_success_summary (Sim.gateway Sim.all_ok) 7 Sim.fresh (Ret tt) s1
         sim_all_ok_replies (or_introl eq_refl) eq_refl _ _)))))).
    + vm_compute. reflexivity.
    + intros e He. discriminate.
  - refine (proj1 (proj2 (proj2 (proj2 (proj2
      (all_success_summary (Sim.gateway Sim.all_ok) 7 s1 (Ret tt) s2
         sim_all_ok_replies (or_intror _) _ _ _)))))).
    + vm_compute. reflexivity.
    + vm_compute. reflexivity.
    + vm_compute. reflexivity.
    + intros e He. discriminate.
Defined.

(** C8 as stated fails: with every reply reporting success the summary
    holds six entries, not four. *)
Lemma all_success_has_six_entries :
  fst (start (Sim.gateway Sim.all_ok) 7 Sim.fresh) = Ret tt /\
  dict_values (result (snd (start (Sim.gateway Sim.all_ok) 7 Sim.fresh))) =
    ["签到奖励签到成功"; "社区签到成功"; "获取帖子列表成功"; "获取帖子详情成功";
     "分享帖子成功"; "点赞帖子成功"]%string /\
  length (dict_values (result (snd (start (Sim.gateway Sim.all_ok) 7 Sim.fresh))))
    <> 4.
Proof. repeat split; try (vm_compute; reflexivity). vm_compute. discriminate. Qed.

(** ** An empty listing *)

(** C9, what the code does.  When the listing reply reports success and its
    post list is empty, the first [get_post_detail] raises [IndexError]
    before any request is sent: [forum_task] raises it, having recorded the
    listing's success message and no failure entry. *)
Theorem empty_listing_raises gw s rsp s1 fields :
  get_forum_list gw s = (Ret rsp, s1) ->
  truthy (Response.success rsp) = true ->
  Response.data rsp = JDict fields ->
  lookup "postList" fields = Some (JList []) ->
  forum_task gw s =
    (Raise IndexError, set_result "get_forum_list" "获取帖子列表成功" s1) /\
  exceptions (set_result "get_forum_list" "获取帖子列表成功" s1) = exceptions s /\
  trace (set_result "get_forum_list" "获取帖子列表成功" s1) = trace s1.
Proof.
  intros E T Hd Hl.
  destruct (get_forum_list_io gw _ _ _ E) as (_ & He & _).
  split; [| split; [exact He | reflexivity]].
  unfold forum_task, bind at 1. rewrite E, T. cbn [negb].
  unfold bind at 1. unfold modify at 1.
  unfold bind at 1. unfold retry_loop, bind at 1.
  cbn [for_range]. unfold bind at 1. unfold retry_body at 1. unfold bind at 1.
  unfold get_post_detail at 1. unfold bind at 1, lift at 1.
  rewrite Hd. cbn [getitem_key]. rewrite Hl.
  reflexivity.
Qed.

(** The listing holds no post: the forum task raises [IndexError], and
    [main] ends with status 1, no failure entry and no notification. *)
Lemma empty_listing_raises_witness :
  fst (forum_task (Sim.gateway Sim.no_posts) Sim.fresh) = Raise IndexError /\
  fst (main (Sim.gateway Sim.no_posts) Sim.format_message 7 (Some "12345"%string) Sim.fresh) = 1 /\
  exceptions (snd (main (Sim.gateway Sim.no_posts) Sim.format_message 7 (Some "12345"%string) Sim.fresh)) = [] /\
  notifications (trace (snd (main (Sim.gateway Sim.no_posts) Sim.format_message 7 (Some "12345"%string) Sim.fresh))) = [].
Proof.
  split.
  - rewrite (proj1 (empty_listing_raises (Sim.gateway Sim.no_posts) Sim.fresh
       (Sim.reply true "list reply" (JDict [("postList"%string, JList [])]))
       (snd (get_forum_list (Sim.gateway Sim.no_posts) Sim.fresh))
       [("postList"%string, JList [])]
       eq_refl eq_refl eq_refl eq_refl)).
    reflexivity.
  - repeat split; vm_compute; reflexivity.
Defined.

(** * More of the code *)

(** ** The device code *)

(** The digest model agrees with [hashlib] on these inputs. *)
Example sha256_vectors :
  SHA256.hexdigest (encode_utf8 "") =
    "e3b0c44298fc1c149afbf4c8996fb92427ae41e4649b934ca495991b7852b855"%string /\
  SHA256.hexdigest (encode_utf8 "abc") =
    "ba7816bf8f01cfea414140de5dae2223b00361a396177a9cb410ff61f20015ad"%string /\
  SHA256.hexdigest (encode_utf8 "1") =
    "6b86b273ff34fce19d6b804eff5a3f5747ada4eaa22f1d49c01e52ddb7875b4b"%string /\
  SHA256.hexdigest (encode_utf8 "12345") =
    "5994471abb01112afcc18159f6cc74b4f511b99806da59b3caf5a9c173cacfc5"%string /\
  SHA256.hexdigest (repeat 97%N 56) =
    "b35439a4ac6f0948b6d6f9e3c6af0f5f590ce20f1bde7090ef7970686ec6738a"%string /\
  SHA256.hexdigest (repeat 97%N 120) =
    "2f3d335432c70b580af0e8e1b3674a7c020d683aa5f73aaaedfdc55af904c21c"%string.
Proof. repeat split; vm_compute; reflexivity. Qed.

Lemma str_length_app (a b : string) :
  String.length (a ++ b)%string = String.length a + String.length b.
Proof. induction a as [| c a IH]; simpl; [reflexivity | rewrite IH; reflexivity]. Qed.

Lemma str_forall_app p (a b : string) :
  str_forall p (a ++ b)%string = str_forall p a && str_forall p b.
Proof.
  induction a as [| c a IH]; simpl; [reflexivity |].
  rewrite IH, andb_assoc. reflexivity.
Qed.

Lemma hex8_length x : String.length (SHA256.hex8 x) = 8.
Proof. reflexivity. Qed.

Lemma hexdigest_length bytes : String.length (SHA256.hexdigest bytes) = 64.
Proof.
  unfold SHA256.hexdigest. cbv zeta.
  rewrite !str_length_app, !hex8_length. reflexivity.
Qed.

Lemma str_upper_length s : String.length (str_upper s) = String.length s.
Proof. induction s as [| c s IH]; simpl; [reflexivity | rewrite IH; reflexivity]. Qed.

Lemma substring_0_length n s :
  String.length (substring 0 n s) = Nat.min n (String.length s).
Proof.
  revert s. induction n as [| n IH]; intros [| c s]; simpl; try reflexivity.
  rewrite IH. reflexivity.
Qed.

Lemma substring_0_forall p n s :
  str_forall p s = true -> str_forall p (substring 0 n s) = true.
Proof.
  revert s. induction n as [| n IH]; intros [| c s]; simpl; try reflexivity.
  intros H. apply andb_true_iff in H as [Hc Hs]. rewrite Hc, (IH _ Hs). reflexivity.
Qed.

Lemma hex_digit_upper x :
  (x < 16)%N -> is_upper_hex (upper_char (SHA256.hex_digit x)) = true.
Proof.
  intros H.
  assert (Hx : (x = 0 \/ x = 1 \/ x = 2 \/ x = 3 \/ x = 4 \/ x = 5 \/ x = 6 \/
                x = 7 \/ x = 8 \/ x = 9 \/ x = 10 \/ x = 11 \/ x = 12 \/
                x = 13 \/ x = 14 \/ x = 15)%N) by lia.
  repeat (destruct Hx as [-> | Hx]; [reflexivity |]).
  subst x. reflexivity.
Qed.

Lemma land_15_lt x : (N.land x 15 < 16)%N.
Proof.
  change 15%N with (N.ones 4). rewrite N.land_ones.
  apply N.mod_lt. discriminate.
Qed.

Lemma hex8_upper x : str_forall is_upper_hex (str_upper (SHA256.hex8 x)) = true.
Proof.
  unfold SHA256.hex8. cbn [seq rev app map string_of_list_ascii str_upper str_forall].
  rewrite !hex_digit_upper by apply land_15_lt. reflexivity.
Qed.

Lemma str_upper_app (a b : string) :
  str_upper (a ++ b)%string = (str_upper a ++ str_upper b)%string.
Proof. induction a as [| c a IH]; simpl; [reflexivity | rewrite IH; reflexivity]. Qed.

Lemma hexdigest_upper bytes :
  str_forall is_upper_hex (str_upper (SHA256.hexdigest bytes)) = true.
Proof.
  unfold SHA256.hexdigest. cbv zeta.
  rewrite !str_upper_app, !str_forall_app, !hex8_upper. reflexivity.
Qed.

Lemma slice_to_length (n : Z) s :
  Z.of_nat (String.length (slice_to n s)) =
    if (n <? 0)%Z then Z.max 0 (Z.of_nat (String.length s) + n)
    else Z.min n (Z.of_nat (String.length s)).
Proof.
  unfold slice_to. destruct (Z.ltb_spec n 0); rewrite substring_0_length; lia.
Qed.

Lemma slice_to_forall p (n : Z) s :
  str_forall p s = true -> str_forall p (slice_to n s) = true.
Proof.
  intros H. unfold slice_to. destruct (n <? 0)%Z; apply substring_0_forall, H.
Qed.

(** X1. Whatever the input and the requested length, and in whatever state,
    [generate_fixed_string] returns a string made of digits and upper-case
    letters [A]-[F]: [min length 64] characters for a length that is not
    negative and [max 0 (64 + length)] for a negative one, which counts
    from the end of the digest; with the default length the device code has
    40 such characters. *)
Theorem generate_fixed_string_shape input (n : Z) s :
  exists d,
    fst (generate_fixed_string input n s) = Ret d /\
    Z.of_nat (String.length d) =
      (if (n <? 0)%Z then Z.max 0 (64 + n) else Z.min n 64) /\
    str_forall is_upper_hex d = true /\
    (n = 40%Z -> String.length d = 40).
Proof.
  eexists. split; [reflexivity |].
  match goal with
  | |- Z.of_nat (String.length ?d) = _ /\ _ =>
      assert (Hlen : Z.of_nat (String.length d) =
                (if (n <? 0)%Z then Z.max 0 (64 + n) else Z.min n 64))
  end.
  { rewrite slice_to_length, str_upper_length, hexdigest_length.
    destruct (Z.ltb_spec 64 n); destruct (Z.ltb_spec n 0);
      try (destruct (Z.ltb_spec 64 0)); lia. }
  split; [exact Hlen |]. split.
  - apply slice_to_forall, hexdigest_upper.
  - intros ->. apply Nat2Z.inj. rewrite Hlen. reflexivity.
Qed.

Lemma substring_0_min n m s :
  substring 0 n (substring 0 m s) = substring 0 (Nat.min n m) s.
Proof.
  revert m s. induction n as [| n IH]; intros m s.
  - destruct (substring 0 m s); destruct s; reflexivity.
  - destruct m as [| m]; [destruct s; reflexivity |].
    destruct s as [| c s]; simpl; [reflexivity |].
    rewrite IH. reflexivity.
Qed.

Lemma slice_to_of_nat n s : slice_to (Z.of_nat n) s = substring 0 n s.
Proof.
  unfold slice_to. destruct (Z.ltb_spec (Z.of_nat n) 0); [lia |].
  rewrite Nat2Z.id. reflexivity.
Qed.

Lemma ltb_64_of_nat n : (64 <? Z.of_nat n)%Z = (64 <? n)%nat.
Proof.
  destruct (Z.ltb_spec 64 (Z.of_nat n)); destruct (Nat.ltb_spec 64 n);
    try reflexivity; lia.
Qed.

(** X2. The edge cases of [generate_fixed_string].  A missing or empty
    input is replaced by ["1"]: the result is that of ["1"] and the
    empty-input warning is logged first.  A length above 64 is cut to 64:
    the result is that of length 64 and a warning is logged.  A non-empty
    input with a length of at most 64 logs no warning.  And the result for
    a shorter length is the beginning of the result for a longer one. *)
Theorem generate_fixed_string_edges input n s :
  (fixed_string None n = fixed_string (Some "1"%string) n /\
   fixed_string (Some ""%string) n = fixed_string (Some "1"%string) n) /\
  (match input with
   | Some (String _ _) => True
   | _ =>
       exists rest,
         trace (snd (generate_fixed_string input (Z.of_nat n) s)) =
           trace s ++ ELog WARNING "生成固定字符串输入为空, 使用默认值 1" :: rest
   end) /\
  (64 < n ->
   fixed_string input n = fixed_string input 64 /\
   exists pre text,
     trace (snd (generate_fixed_string input (Z.of_nat n) s)) =
       trace s ++ pre ++ [ELog WARNING text]) /\
  (forall c r, input = Some (String c r) -> n <= 64 ->
     snd (generate_fixed_string input (Z.of_nat n) s) = s) /\
  (forall m, n <= m -> fixed_string input n = substring 0 n (fixed_string input m)).
Proof.
  split; [split; reflexivity |]. split; [| split; [| split]].
  - destruct input as [[| c r] |]; [| exact I |];
      unfold generate_fixed_string; cbn [snd];
      destruct (64 <? Z.of_nat n)%Z; eexists; cbn [trace emit];
      rewrite <- ?app_assoc; reflexivity.
  - intros H. apply Nat.ltb_lt in H. rewrite <- ltb_64_of_nat in H. split.
    + unfold fixed_string, generate_fixed_string. cbn [fst]. rewrite H.
      reflexivity.
    + unfold generate_fixed_string. cbn [snd]. rewrite H.
      destruct input as [[| c r] |]; cbn [trace emit];
        [ exists [ELog WARNING "生成固定字符串输入为空, 使用默认值 1"]
        | exists []
        | exists [ELog WARNING "生成固定字符串输入为空, 使用默认值 1"] ];
        eexists; rewrite <- ?app_assoc; reflexivity.
  - intros c r -> H. unfold generate_fixed_string. cbn [snd].
    apply Nat.ltb_ge in H. rewrite <- ltb_64_of_nat in H. rewrite H.
    reflexivity.
  - intros m H. unfold fixed_string, generate_fixed_string. cbn [fst].
    rewrite !ltb_64_of_nat.
    replace (if (64 <? n)%nat then 64%Z else Z.of_nat n)
      with (Z.of_nat (if (64 <? n)%nat then 64 else n))
      by (destruct (64 <? n)%nat; reflexivity).
    replace (if (64 <? m)%nat then 64%Z else Z.of_nat m)
      with (Z.of_nat (if (64 <? m)%nat then 64 else m))
      by (destruct (64 <? m)%nat; reflexivity).
    rewrite !slice_to_of_nat, substring_0_min. f_equal.
    destruct (Nat.ltb_spec 64 n); destruct (Nat.ltb_spec 64 m); lia.
Qed.

(** ** The identity of a client and its headers *)

Lemma generate_fixed_string_default input s :
  exists d,
    fst (generate_fixed_string input 40 s) = Ret d /\
    String.length d = 40 /\
    str_forall is_upper_hex d = true.
Proof.
  eexists. split; [reflexivity |]. split.
  - change (slice_to (if (64 <? 40)%Z then 64%Z else 40%Z)) with (substring 0 40).
    rewrite substring_0_length, str_upper_length, hexdigest_length. reflexivity.
  - apply slice_to_forall, hexdigest_upper.
Qed.

Lemma char_count_app (a b : string) :
  char_count (a ++ b) = char_count a + char_count b.
Proof.
  induction a as [| c a IH]; [reflexivity |].
  simpl. rewrite IH. lia.
Qed.

Lemma last_chars_suffix k s : exists pre, s = (pre ++ last_chars k s)%string.
Proof.
  induction s as [| c s (pre & IH)]; [exists ""%string; reflexivity |].
  cbn [last_chars].
  destruct (negb (is_continuation c) && (char_count (String c s) <=? k)%nat).
  - exists ""%string. reflexivity.
  - exists (String c pre). simpl. f_equal. exact IH.
Qed.

Lemma last_chars_count k s :
  char_count (last_chars k s) = Nat.min k (char_count s).
Proof.
  induction s as [| c s IH]; [destruct k; reflexivity |].
  cbn [last_chars].
  destruct (is_continuation c) eqn:Ec; cbn [negb andb].
  - rewrite IH. cbn [char_count]. rewrite Ec. reflexivity.
  - destruct (Nat.leb_spec (char_count (String c s)) k) as [H | H].
    + lia.
    + rewrite IH. cbn [char_count] in *. rewrite Ec in *. lia.
Qed.

Lemma last_chars_boundary k s :
  match last_chars k s with
  | EmptyString => True
  | String c _ => is_continuation c = false
  end.
Proof.
  induction s as [| c s IH]; [exact I |].
  cbn [last_chars].
  destruct (is_continuation c) eqn:Ec; cbn [negb andb]; [exact IH |].
  destruct (char_count (String c s) <=? k)%nat; [exact Ec | exact IH].
Qed.

(** X3. For every uid, [__init__] gives the client a device code of 40
    upper-case hexadecimal characters and an [ip] made of ["10.0.2.2"]
    followed by the last two characters of the uid (all of it when it is
    shorter), so 8 to 10 characters, a character of more than one byte
    being taken whole; both containers start empty.  Its 13 header names
    are distinct, and the headers carry that device code, that ip and the
    token.  Without a uid, [__init__] raises [TypeError].  In both cases
    the state is the one [KurobbsClient.__init__] leaves. *)
Theorem init_fields_identity tok u s :
  (exists c s',
     init_fields tok (Some u) s = (Ret c, s') /\
     s' = snd (KurobbsClient.__init__ (Some u) s) /\
     result s' = [] /\ exceptions s' = [] /\
     uid c = u /\ token c = tok /\
     String.length (devcode c) = 40 /\
     str_forall is_upper_hex (devcode c) = true /\
     (exists pre, u = (pre ++ last_two u)%string) /\
     char_count (last_two u) = Nat.min 2 (char_count u) /\
     match last_two u with
     | EmptyString => True
     | String b _ => is_continuation b = false
     end /\
     ip c = ("10.0.2.2" ++ last_two u)%string /\
     char_count (ip c) = 8 + Nat.min 2 (char_count u) /\
     NoDup (map fst (get_headers c)) /\
     length (get_headers c) = 13 /\
     lookup "devcode" (get_headers c) = Some (JStr (devcode c)) /\
     lookup "ip" (get_headers c) = Some (JStr (ip c)) /\
     lookup "token" (get_headers c) =
       Some (match tok with Some t => JStr t | None => JNull end)) /\
  init_fields tok None s =
    (Raise TypeError, snd (KurobbsClient.__init__ None s)) /\
  last_two "12345" = "45"%string /\
  last_two "7" = "7"%string /\
  last_two "" = ""%string /\
  last_two "12é中" = "é中"%string /\
  char_count "12é中" = 4.
Proof.
  split; [| repeat split; reflexivity].
  destruct (generate_fixed_string_default (Some u) (mkState [] [] (trace s)))
    as (d & Hd & Hlen & Hhex).
  exists (mkIdentity u tok d ("10.0.2.2" ++ last_two u)),
         (snd (generate_fixed_string (Some u) 40 (mkState [] [] (trace s)))).
  split.
  { unfold init_fields, bind.
    destruct (generate_fixed_string (Some u) 40 (mkState [] [] (trace s)))
      as [o s1] eqn:E. simpl in Hd. subst o. reflexivity. }
  split; [destruct u; reflexivity |].
  split; [destruct u; reflexivity |]. split; [destruct u; reflexivity |].
  cbn [uid token devcode ip].
  split; [reflexivity |]. split; [reflexivity |].
  split; [exact Hlen |]. split; [exact Hhex |].
  split; [apply last_chars_suffix |].
  split; [apply last_chars_count |].
  split; [apply last_chars_boundary |].
  split; [reflexivity |].
  split.
  { rewrite char_count_app. unfold last_two. rewrite last_chars_count.
    reflexivity. }
  split.
  { unfold get_headers. cbn [map fst].
    repeat (constructor; [simpl; intros Hin;
      repeat (destruct Hin as [Hin | Hin]; [discriminate |]); exact Hin |]).
    constructor. }
  repeat split; reflexivity.
Qed.

(** ** The requests of [get_forum_list] and [checkin] *)

Lemma make_request_ok_eq gw u b s r :
  gw (trace s) u b = inl r ->
  make_request gw u b s = (Ret r, emit (ECall u b) s).
Proof. intros H. unfold make_request. rewrite H. reflexivity. Qed.

Lemma first_get_dict d rest key default s :
  first_get (JList (JDict d :: rest)) key default s =
    (Ret (field_or d key default), s).
Proof.
  unfold first_get, bind, lift, field_or. simpl.
  destruct (lookup key d); reflexivity.
Qed.

(** X4. [get_forum_list] asks for the roles of game 3 and reads the game id
    of the first role, 2 when the role has none; it then requests the
    listing of forum 2 when that game id is the number 2 and of forum 9 in
    every other case, page 1 of 20 posts, whatever the role reply's
    [success] flag says. *)
Theorem get_forum_list_request gw s r d rest :
  gw (trace s) FIND_ROLE_LIST_API_URL [("gameId"%string, JInt 3)] = inl r ->
  Response.data r = JList (JDict d :: rest) ->
  get_forum_list gw s =
    make_request gw FORUM_LIST_URL
      [("forumId"%string,
         JInt (if json_eq_int (field_or d "gameId" (JInt 2)) 2 then 2 else 9));
       ("gameId"%string, field_or d "gameId" (JInt 2));
       ("pageIndex"%string, JInt 1); ("pageSize"%string, JInt 20);
       ("searchType"%string, JInt 2); ("timeType"%string, JInt 0);
       ("topicId"%string, JInt 0)]
      (emit (ECall FIND_ROLE_LIST_API_URL [("gameId"%string, JInt 3)]) s) /\
  (lookup "gameId" d = None ->
   json_eq_int (field_or d "gameId" (JInt 2)) 2 = true) /\
  (json_eq_int (field_or d "gameId" (JInt 2)) 2 = true <->
   field_or d "gameId" (JInt 2) = JInt 2).
Proof.
  intros Hg Hd. split; [| split].
  - unfold get_forum_list, get_user_game_list. unfold bind at 1. unfold bind at 1.
    rewrite (make_request_ok_eq _ _ _ _ _ Hg). unfold ret at 1. cbn [Response.data].
    rewrite Hd. unfold bind at 1. rewrite first_get_dict. reflexivity.
  - intros H. unfold field_or. rewrite H. reflexivity.
  - split.
    + destruct (field_or d "gameId" (JInt 2)); simpl; try discriminate.
      intros H. apply Z.eqb_eq in H. subst. reflexivity.
    + intros ->. reflexivity.
Qed.

(** The first role of the scripted gateway plays game 3: forum 9 is
    listed. *)
Lemma get_forum_list_request_witness :
  get_forum_list (Sim.gateway Sim.all_ok) Sim.fresh =
    make_request (Sim.gateway Sim.all_ok) FORUM_LIST_URL
      [("forumId"%string, JInt 9); ("gameId"%string, JInt 3);
       ("pageIndex"%string, JInt 1); ("pageSize"%string, JInt 20);
       ("searchType"%string, JInt 2); ("timeType"%string, JInt 0);
       ("topicId"%string, JInt 0)]
      (emit (ECall FIND_ROLE_LIST_API_URL [("gameId"%string, JInt 3)]) Sim.fresh).
Proof.
  exact (proj1 (get_forum_list_request (Sim.gateway Sim.all_ok) Sim.fresh
    (Sim.reply true "roles" Sim.role_list)
    [("gameId"%string, JInt 3); ("serverId"%string, JStr "76402e5b");
     ("roleId"%string, JInt 1001); ("userId"%string, JInt 2002)] []
    eq_refl eq_refl)).
Defined.

Lemma decimal_value_format_02d n :
  n < 100 -> decimal_value 0 (format_02d n) = Some n.
Proof.
  intros H. unfold format_02d.
  destruct (Nat.ltb_spec n 10) as [H10 | H10].
  - do 10 (destruct n as [| n]; [reflexivity |]). lia.
  - destruct (Nat.ltb_spec n 100) as [_ | ?]; [| lia].
    assert (Hq : n / 10 < 10) by (apply Nat.Div0.div_lt_upper_bound; lia).
    assert (Hr : n mod 10 < 10) by (apply Nat.mod_upper_bound; lia).
    pose proof (Nat.div_mod_eq n 10) as Hn.
    remember (n / 10) as q. remember (n mod 10) as m.
    rewrite Hn. clear Heqq Heqm Hn H H10.
    do 10 (destruct q as [| q];
           [do 10 (destruct m as [| m]; [reflexivity |]); lia |]).
    lia.
Qed.

(** X5. [checkin] asks for the roles of game 3 and then submits the
    check-in of the first role, whatever the role reply's [success] flag
    says: game id, server id, role id and user id are those of the role,
    with 2, [None], 0 and 0 for the ones it lacks, and [reqMonth] is the
    month written with two decimal digits (a leading zero below 10), which
    read back as the month. *)
Theorem checkin_request gw month s r d rest :
  gw (trace s) FIND_ROLE_LIST_API_URL [("gameId"%string, JInt 3)] = inl r ->
  Response.data r = JList (JDict d :: rest) ->
  1 <= month <= 12 ->
  checkin gw month s =
    make_request gw SIGN_URL
      [("gameId"%string, field_or d "gameId" (JInt 2));
       ("serverId"%string, field_or d "serverId" JNull);
       ("roleId"%string, field_or d "roleId" (JInt 0));
       ("userId"%string, field_or d "userId" (JInt 0));
       ("reqMonth"%string, JStr (format_02d month))]
      (emit (ECall FIND_ROLE_LIST_API_URL [("gameId"%string, JInt 3)]) s) /\
  String.length (format_02d month) = 2 /\
  decimal_value 0 (format_02d month) = Some month.
Proof.
  intros Hg Hd Hm. split; [| split].
  - unfold checkin, get_user_game_list. unfold bind at 1. unfold bind at 1.
    rewrite (make_request_ok_eq _ _ _ _ _ Hg). unfold ret at 1. cbn [Response.data].
    rewrite Hd.
    do 4 (unfold bind at 1; rewrite first_get_dict). reflexivity.
  - assert (H : month < 13) by lia.
    do 13 (destruct month as [| month]; [reflexivity || lia |]). lia.
  - apply decimal_value_format_02d. lia.
Qed.

(** July, with the scripted gateway's role. *)
Lemma checkin_request_witness :
  checkin (Sim.gateway Sim.all_ok) 7 Sim.fresh =
    make_request (Sim.gateway Sim.all_ok) SIGN_URL
      [("gameId"%string, JInt 3); ("serverId"%string, JStr "76402e5b");
       ("roleId"%string, JInt 1001); ("userId"%string, JInt 2002);
       ("reqMonth"%string, JStr "07")]
      (emit (ECall FIND_ROLE_LIST_API_URL [("gameId"%string, JInt 3)]) Sim.fresh).
Proof.
  refine (proj1 (checkin_request (Sim.gateway Sim.all_ok) 7 Sim.fresh
    (Sim.reply true "roles" Sim.role_list)
    [("gameId"%string, JInt 3); ("serverId"%string, JStr "76402e5b");
     ("roleId"%string, JInt 1001); ("userId"%string, JInt 2002)] []
    eq_refl eq_refl _)).
  lia.
Defined.

(** ** A role reply without a usable first role *)

Lemma first_get_eq v key default s :
  first_get v key default s = (first_role_field v key default, s).
Proof.
  unfold first_get, first_role_field, bind, lift.
  destruct (getitem_int v 0); reflexivity.
Qed.

(** X6. Neither [checkin] nor [get_forum_list] looks at the [success] flag
    of the role reply or checks its data.  When the first role cannot be
    read (the data is [None]: [TypeError]; an empty list: [IndexError]),
    both raise that exception right after the role request, before
    submitting anything, and a run of [start] ends there: one request made,
    nothing recorded, no failure entry. *)
Theorem unreadable_roles_abort gw month s r e :
  gw (trace s) FIND_ROLE_LIST_API_URL [("gameId"%string, JInt 3)] = inl r ->
  first_role_field (Response.data r) "gameId" (JInt 2) = Raise e ->
  checkin gw month s =
    (Raise e, emit (ECall FIND_ROLE_LIST_API_URL [("gameId"%string, JInt 3)]) s) /\
  get_forum_list gw s =
    (Raise e, emit (ECall FIND_ROLE_LIST_API_URL [("gameId"%string, JInt 3)]) s) /\
  start gw month s =
    (Raise e, emit (ECall FIND_ROLE_LIST_API_URL [("gameId"%string, JInt 3)]) s) /\
  (Response.data r = JNull -> e = TypeError) /\
  (Response.data r = JList [] -> e = IndexError).
Proof.
  intros Hg He.
  assert (Hc : checkin gw month s =
    (Raise e, emit (ECall FIND_ROLE_LIST_API_URL [("gameId"%string, JInt 3)]) s)).
  { unfold checkin, get_user_game_list. unfold bind at 1. unfold bind at 1.
    rewrite (make_request_ok_eq _ _ _ _ _ Hg). unfold ret at 1.
    unfold bind at 1. rewrite first_get_eq, He. reflexivity. }
  split; [exact Hc |]. split; [| split; [| split]].
  - unfold get_forum_list, get_user_game_list. unfold bind at 1. unfold bind at 1.
    rewrite (make_request_ok_eq _ _ _ _ _ Hg). unfold ret at 1.
    unfold bind at 1. rewrite first_get_eq, He. reflexivity.
  - unfold start, checkin_stage. unfold bind at 1.
    rewrite (process_sign_action_raise _ _ _ _ _ _ _ Hc). reflexivity.
  - intros Hd. rewrite Hd in He. inversion He. reflexivity.
  - intros Hd. rewrite Hd in He. inversion He. reflexivity.
Qed.

(** The role reply carries no data: the run stops with [TypeError] after
    one request, and [main] ends without notification. *)
Lemma unreadable_roles_abort_witness :
  start gateway_without_roles 7 Sim.fresh =
    (Raise TypeError,
     emit (ECall FIND_ROLE_LIST_API_URL [("gameId"%string, JInt 3)]) Sim.fresh) /\
  notifications
    (trace (snd (main gateway_without_roles Sim.format_message 7 (Some "12345"%string) Sim.fresh))) = [].
Proof.
  split.
  - exact (proj1 (proj2 (proj2
      (unreadable_roles_abort gateway_without_roles 7 Sim.fresh
         (Sim.reply false "登录已过期" JNull) TypeError eq_refl eq_refl)))).
  - vm_compute. reflexivity.
Defined.

(** ** The detail loop and the posts of the listing *)

Lemma retry_body_ret K action i l s l1 b1 s1 :
  retry_body K action i l s = (Ret (l1, b1), s1) ->
  exists rsp s0,
    action i s = (Ret rsp, s0) /\
    l1 = mkRetry (if truthy (Response.success rsp)
                  then S (successes l) else successes l)
           (Some rsp) (S (attempts_used l)) /\
    b1 = Nat.leb K (successes l1) /\
    s1 = emit (ESleep 1 2) s0.
Proof.
  unfold retry_body. intros H.
  bind_step H rsp s0 E. bind_step H u s2 E2.
  apply modify_inv in E2. subst s2.
  apply ret_inv in H as [H ->]. inversion H; subst.
  exists rsp, s0. repeat split; assumption.
Qed.

Lemma retry_range_count K action n : forall i l s l' b s',
  for_range (retry_body K action) i n l s = (Ret (l', b), s') ->
  attempts_used l <= attempts_used l' <= attempts_used l + n /\
  successes l <= successes l' <=
    successes l + (attempts_used l' - attempts_used l) /\
  (b = true -> K <= successes l') /\
  (b = false -> attempts_used l' = attempts_used l + n) /\
  (forall j, i <= j < i + (attempts_used l' - attempts_used l) ->
     exists sj r sj', action j sj = (Ret r, sj')).
Proof.
  induction n as [| n IH]; intros i l s l' b s' H.
  - simpl in H. apply ret_inv in H as [H _]. inversion H; subst.
    repeat split; try lia; try discriminate.
  - simpl in H. bind_step H r s1 E. destruct r as [l1 b1].
    apply retry_body_ret in E as (rsp & s0 & Ea & -> & -> & ->).
    cbn [fst snd successes] in H.
    set (c := if truthy (Response.success rsp)
              then S (successes l) else successes l) in *.
    assert (Hc : successes l <= c <= S (successes l)).
    { unfold c. destruct (truthy (Response.success rsp)); lia. }
    destruct (Nat.leb K c) eqn:Ek.
    + apply ret_inv in H as [H _]. inversion H; subst. cbn [attempts_used successes].
      apply Nat.leb_le in Ek.
      repeat split; try lia; try discriminate.
      intros j Hj. assert (j = i) by lia. subst j. eauto.
    + destruct (IH _ _ _ _ _ _ H) as (H1 & H2 & H3 & H4 & H5).
      cbn [attempts_used successes] in H1, H2, H4, H5.
      repeat split; try lia; auto.
      * intros Hb. specialize (H4 Hb). lia.
      * intros j Hj. destruct (Nat.eq_dec j i) as [-> | Hne]; [eauto |].
        apply H5. lia.
Qed.

Lemma get_post_detail_out_of_range gw rsp fields posts i s :
  Response.data rsp = JDict fields ->
  lookup "postList" fields = Some (JList posts) ->
  length posts <= i ->
  get_post_detail gw rsp i s = (Raise IndexError, s).
Proof.
  intros Hd Hl Hi. unfold get_post_detail, bind, lift.
  rewrite Hd. cbn [getitem_key]. rewrite Hl. cbn [getitem_int].
  destruct (nth_error posts i) eqn:E; [| reflexivity].
  exfalso. apply nth_error_None in Hi. congruence.
Qed.

Lemma detail_range_needs_posts gw rsp fields posts s l' b s' :
  Response.data rsp = JDict fields ->
  lookup "postList" fields = Some (JList posts) ->
  for_range (retry_body 3 (get_post_detail gw rsp)) 0 5 (mkRetry 0 None 0) s
    = (Ret (l', b), s') ->
  (b = true -> 3 <= length posts) /\ (b = false -> 5 <= length posts).
Proof.
  intros Hd Hl H.
  destruct (retry_range_count _ _ _ _ _ _ _ _ _ H) as (H1 & H2 & H3 & H4 & H5).
  cbn [attempts_used successes] in *.
  assert (Hj : forall j, j < attempts_used l' -> j < length posts).
  { intros j Hj. destruct (Nat.lt_ge_cases j (length posts)) as [| Hge]; [assumption |].
    destruct (H5 j) as (sj & r & sj' & E); [lia |].
    rewrite (get_post_detail_out_of_range _ _ _ _ _ _ Hd Hl Hge) in E. discriminate. }
  split; intros Hb.
  - specialize (H3 Hb). apply (Hj 2). lia.
  - specialize (H4 Hb). apply (Hj 4). lia.
Qed.

Lemma after_details_posts gw s detail s2 rsp s1 fields posts :
  after_details gw s detail s2 ->
  get_forum_list gw s = (Ret rsp, s1) ->
  Response.data rsp = JDict fields ->
  lookup "postList" fields = Some (JList posts) ->
  3 <= length posts.
Proof.
  intros (rsp' & s1' & l & s1'' & (s0 & E0 & _ & _) & E & _ & _) Eg Hd Hl.
  rewrite Eg in E0. inversion E0; subst rsp'.
  destruct (detail_range_needs_posts _ _ _ _ _ _ _ _ Hd Hl E) as [H _].
  exact (H eq_refl).
Qed.

Lemma In_dict_set_same k v d : In (k, v) (dict_set k v d).
Proof.
  induction d as [| [k' v'] d IH]; simpl; [left; reflexivity |].
  destruct (String.eqb k k'); [left; reflexivity | right; exact IH].
Qed.

Lemma In_dict_set_other k v k' v' d :
  k <> k' -> In (k, v) d -> In (k, v) (dict_set k' v' d).
Proof.
  intros Hne. induction d as [| [k0 v0] d IH]; simpl; [contradiction |].
  intros [H | H].
  - inversion H; subst. destruct (String.eqb_spec k' k); [congruence |].
    left. reflexivity.
  - destruct (String.eqb k' k0); right; [exact H | exact (IH H)].
Qed.

(** X7. Indexing the post list is not guarded: [get_post_detail] with an
    index at or past the end of the list raises [IndexError] and sends
    nothing.  As the detail loop needs three successes, a listing that
    reports success with fewer than three posts always makes [forum_task]
    raise: it never returns, and records no failure entry. *)
Theorem short_listing_raises gw s rsp s1 fields posts :
  get_forum_list gw s = (Ret rsp, s1) ->
  truthy (Response.success rsp) = true ->
  Response.data rsp = JDict fields ->
  lookup "postList" fields = Some (JList posts) ->
  length posts < 3 ->
  (forall i st, length posts <= i ->
     get_post_detail gw rsp i st = (Raise IndexError, st)) /\
  exists e s',
    forum_task gw s = (Raise e, s') /\ exceptions s' = exceptions s.
Proof.
  intros Eg T Hd Hl Hlen. split.
  - intros i st Hi. eapply get_post_detail_out_of_range; eassumption.
  - destruct (forum_task gw s) as [[[] | e] s'] eqn:E.
    + exfalso. destruct (forum_task_cases _ _ _ E) as (ext & _ & Hend).
      destruct Hend as [rsp' s1' E' T' _ _ _ | rsp' s1' l s2 r Ha E' _ _ _ _
         | d s1' l s2 r Ha _ _ _ _ _ | d s1' l s2 r Ha _ _ _ _ _
         | d s1' l s2 Ha _ _ _ _].
      * rewrite Eg in E'. inversion E'; subst. congruence.
      * destruct Ha as (s0 & E0 & _ & _). rewrite Eg in E0. inversion E0; subst rsp'.
        destruct (detail_range_needs_posts _ _ _ _ _ _ _ _ Hd Hl E') as [_ H].
        specialize (H eq_refl). lia.
      * pose proof (after_details_posts _ _ _ _ _ _ _ _ Ha Eg Hd Hl). lia.
      * destruct Ha as (s2' & l2 & s2'' & Ha & _).
        pose proof (after_details_posts _ _ _ _ _ _ _ _ Ha Eg Hd Hl). lia.
      * destruct Ha as (s2' & l2 & s2'' & Ha & _).
        pose proof (after_details_posts _ _ _ _ _ _ _ _ Ha Eg Hd Hl). lia.
    + exists e, s'. split; [reflexivity |]. eapply forum_task_raise. exact E.
Qed.

(** Two posts, every reply reporting success: the third detail attempt
    raises [IndexError]. *)
Lemma short_listing_raises_witness :
  exists e s',
    forum_task (gateway_with_posts 2 (fun _ => true)) Sim.fresh = (Raise e, s') /\
    exceptions s' = exceptions Sim.fresh.
Proof.
  refine (proj2 (short_listing_raises (gateway_with_posts 2 (fun _ => true))
    Sim.fresh
    (Sim.reply true "list reply"
       (JDict [("postList"%string, JList (firstn 2 Sim.five_posts))]))
    (snd (get_forum_list (gateway_with_posts 2 (fun _ => true)) Sim.fresh))
    [("postList"%string, JList (firstn 2 Sim.five_posts))]
    (firstn 2 Sim.five_posts) eq_refl eq_refl eq_refl eq_refl _)).
  simpl. lia.
Defined.

(** X8. With fewer than five posts in a listing that reports success, the
    detail loop can never run out of attempts, so a failing detail step is
    never recorded as a failure entry: whenever [forum_task] returns, the
    listing held at least three posts and the success message of the detail
    step is in the result (a detail step that cannot get three successes
    ends in [IndexError] instead). *)
Theorem no_detail_exhaustion_below_five gw s rsp s1 fields posts s' :
  get_forum_list gw s = (Ret rsp, s1) ->
  truthy (Response.success rsp) = true ->
  Response.data rsp = JDict fields ->
  lookup "postList" fields = Some (JList posts) ->
  length posts < 5 ->
  forum_task gw s = (Ret tt, s') ->
  3 <= length posts /\
  In ("get_post_detail", "获取帖子详情成功")%string (result s') /\
  (forall st l st',
     for_range (retry_body 3 (get_post_detail gw rsp)) 0 5 (mkRetry 0 None 0) st
       <> (Ret (l, false), st')).
Proof.
  intros Eg T Hd Hl Hlen E.
  assert (Hno : forall st l st',
     for_range (retry_body 3 (get_post_detail gw rsp)) 0 5 (mkRetry 0 None 0) st
       <> (Ret (l, false), st')).
  { intros st l st' H.
    destruct (detail_range_needs_posts _ _ _ _ _ _ _ _ Hd Hl H) as [_ H5].
    specialize (H5 eq_refl). lia. }
  destruct (forum_task_cases _ _ _ E) as (ext & _ & Hend).
  assert (Hin : forall r, In ("get_post_detail", "获取帖子详情成功")%string (detailed r)).
  { intros r. apply In_dict_set_same. }
  destruct Hend as [rsp' s1' E' T' _ _ _ | rsp' s1' l s2 r Ha E' _ _ _ _
     | d s1' l s2 r Ha _ _ _ Hr _ | d s1' l s2 r Ha _ _ _ Hr _
     | d s1' l s2 Ha _ _ Hr _].
  - exfalso. rewrite Eg in E'. inversion E'; subst. congruence.
  - exfalso. destruct Ha as (s0 & E0 & _ & _). rewrite Eg in E0.
    inversion E0; subst rsp'. exact (Hno _ _ _ E').
  - split; [exact (after_details_posts _ _ _ _ _ _ _ _ Ha Eg Hd Hl) |].
    split; [rewrite Hr; apply Hin | exact Hno].
  - destruct Ha as (s2' & l2 & s2'' & Ha & _).
    split; [exact (after_details_posts _ _ _ _ _ _ _ _ Ha Eg Hd Hl) |].
    split; [| exact Hno]. rewrite Hr. unfold shared.
    apply In_dict_set_other; [discriminate | apply Hin].
  - destruct Ha as (s2' & l2 & s2'' & Ha & _).
    split; [exact (after_details_posts _ _ _ _ _ _ _ _ Ha Eg Hd Hl) |].
    split; [| exact Hno]. rewrite Hr. unfold liked, shared.
    apply In_dict_set_other; [discriminate |].
    apply In_dict_set_other; [discriminate | apply Hin].
Qed.

(** Four posts, the second detail reply reporting failure: the loop stops
    at its fourth attempt and the task goes on. *)
Lemma no_detail_exhaustion_below_five_witness :
  3 <= length (firstn 4 Sim.five_posts) /\
  In ("get_post_detail", "获取帖子详情成功")%string
    (result (snd (forum_task (gateway_with_posts 4 (fun k => negb (Nat.eqb k 1)))
                    Sim.fresh))).
Proof.
  pose (gw := gateway_with_posts 4 (fun k => negb (Nat.eqb k 1))).
  destruct (no_detail_exhaustion_below_five gw Sim.fresh
    (Sim.reply true "list reply"
       (JDict [("postList"%string, JList (firstn 4 Sim.five_posts))]))
    (snd (get_forum_list gw Sim.fresh))
    [("postList"%string, JList (firstn 4 Sim.five_posts))]
    (firstn 4 Sim.five_posts)
    (snd (forum_task gw Sim.fresh))) as (H3 & Hin & _).
  - reflexivity.
  - reflexivity.
  - reflexivity.
  - reflexivity.
  - simpl. lia.
  - vm_compute. reflexivity.
  - split; [exact H3 | exact Hin].
Defined.

(** ** The reply a counting loop leaves behind *)




(** ** A budget of requests and sleeps *)

Lemma count_requests_app t1 t2 :
  count_requests (t1 ++ t2) = count_requests t1 + count_requests t2.
Proof. unfold count_requests. rewrite filter_app, length_app. reflexivity. Qed.

Lemma spends_le {A : Type} r z r' z' (m : M A) :
  spends r z m -> r <= r' -> z <= z' -> spends r' z' m.
Proof.
  intros H Hr Hz s o s' E. destruct (H _ _ _ E) as (ext & Ht & H1 & H2).
  exists ext. repeat split; [exact Ht | lia | lia].
Qed.

Lemma spends_quiet {A : Type} (m : M A) :
  (forall s o s', m s = (o, s') -> trace s' = trace s) -> spends 0 0 m.
Proof.
  intros H s o s' E. exists []. rewrite app_nil_r.
  repeat split; [exact (H _ _ _ E) | apply Nat.le_refl | apply Nat.le_refl].
Qed.

Lemma spends_ret {A : Type} (a : A) : spends 0 0 (ret a).
Proof. apply spends_quiet. intros s o s' H. inversion H. reflexivity. Qed.

Lemma spends_raise {A : Type} (e : exn) : spends 0 0 (@raise A e).
Proof. apply spends_quiet. intros s o s' H. inversion H. reflexivity. Qed.

Lemma spends_lift {A : Type} (x : outcome A) : spends 0 0 (lift x).
Proof. apply spends_quiet. intros s o s' H. inversion H. reflexivity. Qed.

Lemma spends_set_result k v : spends 0 0 (modify (set_result k v)).
Proof. apply spends_quiet. intros s o s' H. inversion H. reflexivity. Qed.

Lemma spends_record_failure f rsp : spends 0 0 (record_failure f rsp).
Proof. apply spends_quiet. intros s o s' H. inversion H. reflexivity. Qed.

Lemma spends_sleep : spends 0 1 sleep.
Proof.
  intros s o s' H. inversion H; subst. exists [ESleep 1 2].
  repeat split; simpl; try reflexivity; lia.
Qed.

Lemma spends_make_request gw u b : spends 1 0 (make_request gw u b).
Proof.
  intros s o s' H. unfold make_request in H. exists [ECall u b].
  destruct (gw (trace s) u b); inversion H; subst; repeat split; simpl;
    try reflexivity; lia.
Qed.

Lemma spends_bind {A B : Type} r1 z1 r2 z2 (m : M A) (k : A -> M B) :
  spends r1 z1 m -> (forall a, spends r2 z2 (k a)) ->
  spends (r1 + r2) (z1 + z2) (bind m k).
Proof.
  intros Hm Hk s o s' H.
  destruct (bind_ret_inv _ _ _ _ _ H) as [(a & s1 & E1 & E2) | (e & E1 & ->)].
  - destruct (Hm _ _ _ E1) as (x1 & T1 & R1 & Z1).
    destruct (Hk _ _ _ _ E2) as (x2 & T2 & R2 & Z2).
    exists (x1 ++ x2). rewrite T2, T1, app_assoc, count_requests_app, count_sleeps_app.
    repeat split; lia.
  - destruct (Hm _ _ _ E1) as (x1 & T1 & R1 & Z1).
    exists x1. repeat split; [exact T1 | lia | lia].
Qed.

Lemma spends_for_range {L : Type} r z (body : nat -> L -> M (L * bool)) :
  (forall i l, spends r z (body i l)) ->
  forall n i l, spends (n * r) (n * z) (for_range body i n l).
Proof.
  intros Hb. induction n as [| n IH]; intros i l.
  - apply spends_ret.
  - cbn [for_range]. apply spends_le with (r + n * r) (z + n * z); [| simpl; lia ..].
    apply spends_bind; [apply Hb |].
    intros x. destruct (snd x).
    + eapply spends_le; [apply spends_ret | lia | lia].
    + apply IH.
Qed.

Ltac spend_lifts :=
  repeat (apply (spends_bind 0 0); [apply spends_lift | intro]).

Lemma spends_first_get v k d : spends 0 0 (first_get v k d).
Proof.
  unfold first_get. apply (spends_bind 0 0 0 0); [apply spends_lift |].
  intro. apply spends_lift.
Qed.

Lemma spends_post_detail_field rsp k : spends 0 0 (post_detail_field rsp k).
Proof.
  unfold post_detail_field. apply (spends_bind 0 0 0 0); [apply spends_lift |].
  intro. apply spends_lift.
Qed.

Lemma spends_get_user_game_list gw g : spends 1 0 (get_user_game_list gw g).
Proof.
  unfold get_user_game_list.
  apply (spends_bind 1 0 0 0); [apply spends_make_request | intro; apply spends_ret].
Qed.

Lemma spends_get_forum_list gw : spends 2 0 (get_forum_list gw).
Proof.
  unfold get_forum_list.
  apply (spends_bind 1 0 1 0); [apply spends_get_user_game_list | intro].
  apply (spends_bind 0 0 1 0); [apply spends_first_get | intro].
  apply spends_make_request.
Qed.

Lemma spends_get_post_detail gw rsp i : spends 1 0 (get_post_detail gw rsp i).
Proof. unfold get_post_detail. spend_lifts. apply spends_make_request. Qed.

Lemma spends_share_post gw rsp : spends 1 0 (share_post gw rsp).
Proof. unfold share_post. spend_lifts. apply spends_make_request. Qed.

Lemma spends_like_post gw rsp op : spends 1 0 (like_post gw rsp op).
Proof.
  unfold like_post.
  repeat (apply (spends_bind 0 0);
          [first [apply spends_post_detail_field | apply spends_lift] | intro]).
  apply spends_make_request.
Qed.

Lemma spends_checkin gw month : spends 2 0 (checkin gw month).
Proof.
  unfold checkin.
  apply (spends_bind 1 0 1 0); [apply spends_get_user_game_list | intro].
  repeat (apply (spends_bind 0 0); [apply spends_first_get | intro]).
  apply spends_make_request.
Qed.

Lemma spends_sign_in gw : spends 1 0 (sign_in gw).
Proof. apply spends_make_request. Qed.

Lemma spends_process_sign_action r z name (action : M Response.t) ok_text fail_text :
  spends r z action ->
  spends r z (_process_sign_action name action ok_text fail_text).
Proof.
  intros Ha. unfold _process_sign_action.
  apply spends_le with (r + 0) (z + 0); [| lia | lia].
  apply spends_bind; [exact Ha | intro resp].
  destruct (truthy (Response.success resp));
    [apply spends_set_result | apply spends_record_failure].
Qed.

Lemma spends_retry_body K action i l :
  (forall j, spends 1 0 (action j)) -> spends 1 1 (retry_body K action i l).
Proof.
  intros Ha. unfold retry_body.
  apply (spends_bind 1 0 0 1); [apply Ha | intro].
  apply (spends_bind 0 1 0 0); [apply spends_sleep | intro; apply spends_ret].
Qed.

Lemma spends_retry_loop N K action f :
  (forall j, spends 1 0 (action j)) -> spends N N (retry_loop N K action f).
Proof.
  intros Ha. unfold retry_loop.
  apply spends_le with (N * 1 + 0) (N * 1 + 0); [| lia | lia].
  apply spends_bind.
  - apply spends_for_range. intros. apply spends_retry_body, Ha.
  - intros r. destruct (snd r); [apply spends_ret |].
    destruct (last_result (fst r)); [| apply spends_raise].
    apply (spends_bind 0 0 0 0); [apply spends_record_failure |].
    intro. apply spends_ret.
Qed.

(** One iteration of the like loop: a like request only while [like_post]
    is true, an unlike request only after a like that reported success.  A
    second request in one iteration is paid for by a counted success or by
    [like_post] turning false. *)
Lemma like_body_budget gw detail i l s o s' :
  like_body gw detail i l s = (o, s') ->
  exists ext,
    trace s' = trace s ++ ext /\
    count_sleeps ext <= 2 /\
    match o with
    | Ret (l', b) =>
        count_requests ext + like_debt l <= 1 + like_debt l' /\
        b = Nat.leb 5 (like_successes l') /\
        (like_successes l' = like_successes l \/
         like_successes l' = S (like_successes l) /\ like_flag l' = true)
    | Raise _ => count_requests ext <= if like_flag l then 2 else 1
    end.
Proof.
  unfold like_body. intros H.
  apply bind_ret_inv in H as [(l1 & s1 & E1 & H) | (e & E1 & ->)].
  - assert (H1 : exists ext1,
               trace s1 = trace s ++ ext1 /\
               count_requests ext1 <= (if like_flag l then 1 else 0) /\
               count_sleeps ext1 <= 0 /\
               like_flag l1 = like_flag l /\
               like_successes l1 = like_successes l).
    { destruct (like_flag l) eqn:Ef.
      - apply bind_ret_inv in E1 as [(rsp & s0 & E0 & E1) | (e & _ & He)];
          [| discriminate].
        apply ret_inv in E1 as [<- ->].
        destruct (spends_like_post _ _ _ _ _ _ E0) as (x & T & R & Z).
        exists x. cbn [like_flag like_successes]. repeat split; assumption.
      - apply ret_inv in E1 as [<- ->]. exists []. rewrite app_nil_r.
        repeat split; try assumption; apply Nat.le_refl. }
    destruct H1 as (ext1 & T1 & R1 & Z1 & Hf1 & Hs1).
    destruct (rsp_like_post l1) as [rsp |].
    2:{ inversion H; subst. exists ext1.
        split; [exact T1 |]. split; [lia |]. destruct (like_flag l); lia. }
    apply bind_ret_inv in H as [(l2 & s2 & E2 & H) | (e & E2 & ->)].
    + assert (H2 : exists ext2,
                 trace s2 = trace s1 ++ ext2 /\
                 count_sleeps ext2 <= 1 /\
                 (l2 = l1 /\ ext2 = [] \/
                  count_requests ext2 <= 1 /\
                  like_debt l2 = S (like_successes l1) /\
                  (like_successes l2 = like_successes l1 \/
                   like_successes l2 = S (like_successes l1) /\
                   like_flag l2 = true))).
      { destruct (truthy (Response.success rsp)).
        - apply bind_ret_inv in E2 as [(u & s3 & E3 & E2) | (e & _ & He)];
            [| discriminate].
          apply modify_inv in E3. subst s3.
          apply bind_ret_inv in E2 as [(r2 & s4 & E4 & E2) | (e & _ & He)];
            [| discriminate].
          destruct (spends_like_post _ _ _ _ _ _ E4) as (x & T & R & Z).
          exists (ESleep 1 2 :: x). split.
          { destruct (truthy (Response.success r2));
              apply ret_inv in E2 as [_ ->]; rewrite T; simpl;
              rewrite <- app_assoc; reflexivity. }
          split.
          { change (ESleep 1 2 :: x) with ([ESleep 1 2] ++ x).
            rewrite count_sleeps_app. simpl. lia. }
          right. split.
          { change (ESleep 1 2 :: x) with ([ESleep 1 2] ++ x).
            rewrite count_requests_app. simpl. lia. }
          destruct (truthy (Response.success r2));
            apply ret_inv in E2 as [<- _]; unfold like_debt; simpl;
            split; auto; lia.
        - apply ret_inv in E2 as [<- ->]. exists []. rewrite app_nil_r.
          split; [reflexivity |]. split; [unfold count_sleeps; simpl; lia |].
          left. split; reflexivity. }
      destruct H2 as (ext2 & T2 & Z2 & Hl2).
      apply bind_ret_inv in H as [(u & s3 & E3 & H) | (e & E3 & _)];
        [| discriminate].
      apply modify_inv in E3. subst s3. inversion H; subst. clear H.
      exists (ext1 ++ ext2 ++ [ESleep 1 2]). split.
      { simpl. rewrite T2, T1, <- !app_assoc. reflexivity. }
      rewrite !count_sleeps_app, !count_requests_app.
      change (count_sleeps [ESleep 1 2]) with 1.
      change (count_requests [ESleep 1 2]) with 0.
      split; [lia |].
      cbn [like_successes]. split; [| split; [reflexivity |]].
      * unfold like_debt at 2. cbn [like_successes like_flag].
        fold (like_debt l2).
        destruct Hl2 as [[-> ->] | (R2 & Hd & _)].
        -- change (count_requests []) with 0. unfold like_debt.
           rewrite Hf1, Hs1. destruct (like_flag l); lia.
        -- rewrite Hd. unfold like_debt. rewrite Hs1.
           destruct (like_flag l); lia.
      * destruct Hl2 as [[-> ->] | (_ & _ & [Hs | [Hs Hf]])].
        -- left. exact Hs1.
        -- left. congruence.
        -- right. split; [congruence | exact Hf].
    + (* the unlike request raised *)
      destruct (truthy (Response.success rsp)); [| discriminate].
      apply bind_ret_inv in E2 as [(u & s3 & E3 & E2) | (e' & E3 & _)];
        [| discriminate].
      apply modify_inv in E3. subst s3.
      apply bind_ret_inv in E2 as [(r2 & s4 & E4 & E2) | (e' & E4 & _)].
      { destruct (truthy (Response.success r2)); discriminate. }
      destruct (spends_like_post _ _ _ _ _ _ E4) as (x & T & R & Z).
      exists (ext1 ++ ESleep 1 2 :: x). split.
      { rewrite T. simpl. rewrite T1, <- !app_assoc. reflexivity. }
      change (ESleep 1 2 :: x) with ([ESleep 1 2] ++ x).
      rewrite !count_sleeps_app, !count_requests_app.
      change (count_sleeps [ESleep 1 2]) with 1.
      change (count_requests [ESleep 1 2]) with 0.
      split; [lia |]. destruct (like_flag l); lia.
  - (* the like request raised *)
    destruct (like_flag l); [| discriminate].
    apply bind_ret_inv in E1 as [(rsp & s0 & E0 & E1) | (e' & E0 & _)];
      [discriminate |].
    destruct (spends_like_post _ _ _ _ _ _ E0) as (x & T & R & Z).
    exists x. split; [exact T |]. split; lia.
Qed.

Lemma like_range_budget gw detail n : forall i l s o s',
  for_range (like_body gw detail) i n l s = (o, s') ->
  like_successes l < 5 ->
  exists ext,
    trace s' = trace s ++ ext /\
    count_requests ext + like_debt l <= n + 5 /\
    count_sleeps ext <= n * 2.
Proof.
  induction n as [| n IH]; intros i l s o s' H Hlt.
  - inversion H; subst. exists []. rewrite app_nil_r.
    split; [reflexivity |]. unfold like_debt, count_requests, count_sleeps.
    simpl. split; [destruct (like_flag l); lia | lia].
  - cbn [for_range] in H.
    apply bind_ret_inv in H as [(r & s1 & E1 & H) | (e & E1 & ->)].
    + destruct r as [l1 b].
      destruct (like_body_budget _ _ _ _ _ _ _ E1) as (x1 & T1 & Z1 & R1 & Hb & Hs).
      cbn [fst snd] in H. destruct b.
      * inversion H; subst. exists x1. split; [exact T1 |].
        symmetry in Hb. apply Nat.leb_le in Hb.
        assert (like_debt l1 = 5).
        { destruct Hs as [Hs | [Hs Hf]]; [lia |].
          unfold like_debt. rewrite Hf. lia. }
        split; lia.
      * symmetry in Hb. apply Nat.leb_gt in Hb.
        destruct (IH _ _ _ _ _ H Hb) as (x2 & T2 & R2 & Z2).
        exists (x1 ++ x2).
        rewrite T2, T1, app_assoc, count_requests_app, count_sleeps_app.
        split; [reflexivity |]. split; lia.
    + destruct (like_body_budget _ _ _ _ _ _ _ E1) as (x1 & T1 & Z1 & R1).
      exists x1. split; [exact T1 |].
      unfold like_debt. destruct (like_flag l); split; lia.
Qed.

Lemma spends_like_loop gw rsp : spends 14 18 (like_loop gw rsp).
Proof.
  unfold like_loop.
  apply (spends_bind 14 18 0 0).
  - intros s o s' H.
    destruct (like_range_budget _ _ _ _ _ _ _ _ H) as (x & T & R & Z);
      [simpl; lia |].
    exists x. unfold like_debt in R. simpl in R. split; [exact T |]. split; lia.
  - intros r. destruct (snd r); [apply spends_ret |].
    destruct (rsp_like_post (fst r)); [| apply spends_raise].
    apply (spends_bind 0 0 0 0); [apply spends_record_failure |].
    intro. apply spends_ret.
Qed.

Lemma spends_forum_task gw : spends 22 24 (forum_task gw).
Proof.
  unfold forum_task.
  apply (spends_bind 2 0 20 24); [apply spends_get_forum_list | intro rsp].
  destruct (negb (truthy (Response.success rsp))).
  { eapply spends_le; [apply spends_record_failure | lia | lia]. }
  apply (spends_bind 0 0 20 24); [apply spends_set_result | intro].
  apply (spends_bind 5 5 15 19).
  { apply spends_retry_loop. intro. apply spends_get_post_detail. }
  intros r1. destruct (negb (snd r1)).
  { eapply spends_le; [apply spends_ret | lia | lia]. }
  destruct (last_result (fst r1)) as [detail |].
  2:{ eapply spends_le; [apply spends_raise | lia | lia]. }
  apply (spends_bind 0 0 15 19); [apply spends_set_result | intro].
  apply (spends_bind 1 1 14 18).
  { apply spends_retry_loop. intro. apply spends_share_post. }
  intros r2. destruct (negb (snd r2)).
  { eapply spends_le; [apply spends_ret | lia | lia]. }
  apply (spends_bind 0 0 14 18); [apply spends_set_result | intro].
  apply (spends_bind 14 18 0 0); [apply spends_like_loop | intro r3].
  destruct (negb (snd r3)); [apply spends_ret | apply spends_set_result].
Qed.

Lemma spends_log : spends 0 0 _log.
Proof.
  intros s o s' H. unfold _log in H.
  destruct (str_truthy (msg s)).
  - exists [ELog INFO (msg s)].
    destruct (exceptions (emit (ELog INFO (msg s)) s)); inversion H; subst;
      repeat split; simpl; try reflexivity; lia.
  - exists []. rewrite app_nil_r.
    destruct (exceptions s); inversion H; subst; repeat split; apply Nat.le_refl.
Qed.

Lemma spends_start gw month : spends 25 24 (start gw month).
Proof.
  unfold start.
  apply (spends_bind 2 0 23 24).
  { apply spends_process_sign_action, spends_checkin. }
  intro. apply (spends_bind 1 0 22 24).
  { apply spends_process_sign_action, spends_sign_in. }
  intro. apply (spends_bind 22 24 0 0); [apply spends_forum_task |].
  intro. apply spends_log.
Qed.

Lemma spends_init uid : spends 0 0 (__init__ uid).
Proof.
  intros s o s' H. unfold __init__ in H.
  destruct uid as [[| c u] |]; inversion H; subst; simpl;
    first [ solve [exists []; rewrite app_nil_r; repeat split; apply Nat.le_refl]
          | solve [eexists; split; [reflexivity | split; apply Nat.le_refl]] ].
Qed.

(** What [main] adds after the client has run: a log line, a notification,
    or both, and no request. *)
Lemma main_tail gw format_message month uid s :
  exists tail,
    trace (snd (main gw format_message month uid s))
    = trace (snd (client_run gw month uid s)) ++ tail /\
    count_requests tail = 0 /\ count_sleeps tail = 0.
Proof.
  unfold main, client_run.
  destruct ((__init__ uid ;; start gw month) s) as [[u | e] s1]; simpl.
  - destruct (str_truthy (msg s1)); simpl.
    + eexists; split; [reflexivity | split; reflexivity].
    + exists []. rewrite app_nil_r. repeat split.
  - destruct e as [m | | | | | |];
      [destruct (format_message m) as [text | x] |..];
      simpl; rewrite <- ?app_assoc;
      first [ solve [exists []; rewrite app_nil_r; repeat split]
            | eexists; (split; [reflexivity | split; reflexivity]) ].
Qed.

(** X10. However a run ends and whatever the remote side answers, the
    check-in sends at most 2 requests, the community sign-in 1, the like
    loop at most 14 with at most 18 sleeps, and the forum task at most 22
    requests with at most 24 sleeps; a whole run of [main] sends at most 25
    requests and sleeps at most 24 times.  Both bounds are reached. *)
Theorem request_budget gw format_message month uid s :
  spends 2 0 (checkin gw month) /\
  spends 1 0 (sign_in gw) /\
  (forall rsp_getPostDetail, spends 14 18 (like_loop gw rsp_getPostDetail)) /\
  spends 22 24 (forum_task gw) /\
  spends 25 24 (start gw month) /\
  (exists ext,
     trace (snd (main gw format_message month uid s)) = trace s ++ ext /\
     count_requests ext <= 25 /\ count_sleeps ext <= 24) /\
  count_requests (trace (snd (main busiest Sim.format_message 1 (Some "12345") Sim.fresh))) = 25 /\
  count_sleeps (trace (snd (main busiest Sim.format_message 1 (Some "12345") Sim.fresh))) = 24.
Proof.
  split; [apply spends_checkin |].
  split; [apply spends_sign_in |].
  split; [intro; apply spends_like_loop |].
  split; [apply spends_forum_task |].
  split; [apply spends_start |].
  split; [| split; vm_compute; reflexivity].
  destruct (main_tail gw format_message month uid s) as (tail & Ht & Hr & Hz).
  assert (Hc : spends 25 24 (client_run gw month uid)).
  { unfold client_run.
    apply (spends_bind 0 0 25 24); [apply spends_init | intro; apply spends_start]. }
  destruct (client_run gw month uid s) as [o s1] eqn:E.
  destruct (Hc _ _ _ E) as (ext & T & R & Z).
  exists (ext ++ tail). simpl in Ht.
  rewrite Ht, T, app_assoc, count_requests_app, count_sleeps_app.
  repeat split; lia.
Qed.

(** ** Pacing *)

Lemma paced_app t1 t2 :
  paced t1 = true -> paced t2 = true -> paced (t1 ++ t2) = true.
Proof.
  revert t2. induction t1 as [| e t1 IH]; intros t2 H1 H2; [exact H2 |].
  destruct e as [u b | lo hi | lv x | x]; cbn [app paced] in *;
    try (apply IH; assumption).
  destruct t1 as [| [u' b' | lo hi | lv x | x] t1]; simpl in H1;
    try discriminate.
  apply IH; assumption.
Qed.

Lemma paced_counts_upto n : forall t,
  length t <= n -> paced t = true -> count_requests t <= count_sleeps t.
Proof.
  unfold count_requests, count_sleeps.
  induction n as [| n IH]; intros t Hn H.
  - destruct t; [apply Nat.le_refl | simpl in Hn; lia].
  - destruct t as [| e t]; [apply Nat.le_refl |].
    simpl in Hn.
    destruct e as [u b | lo hi | lv x | x]; cbn [paced] in H.
    + destruct t as [| [u' b' | lo hi | lv x | x] t]; simpl in H;
        try discriminate.
      simpl in Hn. assert (Ht := IH t ltac:(lia) H). simpl. lia.
    + assert (Ht := IH t ltac:(lia) H). simpl. lia.
    + assert (Ht := IH t ltac:(lia) H). simpl. lia.
    + assert (Ht := IH t ltac:(lia) H). simpl. lia.
Qed.

Lemma paced_counts t : paced t = true -> count_requests t <= count_sleeps t.
Proof. apply (paced_counts_upto (length t)), Nat.le_refl. Qed.

Lemma paced_run_quiet {A : Type} (m : M A) :
  (forall s a s', m s = (Ret a, s') -> trace s' = trace s) -> paced_run m.
Proof.
  intros H s a s' E. exists []. rewrite app_nil_r.
  split; [exact (H _ _ _ E) | reflexivity].
Qed.

Lemma paced_run_ret {A : Type} (a : A) : paced_run (ret a).
Proof. apply paced_run_quiet. intros s b s' H. inversion H. reflexivity. Qed.

Lemma paced_run_raise {A : Type} (e : exn) : paced_run (@raise A e).
Proof. intros s a s' H. discriminate. Qed.

Lemma paced_run_set_result k v : paced_run (modify (set_result k v)).
Proof. apply paced_run_quiet. intros s b s' H. inversion H. reflexivity. Qed.

Lemma paced_run_record_failure f rsp : paced_run (record_failure f rsp).
Proof. apply paced_run_quiet. intros s b s' H. inversion H. reflexivity. Qed.

Lemma paced_run_bind {A B : Type} (m : M A) (k : A -> M B) :
  paced_run m -> (forall a, paced_run (k a)) -> paced_run (bind m k).
Proof.
  intros Hm Hk s b s' H. bind_step H a s1 E.
  destruct (Hm _ _ _ E) as (x1 & T1 & P1).
  destruct (Hk _ _ _ _ H) as (x2 & T2 & P2).
  exists (x1 ++ x2). rewrite T2, T1, app_assoc.
  split; [reflexivity | apply paced_app; assumption].
Qed.

Lemma paced_run_for_range {L : Type} (body : nat -> L -> M (L * bool)) :
  (forall i l, paced_run (body i l)) ->
  forall n i l, paced_run (for_range body i n l).
Proof.
  intros Hb. induction n as [| n IH]; intros i l.
  - apply paced_run_ret.
  - cbn [for_range]. apply paced_run_bind; [apply Hb |].
    intros r. destruct (snd r); [apply paced_run_ret | apply IH].
Qed.

Lemma share_post_ret gw rsp s r s' :
  share_post gw rsp s = (Ret r, s') -> exists b, s' = emit (ECall SHARE_TASK_URL b) s.
Proof.
  unfold share_post. intros H.
  bind_step H g s1 E. apply lift_ret in E as [_ ->].
  apply make_request_ret in H as [_ ->]. eexists. reflexivity.
Qed.

Lemma get_post_detail_ret gw rsp i s r s' :
  get_post_detail gw rsp i s = (Ret r, s') ->
  exists b, s' = emit (ECall GET_POST_DETAIL_URL b) s.
Proof.
  unfold get_post_detail. intros H.
  bind_step H a1 s1 E1. apply lift_ret in E1 as [_ ->].
  bind_step H a2 s2 E2. apply lift_ret in E2 as [_ ->].
  bind_step H a3 s3 E3. apply lift_ret in E3 as [_ ->].
  apply make_request_ret in H as [_ ->]. eexists. reflexivity.
Qed.

Lemma post_detail_field_ret rsp k s x s' :
  post_detail_field rsp k s = (Ret x, s') -> s' = s.
Proof.
  unfold post_detail_field. intros H.
  bind_step H a1 s1 E1. apply lift_ret in E1 as [_ ->].
  apply lift_ret in H as [_ ->]. reflexivity.
Qed.

Lemma like_post_ret gw rsp op s r s' :
  like_post gw rsp op s = (Ret r, s') ->
  exists b,
    lookup "operateType" b = Some (JInt op) /\
    s' = emit (ECall LIKE_URL b) s.
Proof.
  unfold like_post. intros H.
  bind_step H a1 s1 E1. apply post_detail_field_ret in E1 as ->.
  bind_step H a2 s2 E2. apply lift_ret in E2 as [_ ->].
  bind_step H a3 s3 E3. apply post_detail_field_ret in E3 as ->.
  bind_step H a4 s4 E4. apply post_detail_field_ret in E4 as ->.
  bind_step H a5 s5 E5. apply post_detail_field_ret in E5 as ->.
  apply make_request_ret in H as [_ ->]. eexists. split; [| reflexivity].
  reflexivity.
Qed.

Lemma paced_retry_body K action i l :
  (forall j s r s', action j s = (Ret r, s') ->
     exists u b, s' = emit (ECall u b) s) ->
  paced_run (retry_body K action i l).
Proof.
  intros Ha s [l1 b1] s' H.
  apply retry_body_ret in H as (rsp & s0 & E & _ & _ & ->).
  destruct (Ha _ _ _ _ E) as (u & b & ->).
  exists [ECall u b; ESleep 1 2]. simpl. rewrite <- app_assoc.
  split; reflexivity.
Qed.

Lemma paced_retry_loop N K action f :
  (forall j s r s', action j s = (Ret r, s') ->
     exists u b, s' = emit (ECall u b) s) ->
  paced_run (retry_loop N K action f).
Proof.
  intros Ha. unfold retry_loop. apply paced_run_bind.
  - apply paced_run_for_range. intros. apply paced_retry_body, Ha.
  - intros r. destruct (snd r); [apply paced_run_ret |].
    destruct (last_result (fst r)); [| apply paced_run_raise].
    apply paced_run_bind; [apply paced_run_record_failure |].
    intro. apply paced_run_ret.
Qed.

(** One iteration of the like loop adds one of three paced shapes. *)
Lemma like_body_events gw detail i l s r s' :
  like_body gw detail i l s = (Ret r, s') ->
  exists b1 b2,
    trace s' = trace s ++ [ECall LIKE_URL b1; ESleep 1 2] \/
    trace s' = trace s ++ [ECall LIKE_URL b1; ESleep 1 2;
                           ECall LIKE_URL b2; ESleep 1 2] \/
    trace s' = trace s ++ [ESleep 1 2; ECall LIKE_URL b2; ESleep 1 2] \/
    trace s' = trace s ++ [ESleep 1 2].
Proof.
  unfold like_body. intros H.
  bind_step H l1 s1 E1.
  assert (H1 : s1 = s \/ exists b, s1 = emit (ECall LIKE_URL b) s).
  { destruct (like_flag l).
    - bind_step E1 rsp s0 E0. apply ret_inv in E1 as [_ ->].
      apply like_post_ret in E0 as (b & _ & ->). right. exists b. reflexivity.
    - apply ret_inv in E1 as [_ ->]. left. reflexivity. }
  destruct (rsp_like_post l1) as [rsp |]; [| discriminate].
  bind_step H l2 s2 E2.
  assert (H2 : s2 = s1 \/
               exists b, s2 = emit (ECall LIKE_URL b) (emit (ESleep 1 2) s1)).
  { destruct (truthy (Response.success rsp)).
    - bind_step E2 u s3 E3. apply modify_inv in E3. subst s3.
      bind_step E2 r2 s4 E4. apply like_post_ret in E4 as (b & _ & ->).
      right. exists b.
      destruct (truthy (Response.success r2)); apply ret_inv in E2 as [_ ->];
        reflexivity.
    - apply ret_inv in E2 as [_ ->]. left. reflexivity. }
  bind_step H u s3 E3. apply modify_inv in E3. subst s3.
  apply ret_inv in H as [_ ->].
  destruct H1 as [-> | (b1 & ->)]; destruct H2 as [-> | (b2 & ->)].
  - exists [], []. right. right. right. reflexivity.
  - exists [], b2. right. right. left. simpl. rewrite <- !app_assoc. reflexivity.
  - exists b1, []. left. simpl. rewrite <- !app_assoc. reflexivity.
  - exists b1, b2. right. left. simpl. rewrite <- !app_assoc. reflexivity.
Qed.

Lemma paced_like_body gw detail i l : paced_run (like_body gw detail i l).
Proof.
  intros s r s' H.
  destruct (like_body_events _ _ _ _ _ _ _ H) as (b1 & b2 & [T | [T | [T | T]]]);
    eexists; (split; [exact T | reflexivity]).
Qed.

Lemma paced_like_loop gw detail : paced_run (like_loop gw detail).
Proof.
  unfold like_loop. apply paced_run_bind.
  - apply paced_run_for_range. intros. apply paced_like_body.
  - intros r. destruct (snd r); [apply paced_run_ret |].
    destruct (rsp_like_post (fst r)); [| apply paced_run_raise].
    apply paced_run_bind; [apply paced_run_record_failure |].
    intro. apply paced_run_ret.
Qed.

Lemma get_forum_list_ret gw s r s' :
  get_forum_list gw s = (Ret r, s') ->
  exists b,
    trace s' = trace s ++ [ECall FIND_ROLE_LIST_API_URL [("gameId"%string, JInt 3)];
                           ECall FORUM_LIST_URL b].
Proof.
  unfold get_forum_list. intros H.
  bind_step H v s1 E1. apply get_user_game_list_ret in E1. subst s1.
  bind_step H g s2 E2. apply first_get_ret in E2. subst s2.
  apply make_request_ret in H as [_ ->]. eexists. simpl.
  rewrite <- app_assoc. reflexivity.
Qed.

(** X11. In a forum task that returns, the role request and the listing
    request go out back to back, and from then on every request (detail,
    share, like, unlike) is directly followed by a sleep, so no two of them
    are sent without a sleep in between. *)
Theorem requests_are_paced gw s s' :
  forum_task gw s = (Ret tt, s') ->
  exists b ext,
    trace s' = trace s
               ++ ECall FIND_ROLE_LIST_API_URL [("gameId"%string, JInt 3)]
               :: ECall FORUM_LIST_URL b :: ext /\
    paced ext = true /\
    count_requests ext <= count_sleeps ext.
Proof.
  unfold forum_task. intros H.
  bind_step H rsp s1 E1.
  apply get_forum_list_ret in E1 as (b & T1).
  match type of H with ?m s1 = _ => assert (P : paced_run m) end.
  { destruct (negb (truthy (Response.success rsp)));
      [apply paced_run_record_failure |].
    apply paced_run_bind; [apply paced_run_set_result | intro].
    apply paced_run_bind.
    { apply paced_retry_loop. intros j s0 r s0' E.
      apply get_post_detail_ret in E as (b0 & ->). eauto. }
    intros r1. destruct (negb (snd r1)); [apply paced_run_ret |].
    destruct (last_result (fst r1)) as [detail |]; [| apply paced_run_raise].
    apply paced_run_bind; [apply paced_run_set_result | intro].
    apply paced_run_bind.
    { apply paced_retry_loop. intros j s0 r s0' E.
      apply share_post_ret in E as (b0 & ->). eauto. }
    intros r2. destruct (negb (snd r2)); [apply paced_run_ret |].
    apply paced_run_bind; [apply paced_run_set_result | intro].
    apply paced_run_bind; [apply paced_like_loop | intro r3].
    destruct (negb (snd r3)); [apply paced_run_ret | apply paced_run_set_result]. }
  destruct (P _ _ _ H) as (ext & T & Hp).
  exists b, ext. rewrite T, T1, <- app_assoc.
  split; [reflexivity |]. split; [exact Hp | apply paced_counts, Hp].
Qed.

Lemma requests_are_paced_witness :
  exists b ext,
    trace (snd (forum_task (Sim.gateway Sim.unlike_even) Sim.fresh))
    = ECall FIND_ROLE_LIST_API_URL [("gameId"%string, JInt 3)]
      :: ECall FORUM_LIST_URL b :: ext /\
    paced ext = true /\
    count_requests ext <= count_sleeps ext.
Proof.
  assert (H : forum_task (Sim.gateway Sim.unlike_even) Sim.fresh
              = (Ret tt, snd (forum_task (Sim.gateway Sim.unlike_even) Sim.fresh)))
    by (vm_compute; reflexivity).
  exact (requests_are_paced _ _ _ H).
Defined.

(** ** The reply quoted when the like loop gives up *)

Lemma like_post_sends gw rsp op s r s' :
  like_post gw rsp op s = (Ret r, s') ->
  exists body,
    gw (trace s) LIKE_URL body = inl r /\
    lookup "operateType" body = Some (JInt op) /\
    s' = emit (ECall LIKE_URL body) s.
Proof.
  unfold like_post. intros H.
  bind_step H a1 s1 E1. apply post_detail_field_ret in E1 as ->.
  bind_step H a2 s2 E2. apply lift_ret in E2 as [_ ->].
  bind_step H a3 s3 E3. apply post_detail_field_ret in E3 as ->.
  bind_step H a4 s4 E4. apply post_detail_field_ret in E4 as ->.
  bind_step H a5 s5 E5. apply post_detail_field_ret in E5 as ->.
  apply make_request_ret in H as [H ->]. eexists.
  split; [exact H |]. split; reflexivity.
Qed.

Lemma latest_like_reply_more gw t0 ext more r :
  latest_like_reply gw t0 ext r ->
  existsb is_like_request more = false ->
  latest_like_reply gw t0 (ext ++ more) r.
Proof.
  intros (pre & body & post & -> & Hop & G & Hq) Hm.
  exists pre, body, (post ++ more). rewrite <- app_assoc.
  split; [reflexivity |]. split; [exact Hop |]. split; [exact G |].
  rewrite existsb_app, Hq, Hm. reflexivity.
Qed.

Lemma like_reply_kept_more gw t0 ext more l l' :
  like_reply_kept gw t0 ext l ->
  rsp_like_post l' = rsp_like_post l ->
  (like_flag l' = false ->
   like_flag l = false \/
   exists r, rsp_like_post l = Some r /\ truthy (Response.success r) = true) ->
  (rsp_like_post l = None -> like_flag l' = true) ->
  existsb is_like_request more = false ->
  like_reply_kept gw t0 (ext ++ more) l'.
Proof.
  unfold like_reply_kept. intros K Hr Hf Hn Hm. rewrite Hr.
  destruct (rsp_like_post l) as [r |]; [| exact (Hn eq_refl)].
  destruct K as [Kt Kl]. split.
  - intros F. destruct (Hf F) as [F0 | (r0 & E0 & T0)]; [exact (Kt F0) |].
    inversion E0; subst. exact T0.
  - apply latest_like_reply_more; assumption.
Qed.

Lemma like_body_keeps_reply gw detail i l s l' b s' t0 ext :
  like_body gw detail i l s = (Ret (l', b), s') ->
  trace s = t0 ++ ext ->
  like_reply_kept gw t0 ext l ->
  exists ext', trace s' = t0 ++ ext' /\ like_reply_kept gw t0 ext' l'.
Proof.
  unfold like_body. intros H Ht Hl.
  bind_step H l1 s1 E1.
  assert (H1 : exists ext1,
             trace s1 = t0 ++ ext1 /\ like_reply_kept gw t0 ext1 l1).
  { destruct (like_flag l) eqn:Ef.
    - bind_step E1 rsp s0 E0. apply ret_inv in E1 as [<- ->].
      apply like_post_sends in E0 as (body & G & Hop & ->).
      exists (ext ++ [ECall LIKE_URL body]). split.
      + simpl. rewrite Ht, app_assoc. reflexivity.
      + unfold like_reply_kept. cbn [rsp_like_post like_flag].
        split; [discriminate |].
        exists ext, body, []. split; [reflexivity |].
        split; [exact Hop |]. split; [rewrite <- Ht; exact G | reflexivity].
    - apply ret_inv in E1 as [<- ->]. exists ext. split; assumption. }
  destruct H1 as (ext1 & Ht1 & K1).
  destruct (rsp_like_post l1) as [rsp |] eqn:R1; [| discriminate].
  bind_step H l2 s2 E2.
  assert (H2 : exists ext2,
             trace s2 = t0 ++ ext2 /\ like_reply_kept gw t0 ext2 l2).
  { destruct (truthy (Response.success rsp)) eqn:Tr.
    - bind_step E2 u s3 E3. apply modify_inv in E3. subst s3.
      bind_step E2 r2 s4 E4.
      apply like_post_sends in E4 as (body & _ & Hop & ->).
      exists (ext1 ++ [ESleep 1 2; ECall LIKE_URL body]). split.
      { destruct (truthy (Response.success r2));
          apply ret_inv in E2 as [_ ->]; simpl; rewrite Ht1, <- !app_assoc;
          reflexivity. }
      assert (Hq : existsb is_like_request [ESleep 1 2; ECall LIKE_URL body]
                   = false).
      { cbn [existsb is_like_request]. rewrite Hop, andb_false_r. reflexivity. }
      destruct (truthy (Response.success r2));
        apply ret_inv in E2 as [<- _];
        (apply like_reply_kept_more with (l := l1);
         [ exact K1 | cbn [rsp_like_post]; symmetry; exact R1
         | intros _; right; exists rsp; split; assumption
         | rewrite R1; discriminate | exact Hq ]).
    - apply ret_inv in E2 as [<- ->]. exists ext1. split; assumption. }
  destruct H2 as (ext2 & Ht2 & K2).
  bind_step H u s3 E3. apply modify_inv in E3. subst s3.
  apply ret_inv in H as [H ->]. inversion H; subst. clear H.
  exists (ext2 ++ [ESleep 1 2]). split.
  - simpl. rewrite Ht2, app_assoc. reflexivity.
  - apply like_reply_kept_more with (l := l2);
      [ exact K2 | reflexivity | intros F; left; exact F | | reflexivity ].
    intros Hn. unfold like_reply_kept in K2. rewrite Hn in K2. exact K2.
Qed.

Lemma like_range_keeps_reply gw detail t0 n : forall i l s l' b s' ext,
  for_range (like_body gw detail) i n l s = (Ret (l', b), s') ->
  trace s = t0 ++ ext ->
  like_reply_kept gw t0 ext l ->
  exists ext', trace s' = t0 ++ ext' /\ like_reply_kept gw t0 ext' l'.
Proof.
  induction n as [| n IH]; intros i l s l' b s' ext H Ht Hl.
  - apply ret_inv in H as [H ->]. inversion H; subst. exists ext.
    split; assumption.
  - cbn [for_range] in H. bind_step H r s1 E. destruct r as [l1 b1].
    destruct (like_body_keeps_reply _ _ _ _ _ _ _ _ _ _ E Ht Hl)
      as (ext1 & Ht1 & K1).
    cbn [fst snd] in H. destruct b1.
    + apply ret_inv in H as [H ->]. inversion H; subst. exists ext1.
      split; assumption.
    + exact (IH _ _ _ _ _ _ _ H Ht1 K1).
Qed.

(** X12. When the like loop runs out of attempts, the failure it records
    quotes the message of the reply to the latest like request (operateType
    1) of the loop: no like request follows the one it answers, and the
    unlike replies that come after it are not the ones quoted; and when the
    loop had stopped liking because an unlike failed, the reply it quotes
    is one that reported success. *)
Theorem like_failure_quotes_like_reply gw rsp_getPostDetail s l s' :
  like_loop gw rsp_getPostDetail s = (Ret (l, false), s') ->
  exists rsp pre body post,
    rsp_like_post l = Some rsp /\
    exceptions s' =
      exceptions s ++ [("点赞帖子失败" ++ ", " ++ Response.msg rsp)%string] /\
    trace s' = trace s ++ pre ++ ECall LIKE_URL body :: post /\
    lookup "operateType" body = Some (JInt 1) /\
    gw (trace s ++ pre) LIKE_URL body = inl rsp /\
    existsb is_like_request post = false /\
    (like_flag l = false -> truthy (Response.success rsp) = true).
Proof.
  intros H.
  apply like_loop_ret in H as (s1 & E & [[Hb _] | (_ & rsp & Hr & ->)]);
    [discriminate |].
  destruct (like_range_io gw _ _ _ _ _ _ _ E) as (_ & He & _).
  destruct (like_range_keeps_reply gw _ (trace s) _ _ _ _ _ _ _ [] E)
    as (ext & Ht & K); [rewrite app_nil_r; reflexivity | reflexivity |].
  unfold like_reply_kept in K. rewrite Hr in K.
  destruct K as [Kt (pre & body & post & -> & Hop & G & Hq)].
  exists rsp, pre, body, post.
  split; [exact Hr |]. split; [simpl; simpl in He; rewrite He; reflexivity |].
  split; [exact Ht |]. repeat split; assumption.
Qed.

(** Every unlike reply reports failure: the record quotes the reply to
    the latest like request, which reported success. *)
Lemma like_failure_quotes_like_reply_witness :
  exists rsp pre body post,
    exceptions
      (snd (like_loop (Sim.gateway Sim.unlike_never)
              (Sim.reply true "detail reply" Sim.post_detail) Sim.fresh))
    = [("点赞帖子失败" ++ ", " ++ Response.msg rsp)%string] /\
    trace
      (snd (like_loop (Sim.gateway Sim.unlike_never)
              (Sim.reply true "detail reply" Sim.post_detail) Sim.fresh))
    = pre ++ ECall LIKE_URL body :: post /\
    lookup "operateType" body = Some (JInt 1) /\
    Sim.gateway Sim.unlike_never pre LIKE_URL body = inl rsp /\
    existsb is_like_request post = false /\
    Response.msg rsp = "like reply"%string /\
    truthy (Response.success rsp) = true.
Proof.
  pose (gw := Sim.gateway Sim.unlike_never).
  pose (detail := Sim.reply true "detail reply" Sim.post_detail).
  assert (H : like_loop gw detail Sim.fresh
              = (Ret (mkLike false 0 (Some (Sim.reply true "like reply" JNull)) 9,
                      false),
                 snd (like_loop gw detail Sim.fresh)))
    by (vm_compute; reflexivity).
  destruct (like_failure_quotes_like_reply _ _ _ _ _ H)
    as (rsp & pre & body & post & Hr & He & Ht & Hop & G & Hq & Hf).
  cbn [rsp_like_post] in Hr. inversion Hr; subst rsp.
  exists (Sim.reply true "like reply" JNull), pre, body, post.
  fold gw. fold detail.
  split; [exact He |]. split; [exact Ht |]. split; [exact Hop |].
  split; [exact G |]. split; [exact Hq |].
  split; [reflexivity | exact (Hf eq_refl)].
Defined.

(** ** What exit status 0 means *)

Lemma process_sign_action_ret_inv name (action : M Response.t) ok_text fail_text s s' :
  _process_sign_action name action ok_text fail_text s = (Ret tt, s') ->
  exists r s1,
    action s = (Ret r, s1) /\ s' = record_stage name ok_text fail_text r s1.
Proof.
  unfold _process_sign_action, record_stage. intros H.
  bind_step H r s1 E. exists r, s1. split; [exact E |].
  destruct (truthy (Response.success r)).
  - apply modify_inv in H. exact H.
  - apply record_failure_inv in H. exact H.
Qed.

Lemma record_stage_clean name ok_text fail_text r s :
  exceptions (record_stage name ok_text fail_text r s) = [] ->
  exceptions s = [] /\
  record_stage name ok_text fail_text r s = set_result name ok_text s.
Proof.
  unfold record_stage. destruct (truthy (Response.success r)); simpl; intros H.
  - split; [exact H | reflexivity].
  - apply app_eq_nil in H as [_ H]. discriminate.
Qed.

(** Stages that return without a failure entry have recorded all six
    success messages. *)
Lemma stages_clean gw month s u s1 :
  stages gw month s = (Ret u, s1) ->
  exceptions s1 = [] ->
  result s1 =
    liked (dict_set "sign_in" "社区签到成功"
             (dict_set "checkin" "签到奖励签到成功" (result s))).
Proof.
  intros H Hc. unfold stages, checkin_stage, sign_in_stage in H.
  bind_step H u1 s2 E1. destruct u1.
  apply process_sign_action_ret_inv in E1 as (r1 & sa & E1 & ->).
  destruct (checkin_io gw month _ _ _ E1) as (Hr1 & He1 & _).
  bind_step H u2 s3 E2. destruct u2.
  apply process_sign_action_ret_inv in E2 as (r2 & sb & E2 & ->).
  destruct (sign_in_io gw _ _ _ E2) as (Hr2 & He2 & _).
  destruct u. destruct (forum_task_cases _ _ _ H) as (ext & _ & Hend).
  destruct (forum_end_entries _ _ _ _ Hend) as [(He & Hr & _) | (m & He)].
  2:{ rewrite He in Hc. apply app_eq_nil in Hc as [_ Hc]. discriminate. }
  rewrite Hc in He. symmetry in He.
  apply record_stage_clean in He as [Hb Eb]. rewrite Eb in Hr.
  rewrite He2 in Hb. apply record_stage_clean in Hb as [_ Ea].
  rewrite Ea in Hr2. simpl in Hr, Hr2. rewrite Hr, Hr2, Hr1. reflexivity.
Qed.

(** X13. [main] exits with status 0 only when every step was done: the uid
    was set, no failure was recorded, the summary holds all six success
    messages, and the one notification sent carries the full summary
    text. *)
Theorem exit_zero_means_all_done gw format_message month uid s :
  fst (main gw format_message month uid s) = 0 ->
  (exists u, uid = Some u) /\
  exceptions (snd (main gw format_message month uid s)) = [] /\
  result (snd (main gw format_message month uid s)) = all_six /\
  notifications (trace (snd (main gw format_message month uid s))) =
    notifications (trace s) ++
    ["签到奖励签到成功, 社区签到成功, 获取帖子列表成功, 获取帖子详情成功, 分享帖子成功, 点赞帖子成功!"%string].
Proof.
  intros H.
  destruct (init_cases uid s) as (pre & Hn & Hi).
  unfold main in *. unfold bind at 1 in H. unfold bind at 1. unfold bind at 1.
  unfold bind at 1.
  destruct uid as [u |]; rewrite Hi in *; [| discriminate H].
  split; [exists u; reflexivity |].
  set (s0 := mkState [] [] (trace s ++ pre)) in *.
  pose proof (start_cases gw month s0) as Hs.
  destruct (stages gw month s0) as [[u1 | e] s1] eqn:Es.
  - destruct Hs as [Hs Hrun]. rewrite Hs in *.
    destruct (aggregate_cases s1) as [[He Ha] | [He Ha]]; rewrite Ha in *.
    2:{ destruct (format_message (String.concat "; " (exceptions s1)));
          discriminate H. }
    pose proof (stages_clean _ _ _ _ _ Es He) as Hr. simpl in Hr.
    assert (Hm : msg (emit (ELog INFO (msg s1)) s1) =
      "签到奖励签到成功, 社区签到成功, 获取帖子列表成功, 获取帖子详情成功, 分享帖子成功, 点赞帖子成功!"%string).
    { unfold msg at 1. simpl. rewrite Hr. reflexivity. }
    rewrite Hm. simpl.
    split; [exact He |]. split; [exact Hr |].
    destruct (stage_run_quiet _ _ _ _ Hrun) as (ext & Ht & Hq).
    rewrite Ht. simpl. rewrite !notifications_app, Hq, Hn. simpl.
    rewrite !app_nil_r. reflexivity.
  - destruct Hs as [Hs _]. rewrite Hs in H.
    destruct e as [m | | | | | |];
      [destruct (format_message m) |..]; discriminate H.
Qed.

Lemma exit_zero_means_all_done_witness :
  notifications (trace (snd (main (Sim.gateway Sim.all_ok) Sim.format_message
                               7 (Some "12345") Sim.fresh))) =
    ["签到奖励签到成功, 社区签到成功, 获取帖子列表成功, 获取帖子详情成功, 分享帖子成功, 点赞帖子成功!"%string].
Proof.
  refine (proj2 (proj2 (proj2
    (exit_zero_means_all_done (Sim.gateway Sim.all_ok) Sim.format_message 7
       (Some "12345"%string) Sim.fresh _)))).
  vm_compute. reflexivity.
Defined.

(** ** The detail loop walks the listing *)

Lemma get_post_detail_sends gw rsp fields posts i s r s' :
  Response.data rsp = JDict fields ->
  lookup "postList" fields = Some (JList posts) ->
  get_post_detail gw rsp i s = (Ret r, s') ->
  exists id,
    listed_post_id posts i = Some id /\
    gw (trace s) GET_POST_DETAIL_URL
      [("isOnlyPublisher"%string, JInt 0); ("postId"%string, id);
       ("showOrderType"%string, JInt 2)] = inl r /\
    s' = emit (detail_request id) s.
Proof.
  intros Hd Hl H. unfold get_post_detail in H.
  bind_step H a1 s1 E1. apply lift_ret in E1 as [E1 ->].
  rewrite Hd in E1. cbn [getitem_key] in E1. rewrite Hl in E1.
  inversion E1; subst a1. clear E1.
  bind_step H a2 s2 E2. apply lift_ret in E2 as [E2 ->].
  bind_step H a3 s3 E3. apply lift_ret in E3 as [E3 ->].
  apply make_request_ret in H as [G ->].
  exists a3. unfold listed_post_id. cbn [getitem_int] in E2.
  destruct (nth_error posts i) as [p |]; [| discriminate].
  inversion E2; subst a2. clear E2.
  destruct p as [| | | | | post]; try discriminate.
  cbn [getitem_key] in E3. destruct (lookup "postId" post); [| discriminate].
  inversion E3; subst. repeat split. exact G.
Qed.

Lemma detail_range_walk gw rsp fields posts K n : forall i l s l' b s',
  Response.data rsp = JDict fields ->
  lookup "postList" fields = Some (JList posts) ->
  for_range (retry_body K (get_post_detail gw rsp)) i n l s = (Ret (l', b), s') ->
  exists k ids,
    attempts_used l' = attempts_used l + k /\
    map Some ids = map (listed_post_id posts) (seq i k) /\
    trace s' =
      trace s ++ flat_map (fun id => [detail_request id; ESleep 1 2]) ids /\
    (k = 0 /\ last_result l' = last_result l \/
     exists r t,
       0 < k /\ last_result l' = Some r /\
       gw t GET_POST_DETAIL_URL
         [("isOnlyPublisher"%string, JInt 0);
          ("postId"%string, last ids JNull);
          ("showOrderType"%string, JInt 2)] = inl r).
Proof.
  induction n as [| n IH]; intros i l s l' b s' Hd Hl H.
  - apply ret_inv in H as [H ->]. inversion H; subst.
    exists 0, []. rewrite app_nil_r, Nat.add_0_r. repeat split.
    left. split; reflexivity.
  - cbn [for_range] in H. bind_step H x s1 E. destruct x as [l1 b1].
    apply retry_body_ret in E as (r & s0 & Ea & -> & -> & ->).
    destruct (get_post_detail_sends _ _ _ _ _ _ _ _ Hd Hl Ea) as (id & Hid & G & ->).
    cbn [fst snd] in H.
    match type of H with
    | (if ?c then _ else _) _ = _ => destruct c
    end.
    + apply ret_inv in H as [H ->]. inversion H; subst.
      exists 1, [id]. cbn [attempts_used last_result]. split; [lia |].
      split; [simpl; rewrite Hid; reflexivity |].
      split; [simpl; rewrite <- app_assoc; reflexivity |].
      right. exists r, (trace s). split; [lia |]. split; [reflexivity | exact G].
    + destruct (IH _ _ _ _ _ _ Hd Hl H) as (k & ids & Ha & Hm & Ht & Hlast).
      cbn [attempts_used last_result] in Ha, Hlast.
      exists (S k), (id :: ids). split; [lia |].
      split; [cbn [seq map]; rewrite Hid, Hm; reflexivity |].
      split.
      { rewrite Ht. simpl. rewrite <- !app_assoc. reflexivity. }
      right. destruct Hlast as [[-> Hl'] | (r' & t & Hk & Hl' & G')].
      * destruct ids; [| discriminate]. exists r, (trace s).
        split; [lia |]. split; [exact Hl' | exact G].
      * exists r', t. split; [lia |]. split; [exact Hl' |].
        destruct ids as [| id' ids']; [| exact G'].
        destruct k; [lia | discriminate].
Qed.

(** X14. A detail loop that returns has fetched the first three, four or
    five posts of the listing, one per attempt and in the listing's order,
    each request followed by a sleep; the reply it keeps, which the share
    and the like then use, is the remote side's answer for the last post
    fetched. *)
Theorem detail_loop_walks_listing gw rsp fields posts s l b s' :
  Response.data rsp = JDict fields ->
  lookup "postList" fields = Some (JList posts) ->
  retry_loop 5 3 (get_post_detail gw rsp) "获取帖子详情失败" s = (Ret (l, b), s') ->
  exists ids,
    3 <= length ids <= 5 /\
    length ids = attempts_used l /\
    map Some ids = map (listed_post_id posts) (seq 0 (length ids)) /\
    trace s' =
      trace s ++ flat_map (fun id => [detail_request id; ESleep 1 2]) ids /\
    exists r t,
      last_result l = Some r /\
      gw t GET_POST_DETAIL_URL
        [("isOnlyPublisher"%string, JInt 0);
         ("postId"%string, last ids JNull);
         ("showOrderType"%string, JInt 2)] = inl r.
Proof.
  intros Hd Hl H.
  apply retry_loop_ret in H as (s1 & E & Hs).
  assert (Ht : trace s' = trace s1).
  { destruct Hs as [[_ ->] | (_ & r & _ & ->)]; reflexivity. }
  destruct (retry_range_count _ _ _ _ _ _ _ _ _ E) as (Ha & Hc & Hb & Hn & _).
  destruct (detail_range_walk _ _ _ _ _ _ _ _ _ _ _ _ Hd Hl E)
    as (k & ids & Hk & Hm & Hw & Hlast).
  cbn [attempts_used successes] in Ha, Hc, Hb, Hn, Hk.
  assert (Hlen : length ids = k).
  { apply (f_equal (@length _)) in Hm.
    rewrite !length_map, length_seq in Hm. exact Hm. }
  assert (H3 : 3 <= k <= 5).
  { destruct b; [specialize (Hb eq_refl) | specialize (Hn eq_refl)]; lia. }
  exists ids. rewrite Hlen. split; [exact H3 |]. split; [lia |].
  split; [exact Hm |]. split; [rewrite Ht; exact Hw |].
  destruct Hlast as [[-> _] | (r & t & _ & Hr & G)]; [lia |].
  exists r, t. split; assumption.
Qed.

(** The second detail reply reports failure: four posts are fetched, and
    the reply kept is the one for the fourth post. *)
Lemma detail_loop_walks_listing_witness :
  exists ids,
    ids = [JInt 11; JInt 12; JInt 13; JInt 14] /\
    trace (snd (retry_loop 5 3
                  (get_post_detail (gateway_with_posts 5 (fun k => negb (Nat.eqb k 1)))
                     (Sim.reply true "list reply"
                        (JDict [("postList"%string, JList Sim.five_posts)])))
                  "获取帖子详情失败" Sim.fresh))
    = flat_map (fun id => [detail_request id; ESleep 1 2]) ids.
Proof.
  pose (gw := gateway_with_posts 5 (fun k => negb (Nat.eqb k 1))).
  pose (rsp := Sim.reply true "list reply"
                 (JDict [("postList"%string, JList Sim.five_posts)])).
  assert (H : retry_loop 5 3 (get_post_detail gw rsp) "获取帖子详情失败" Sim.fresh
              = (Ret (mkRetry 3 (Some (Sim.reply true "detail reply" Sim.post_detail)) 4,
                      true),
                 snd (retry_loop 5 3 (get_post_detail gw rsp) "获取帖子详情失败"
                        Sim.fresh)))
    by (vm_compute; reflexivity).
  destruct (detail_loop_walks_listing gw rsp _ Sim.five_posts _ _ _ _
              eq_refl eq_refl H) as (ids & _ & Hlen & Hm & Ht & _).
  exists ids. fold gw. fold rsp. split; [| exact Ht].
  cbn [attempts_used] in Hlen. rewrite Hlen in Hm.
  destruct ids as [| a [| b [| c [| d [| e ids]]]]]; try discriminate.
  simpl in Hm. inversion Hm. reflexivity.
Defined.
